(** * AmiX messaging core: a shallow embedding and its verified properties

    The development follows the JavaScript sources of the mobile and web
    applications:

    - [utils/crypto.js] (class [AmiXCrypto]): identity keys, key exchange,
      HKDF key derivation, the ratchet encryption and decryption of a
      message, the safety number;
    - [utils/groupCrypto.js] (class [GroupCrypto]): group state, member
      removal, key rotation, decryption of a group message and the ratchet
      state recovery;
    - [services/messageQueue.js] (class [AmiXMessageQueue]): the outbox, its
      processing loop, retries, failures and acknowledgments, the
      resolution of conflicts;
    - [utils/storage.js] (class [AmiXStorage]): the secure store;
    - [apps/web/src/utils/crypto.js]: the web safety number, the
      encryption with a shared secret and the ratchet.

    Conventions.  A [Uint8Array] is a list of integers in [0, 256); a
    JavaScript string is a [string]; an exception is the [Throw] case of
    [result]; [Date.now()], [crypto.getRandomValues] and [Math.random] read
    an explicit [World]; a JavaScript [Map] is an insertion-ordered
    association list and a plain object used as a dictionary is a [gmap]. *)

From Stdlib Require Import ZArith List Ascii String Bool Lia Permutation Sorted.
From stdpp Require Import gmap strings list pretty.
From Bignums Require Import BigZ.
Import ListNotations.

Definition bytes := list Z.

(** ** JavaScript values shared by all modules *)
Module JS.

Inductive js_error : Type :=
| ReferenceError (msg : string)
| TypeError (msg : string)
| Error (msg : string).

(** [error.message] *)
Definition error_message (e : js_error) : string :=
  match e with
  | ReferenceError m => m
  | TypeError m => m
  | Error m => m
  end.

Inductive result (A : Type) : Type :=
| Ok (a : A)
| Throw (e : js_error).
Arguments Ok {A} a.
Arguments Throw {A} e.

Definition rbind {A B} (r : result A) (k : A -> result B) : result B :=
  match r with
  | Ok a => k a
  | Throw e => Throw e
  end.

Definition rmap {A B} (f : A -> B) (r : result A) : result B :=
  match r with
  | Ok a => Ok (f a)
  | Throw e => Throw e
  end.

Definition is_ok {A} (r : result A) : bool :=
  match r with Ok _ => true | Throw _ => false end.

(** [new TextEncoder().encode(s)]: the string already holds its UTF-8
    code units. *)
Definition utf8_encode (s : string) : bytes :=
  map (fun c => Z.of_N (N_of_ascii c)) (list_ascii_of_string s).

(** The text whose UTF-8 code units are the bytes [b]. *)
Definition text_of (b : bytes) : string :=
  string_of_list_ascii (map (fun x => ascii_of_N (Z.to_N x)) b).

Definition between (low high x : Z) : bool := ((low <=? x) && (x <=? high))%Z.

(** U+FFFD, which the decoder writes in the place of malformed input. *)
Definition replacement : bytes := [239; 191; 189]%Z.

(** The decoder of [TextDecoder]: a sequence of one to four bytes that
    encodes a scalar value is kept; a byte that starts or continues no
    such sequence ends the sequence read so far, which is replaced by
    U+FFFD, and is read again as the start of the next. *)
Fixpoint decode_sequences (b : bytes) : bytes :=
  match b with
  | [] => []
  | x :: rest =>
      if (x <=? 127)%Z then x :: decode_sequences rest
      else if between 194 223 x then
        match rest with
        | [] => replacement
        | y :: rest1 =>
            if between 128 191 y then x :: y :: decode_sequences rest1
            else replacement ++ decode_sequences rest
        end
      else if between 224 239 x then
        let low := (if x =? 224 then 160 else 128)%Z in
        let high := (if x =? 237 then 159 else 191)%Z in
        match rest with
        | [] => replacement
        | y :: rest1 =>
            if between low high y then
              match rest1 with
              | [] => replacement
              | z :: rest2 =>
                  if between 128 191 z then x :: y :: z :: decode_sequences rest2
                  else replacement ++ decode_sequences rest1
              end
            else replacement ++ decode_sequences rest
        end
      else if between 240 244 x then
        let low := (if x =? 240 then 144 else 128)%Z in
        let high := (if x =? 244 then 143 else 191)%Z in
        match rest with
        | [] => replacement
        | y :: rest1 =>
            if between low high y then
              match rest1 with
              | [] => replacement
              | z :: rest2 =>
                  if between 128 191 z then
                    match rest2 with
                    | [] => replacement
                    | u :: rest3 =>
                        if between 128 191 u
                        then x :: y :: z :: u :: decode_sequences rest3
                        else replacement ++ decode_sequences rest2
                    end
                  else replacement ++ decode_sequences rest1
              end
            else replacement ++ decode_sequences rest
        end
      else replacement ++ decode_sequences rest
  end.

(** The byte order mark U+FEFF, which the decoder drops at the start. *)
Definition has_byte_order_mark (b : bytes) : bool :=
  match b with
  | x :: y :: z :: _ => ((x =? 239) && (y =? 187) && (z =? 191))%Z
  | _ => false
  end.

Definition skip_byte_order_mark (b : bytes) : bytes :=
  if has_byte_order_mark b then skipn 3 b else b.

(** [new TextDecoder().decode(b)] *)
Definition utf8_decode (b : bytes) : string :=
  text_of (decode_sequences (skip_byte_order_mark b)).

(** Bytes that are the UTF-8 encoding of scalar values and nothing else:
    the code units of a JavaScript string without unpaired surrogates. *)
Fixpoint well_formed (b : bytes) : bool :=
  match b with
  | [] => true
  | x :: rest =>
      if ((0 <=? x) && (x <=? 127))%Z then well_formed rest
      else if between 194 223 x then
        match rest with
        | y :: rest1 => between 128 191 y && well_formed rest1
        | _ => false
        end
      else if between 224 239 x then
        match rest with
        | y :: z :: rest2 =>
            between (if x =? 224 then 160 else 128)%Z (if x =? 237 then 159 else 191)%Z y
            && between 128 191 z && well_formed rest2
        | _ => false
        end
      else if between 240 244 x then
        match rest with
        | y :: z :: u :: rest3 =>
            between (if x =? 240 then 144 else 128)%Z (if x =? 244 then 143 else 191)%Z y
            && between 128 191 z && between 128 191 u && well_formed rest3
        | _ => false
        end
      else false
  end.

(** A text that the decoder gives back as the encoder wrote it: a string
    without unpaired surrogates that does not start with the byte order
    mark. *)
Definition plain_text (s : string) : Prop :=
  well_formed (utf8_encode s) = true /\ has_byte_order_mark (utf8_encode s) = false.

(** The names a plain object inherits from [Object.prototype]: reading
    one of them from an object that has no property of its own under
    that name gives a function (for [__proto__], the prototype), not
    [undefined]. *)
Definition Object_prototype_names : list string :=
  ["constructor"; "hasOwnProperty"; "isPrototypeOf"; "propertyIsEnumerable";
   "toLocaleString"; "toString"; "valueOf"; "__proto__";
   "__defineGetter__"; "__defineSetter__"; "__lookupGetter__";
   "__lookupSetter__"]%string.

Definition inherited (name : string) : bool :=
  existsb (String.eqb name) Object_prototype_names.

(** [s.includes(t)] *)
Fixpoint includes (s t : string) : bool :=
  if String.prefix t s then true
  else match s with
       | EmptyString => false
       | String _ s' => includes s' t
       end.

(** [String.prototype.toUpperCase] on the ASCII range. *)
Definition upper_ascii (c : ascii) : ascii :=
  let n := N_of_ascii c in
  if ((97 <=? n) && (n <=? 122))%N then ascii_of_N (n - 32) else c.

Fixpoint toUpperCase (s : string) : string :=
  match s with
  | EmptyString => EmptyString
  | String c s' => String (upper_ascii c) (toUpperCase s')
  end.

(** [s.substring(0, n)] *)
Definition substring0 (n : nat) (s : string) : string := String.substring 0 n s.

(** [s.match(/.{1,4}/g)]: consecutive groups of at most four characters
    (the strings met here hold no line terminator); [None] stands for the
    [null] returned when nothing matches. *)
Fixpoint groups_of4 (fuel : nat) (s : string) : list string :=
  match fuel with
  | O => []
  | S fuel' =>
      match s with
      | EmptyString => []
      | _ => String.substring 0 4 s
             :: groups_of4 fuel' (String.substring 4 (String.length s - 4) s)
      end
  end.

Definition match_groups4 (s : string) : option (list string) :=
  match s with
  | EmptyString => None
  | _ => Some (groups_of4 (String.length s) s)
  end.

(** [parts.join(sep)] *)
Fixpoint join (sep : string) (parts : list string) : string :=
  match parts with
  | [] => EmptyString
  | [p] => p
  | p :: rest => p +:+ sep +:+ join sep rest
  end.

Local Open Scope Z_scope.

Definition hex_digit (d : Z) : ascii :=
  if d <? 10 then ascii_of_N (Z.to_N (48 + d)) else ascii_of_N (Z.to_N (87 + d)).

(** [b.toString(16).padStart(2, "0")] for a byte. *)
Definition hex_byte (b : Z) : string :=
  String (hex_digit (Z.shiftr b 4)) (String (hex_digit (Z.land b 15)) EmptyString).

(** [Array.from(bytes).map(b => b.toString(16).padStart(2, "0")).join('')] *)
Definition bytesToHex (b : bytes) : string :=
  fold_right (fun x acc => hex_byte x +:+ acc) EmptyString b.

End JS.
Export JS.

(** ** SHA-256 (FIPS 180-4), the digest behind [crypto.subtle.digest] and
    [Crypto.digestStringAsync] *)
Module SHA256.
Local Open Scope Z_scope.

Definition mask32 : Z := 0xFFFFFFFF.
Definition w32 (x : Z) : Z := Z.land x mask32.
Definition rotr (n x : Z) : Z := Z.lor (Z.shiftr x n) (w32 (Z.shiftl x (32 - n))).
Definition xor3 (a b c : Z) : Z := Z.lxor (Z.lxor a b) c.

Definition Ch (x y z : Z) : Z := Z.lxor (Z.land x y) (Z.land (Z.lxor x mask32) z).
Definition Maj (x y z : Z) : Z := xor3 (Z.land x y) (Z.land x z) (Z.land y z).
Definition Sigma0 (x : Z) : Z := xor3 (rotr 2 x) (rotr 13 x) (rotr 22 x).
Definition Sigma1 (x : Z) : Z := xor3 (rotr 6 x) (rotr 11 x) (rotr 25 x).
Definition sigma0 (x : Z) : Z := xor3 (rotr 7 x) (rotr 18 x) (Z.shiftr x 3).
Definition sigma1 (x : Z) : Z := xor3 (rotr 17 x) (rotr 19 x) (Z.shiftr x 10).

(** The constants are the ones the standard describes: the first 32
    bits of the fractional parts of the cube roots of the first 64 primes
    (round constants) and of the square roots of the first 8 (initial hash
    value). *)
Definition is_prime (n : nat) : bool :=
  (1 <? n)%nat
  && forallb (fun d => negb (Nat.modulo n d =? 0)%nat) (seq 2 (n - 2)).

Definition primes (count : nat) : list Z :=
  map Z.of_nat (firstn count (List.filter is_prime (seq 2 310))).

Definition cube_root_step (n r : Z) (i : nat) : Z :=
  let c := r + Z.shiftl 1 (Z.of_nat i) in
  if c * c * c <=? n then c else r.

(** The integer part of the cube root of [n < 2^120]. *)
Definition cube_root (n : Z) : Z := fold_left (cube_root_step n) (rev (seq 0 40)) 0.

Definition K : list Z :=
  Eval vm_compute in map (fun p => w32 (cube_root (Z.shiftl p 96))) (primes 64).

Definition H0 : list Z :=
  Eval vm_compute in map (fun p => w32 (Z.sqrt (Z.shiftl p 64))) (primes 8).

(** [n] bytes of [x], most significant first. *)
Fixpoint be_bytes (n : nat) (x : Z) : bytes :=
  match n with
  | O => []
  | S n' => Z.land (Z.shiftr x (8 * Z.of_nat n')) 255 :: be_bytes n' x
  end.

Definition pad (m : bytes) : bytes :=
  let l := Z.of_nat (length m) in
  m ++ [0x80] ++ repeat 0 (Z.to_nat ((55 - l) mod 64)) ++ be_bytes 8 (8 * l).

Fixpoint be_words (fuel : nat) (b : bytes) : list Z :=
  match fuel, b with
  | S fuel', b0 :: b1 :: b2 :: b3 :: rest =>
      (Z.shiftl b0 24 + Z.shiftl b1 16 + Z.shiftl b2 8 + b3) :: be_words fuel' rest
  | _, _ => []
  end.

(** The message schedule, most recent word first. *)
Fixpoint schedule_rev (n : nat) (r : list Z) : list Z :=
  match n with
  | O => r
  | S n' =>
      let w := w32 (sigma1 (nth 1 r 0) + nth 6 r 0 + sigma0 (nth 14 r 0) + nth 15 r 0) in
      schedule_rev n' (w :: r)
  end.

Definition schedule (block : list Z) : list Z := rev (schedule_rev 48 (rev block)).

Definition round (s : list Z) (kw : Z * Z) : list Z :=
  match s with
  | [a; b; c; d; e; f; g; h] =>
      let t1 := h + Sigma1 e + Ch e f g + fst kw + snd kw in
      let t2 := Sigma0 a + Maj a b c in
      [w32 (t1 + t2); a; b; c; w32 (d + t1); e; f; g]
  | _ => s
  end.

Definition compress (h : list Z) (block : list Z) : list Z :=
  let s := fold_left round (combine K (schedule block)) h in
  map (fun p => w32 (fst p + snd p)) (combine h s).

Fixpoint blocks (fuel : nat) (ws : list Z) : list (list Z) :=
  match fuel, ws with
  | S fuel', _ :: _ => firstn 16 ws :: blocks fuel' (skipn 16 ws)
  | _, _ => []
  end.

Definition digest (m : bytes) : bytes :=
  let p := pad m in
  let ws := be_words (length p) p in
  concat (map (be_bytes 4) (fold_left compress (blocks (length ws) ws) H0)).

Definition hexdigest (m : bytes) : string := bytesToHex (digest m).

End SHA256.

(** ** HMAC-SHA-256 (RFC 2104), the signature behind
    [crypto.subtle.sign('HMAC', ...)] *)
Module HMAC.
Local Open Scope Z_scope.

Definition block_size : nat := 64.

Definition block_key (key : bytes) : bytes :=
  let k := if (block_size <? length key)%nat then SHA256.digest key else key in
  k ++ repeat 0 (block_size - length k).

Definition hmac_sha256 (key data : bytes) : bytes :=
  let k := block_key key in
  let ipad := map (Z.lxor 0x36) k in
  let opad := map (Z.lxor 0x5c) k in
  SHA256.digest (opad ++ SHA256.digest (ipad ++ data)).

End HMAC.

(** ** Base64 as [tweetnacl-util] encodes and decodes it *)
Module Base64.
Local Open Scope Z_scope.

Definition alphabet : string :=
  "ABCDEFGHIJKLMNOPQRSTUVWXYZabcdefghijklmnopqrstuvwxyz0123456789+/".

Definition digit (i : Z) : ascii :=
  match String.get (Z.to_nat i) alphabet with
  | Some c => c
  | None => "="%char
  end.

Definition value (c : ascii) : option Z :=
  let n := Z.of_N (N_of_ascii c) in
  if (65 <=? n) && (n <=? 90) then Some (n - 65)
  else if (97 <=? n) && (n <=? 122) then Some (n - 71)
  else if (48 <=? n) && (n <=? 57) then Some (n + 4)
  else if n =? 43 then Some 62
  else if n =? 47 then Some 63
  else None.

Fixpoint encode_list (b : bytes) : list ascii :=
  match b with
  | [] => []
  | [x] =>
      [digit (Z.shiftr x 2); digit (Z.shiftl (Z.land x 3) 4); "="%char; "="%char]
  | [x; y] =>
      [digit (Z.shiftr x 2);
       digit (Z.lor (Z.shiftl (Z.land x 3) 4) (Z.shiftr y 4));
       digit (Z.shiftl (Z.land y 15) 2); "="%char]
  | x :: y :: z :: rest =>
      digit (Z.shiftr x 2)
      :: digit (Z.lor (Z.shiftl (Z.land x 3) 4) (Z.shiftr y 4))
      :: digit (Z.lor (Z.shiftl (Z.land y 15) 2) (Z.shiftr z 6))
      :: digit (Z.land z 63)
      :: encode_list rest
  end.

(** [encodeBase64(bytes)] *)
Definition encodeBase64 (b : bytes) : string := string_of_list_ascii (encode_list b).

Fixpoint decode_list (fuel : nat) (cs : list ascii) : option bytes :=
  match fuel with
  | O => None
  | S fuel' =>
      match cs with
      | [] => Some []
      | a :: b :: c :: d :: rest =>
          match value a, value b with
          | Some va, Some vb =>
              let x := Z.lor (Z.shiftl va 2) (Z.shiftr vb 4) in
              match value c, value d, rest with
              | Some vc, Some vd, _ =>
                  let y := Z.lor (Z.shiftl (Z.land vb 15) 4) (Z.shiftr vc 2) in
                  let z := Z.lor (Z.shiftl (Z.land vc 3) 6) vd in
                  option_map (fun t => x :: y :: z :: t) (decode_list fuel' rest)
              | Some vc, None, [] =>
                  if Ascii.eqb d "="%char
                  then Some [x; Z.lor (Z.shiftl (Z.land vb 15) 4) (Z.shiftr vc 2)]
                  else None
              | None, None, [] =>
                  if Ascii.eqb c "="%char && Ascii.eqb d "="%char then Some [x] else None
              | _, _, _ => None
              end
          | _, _ => None
          end
      | _ => None
      end
  end.

(** [decodeBase64(s)]: a string that is not canonical base64 raises
    [TypeError('invalid encoding')]. *)
Definition decodeBase64 (s : string) : result bytes :=
  match decode_list (S (String.length s)) (list_ascii_of_string s) with
  | Some b => Ok b
  | None => Throw (TypeError "invalid encoding")
  end.

End Base64.

(** ** X25519 (RFC 7748), the agreement the module imports as [box] *)
Module X25519.
Local Open Scope Z_scope.

Definition mask255 : Z := Eval cbv in 2 ^ 255 - 1.

Fixpoint le_decode (b : bytes) : Z :=
  match b with
  | [] => 0
  | x :: rest => x + 256 * le_decode rest
  end.

Fixpoint le_encode (n : nat) (x : Z) : bytes :=
  match n with
  | O => []
  | S n' => Z.land x 255 :: le_encode n' (Z.shiftr x 8)
  end.

(** The scalar with its three low bits and its top bit cleared and bit 254
    set; the coordinate with its top bit cleared. *)
Definition decodeScalar (k : bytes) : Z :=
  let n := le_decode k in
  Z.lor (Z.land n (mask255 - 7)) (Z.shiftl 1 254).

Definition decodeUCoordinate (u : bytes) : Z := Z.land (le_decode u) mask255.

(** Arithmetic in the field of [2^255 - 19] elements, on machine-word
    integers so that the ladder runs on real keys. *)
Definition p : bigZ := Eval vm_compute in (2 ^ 255 - 19)%bigZ.
Definition a24 : bigZ := 121665%bigZ.

Definition fadd (a b : bigZ) : bigZ := ((a + b) mod p)%bigZ.
Definition fsub (a b : bigZ) : bigZ := ((a - b) mod p)%bigZ.
Definition fmul (a b : bigZ) : bigZ := ((a * b) mod p)%bigZ.

Fixpoint pow_pos (b : bigZ) (e : positive) : bigZ :=
  match e with
  | xH => b
  | xO e' => let r := pow_pos b e' in fmul r r
  | xI e' => let r := pow_pos b e' in fmul (fmul r r) b
  end.

(** [x^(p-2)], the inverse of a non-zero [x]. *)
Definition inv (x : bigZ) : bigZ := pow_pos x (Z.to_pos (mask255 - 20)).

Record ladder_state := { x2 : bigZ; z2 : bigZ; x3 : bigZ; z3 : bigZ; swap : bool }.

Definition cswap (s : bool) (a b : bigZ) : bigZ * bigZ := if s then (b, a) else (a, b).

Definition ladder_step (x1 : bigZ) (k : Z) (st : ladder_state) (t : nat) : ladder_state :=
  let kt := Z.testbit k (Z.of_nat t) in
  let sw := xorb (swap st) kt in
  let '(a2, a3) := cswap sw (x2 st) (x3 st) in
  let '(c2, c3) := cswap sw (z2 st) (z3 st) in
  let A := fadd a2 c2 in
  let AA := fmul A A in
  let B := fsub a2 c2 in
  let BB := fmul B B in
  let E := fsub AA BB in
  let C := fadd a3 c3 in
  let D := fsub a3 c3 in
  let DA := fmul D A in
  let CB := fmul C B in
  {| x3 := fmul (fadd DA CB) (fadd DA CB);
     z3 := fmul x1 (fmul (fsub DA CB) (fsub DA CB));
     x2 := fmul AA BB;
     z2 := fmul E (fadd AA (fmul a24 E));
     swap := kt |}.

Definition scalarmult (k u : bytes) : bytes :=
  let x1 := BigZ.of_Z (decodeUCoordinate u) in
  let n := decodeScalar k in
  let st := fold_left (ladder_step x1 n) (rev (seq 0 255))
              {| x2 := 1%bigZ; z2 := 0%bigZ; x3 := x1; z3 := 1%bigZ; swap := false |} in
  let '(a2, _) := cswap (swap st) (x2 st) (x3 st) in
  let '(c2, _) := cswap (swap st) (z2 st) (z3 st) in
  le_encode 32 (BigZ.to_Z (fmul a2 (inv c2))).

Definition base_point : bytes := 9 :: repeat 0 31.

Definition scalarmult_base (k : bytes) : bytes := scalarmult k base_point.

End X25519.

(** ** XSalsa20-Poly1305, the authenticated cipher the module imports as
    [secretbox] and [secretbox_open] *)
Module XSalsa20Poly1305.
Local Open Scope Z_scope.

Definition w32 (x : Z) : Z := Z.land x 0xFFFFFFFF.
Definition rotl (n x : Z) : Z := Z.lor (w32 (Z.shiftl x n)) (Z.shiftr x (32 - n)).

Definition quarterround (y0 y1 y2 y3 : Z) : Z * Z * Z * Z :=
  let z1 := Z.lxor y1 (rotl 7 (w32 (y0 + y3))) in
  let z2 := Z.lxor y2 (rotl 9 (w32 (z1 + y0))) in
  let z3 := Z.lxor y3 (rotl 13 (w32 (z2 + z1))) in
  let z0 := Z.lxor y0 (rotl 18 (w32 (z3 + z2))) in
  (z0, z1, z2, z3).

Definition doubleround (x : list Z) : list Z :=
  match x with
  | [x0; x1; x2; x3; x4; x5; x6; x7; x8; x9; x10; x11; x12; x13; x14; x15] =>
      let '(y0, y4, y8, y12) := quarterround x0 x4 x8 x12 in
      let '(y5, y9, y13, y1) := quarterround x5 x9 x13 x1 in
      let '(y10, y14, y2, y6) := quarterround x10 x14 x2 x6 in
      let '(y15, y3, y7, y11) := quarterround x15 x3 x7 x11 in
      let '(z0, z1, z2, z3) := quarterround y0 y1 y2 y3 in
      let '(z5, z6, z7, z4) := quarterround y5 y6 y7 y4 in
      let '(z10, z11, z8, z9) := quarterround y10 y11 y8 y9 in
      let '(z15, z12, z13, z14) := quarterround y15 y12 y13 y14 in
      [z0; z1; z2; z3; z4; z5; z6; z7; z8; z9; z10; z11; z12; z13; z14; z15]
  | _ => x
  end.

Fixpoint iterate {A} (n : nat) (f : A -> A) (x : A) : A :=
  match n with
  | O => x
  | S n' => iterate n' f (f x)
  end.

Fixpoint le_words (fuel : nat) (b : bytes) : list Z :=
  match fuel, b with
  | S fuel', b0 :: b1 :: b2 :: b3 :: rest =>
      (b0 + Z.shiftl b1 8 + Z.shiftl b2 16 + Z.shiftl b3 24) :: le_words fuel' rest
  | _, _ => []
  end.

Definition le_bytes4 (w : Z) : bytes :=
  [Z.land w 255; Z.land (Z.shiftr w 8) 255; Z.land (Z.shiftr w 16) 255;
   Z.land (Z.shiftr w 24) 255].

Definition sigma : list Z := [0x61707865; 0x3320646e; 0x79622d32; 0x6b206574].

(** The sixteen input words: constants on the diagonal, the key around the
    eight middle words [mid]. *)
Definition layout (key : bytes) (mid : list Z) : list Z :=
  let k := le_words 8 key in
  [nth 0 sigma 0] ++ firstn 4 k ++ [nth 1 sigma 0] ++ firstn 4 mid
  ++ skipn 4 mid ++ [nth 2 sigma 0] ++ skipn 4 k ++ [nth 3 sigma 0].

Definition hsalsa20 (key nonce16 : bytes) : bytes :=
  let z := iterate 10 doubleround (layout key (le_words 4 nonce16)) in
  concat (map (fun i => le_bytes4 (nth i z 0)) [0; 5; 10; 15; 6; 7; 8; 9]%nat).

Definition salsa20_block (key nonce8 : bytes) (counter : Z) : bytes :=
  let x := layout key (le_words 2 nonce8
                         ++ [w32 counter; w32 (Z.shiftr counter 32)]) in
  let z := iterate 10 doubleround x in
  concat (map (fun q => le_bytes4 (w32 (fst q + snd q))) (combine x z)).

Definition stream (len : nat) (nonce24 key : bytes) : bytes :=
  let subkey := hsalsa20 key (firstn 16 nonce24) in
  let n8 := skipn 16 nonce24 in
  firstn len
    (concat (map (fun i => salsa20_block subkey n8 (Z.of_nat i))
               (seq 0 (S (len / 64))))).

Definition xor_bytes (a b : bytes) : bytes :=
  map (fun q => Z.lxor (fst q) (snd q)) (combine a b).

Definition poly_p : Z := Eval cbv in 2 ^ 130 - 5.
Definition clamp_mask : Z := 0x0ffffffc0ffffffc0ffffffc0fffffff.

Fixpoint poly_blocks (fuel : nat) (r acc : Z) (m : bytes) : Z :=
  match fuel, m with
  | S fuel', _ :: _ =>
      let n := X25519.le_decode (firstn 16 m ++ [1]) in
      poly_blocks fuel' r (((acc + n) * r) mod poly_p) (skipn 16 m)
  | _, _ => acc
  end.

Definition poly1305 (m key : bytes) : bytes :=
  let r := Z.land (X25519.le_decode (firstn 16 key)) clamp_mask in
  let s := X25519.le_decode (skipn 16 key) in
  X25519.le_encode 16 (poly_blocks (length m) r 0 m + s).

Definition seal (m nonce key : bytes) : bytes :=
  let s := stream (32 + length m) nonce key in
  let c := xor_bytes m (skipn 32 s) in
  poly1305 c (firstn 32 s) ++ c.

Definition bytes_eqb (a b : bytes) : bool :=
  (length a =? length b)%nat && forallb (fun q => fst q =? snd q) (combine a b).

Definition open (box nonce key : bytes) : option bytes :=
  if (length box <? 16)%nat then None
  else
    let tag := firstn 16 box in
    let c := skipn 16 box in
    let s := stream (32 + length c) nonce key in
    if bytes_eqb tag (poly1305 c (firstn 32 s))
    then Some (xor_bytes c (skipn 32 s))
    else None.

End XSalsa20Poly1305.

(** ** AES-256 (FIPS 197) in Galois/Counter Mode (NIST SP 800-38D), the
    cipher behind [crypto.subtle.encrypt] and [crypto.subtle.decrypt] with
    [{ name: 'AES-GCM' }] *)
Module AESGCM.
Local Open Scope Z_scope.

(** The field of 256 elements. *)
Definition xtime (a : Z) : Z :=
  let b := Z.shiftl a 1 in
  if Z.testbit a 7 then Z.lxor b 0x11b else b.

Fixpoint gmul_bits (n : nat) (a b : Z) : Z :=
  match n with
  | O => 0
  | S n' => Z.lxor (if Z.odd b then a else 0) (gmul_bits n' (xtime a) (Z.shiftr b 1))
  end.

Definition gmul (a b : Z) : Z := gmul_bits 8 a b.

Definition gsquare (a : Z) : Z := gmul a a.

(** [a^254], the inverse of a non-zero [a]. *)
Definition ginv (a : Z) : Z :=
  let a2 := gsquare a in
  let a4 := gsquare a2 in
  let a8 := gsquare a4 in
  let a16 := gsquare a8 in
  let a32 := gsquare a16 in
  let a64 := gsquare a32 in
  let a128 := gsquare a64 in
  gmul a128 (gmul a64 (gmul a32 (gmul a16 (gmul a8 (gmul a4 a2))))).

Definition rotl8 (n x : Z) : Z :=
  Z.land (Z.lor (Z.shiftl x n) (Z.shiftr x (8 - n))) 255.

Definition affine (b : Z) : Z :=
  Z.lxor (Z.lxor (Z.lxor b (rotl8 1 b)) (Z.lxor (rotl8 2 b) (rotl8 3 b)))
    (Z.lxor (rotl8 4 b) 0x63).

Definition substitution : list Z :=
  Eval vm_compute in map (fun i => affine (ginv (Z.of_nat i))) (seq 0 256).

Definition sub_byte (a : Z) : Z := nth (Z.to_nat a) substitution 0.

(** The key schedule for a key of [nk] words (four, six or eight):
    [nk + 7] round keys. *)
Definition schedule_step (nk : nat) (w : bytes) (i : nat) : bytes :=
  let word := fun j => firstn 4 (skipn (4 * j) w) in
  let temp := word (i - 1)%nat in
  let temp :=
    if (i mod nk =? 0)%nat then
      match map sub_byte temp with
      | [t0; t1; t2; t3] =>
          [Z.lxor t1 (Nat.iter (i / nk - 1) xtime 1); t2; t3; t0]
      | other => other
      end
    else if (6 <? nk)%nat && (i mod nk =? 4)%nat then map sub_byte temp
    else temp in
  w ++ map (fun q => Z.lxor (fst q) (snd q)) (combine (word (i - nk)%nat) temp).

Definition key_schedule (key : bytes) : bytes :=
  let nk := (length key / 4)%nat in
  fold_left (schedule_step nk) (seq nk (3 * nk + 28)) key.

(** The number of rounds an expanded key is for. *)
Definition rounds (w : bytes) : nat := (length w / 16 - 1)%nat.

Definition at_ (s : bytes) (i : nat) : Z := nth i s 0.

Definition add_round_key (w : bytes) (round : nat) (s : bytes) : bytes :=
  map (fun i => Z.lxor (at_ s i) (at_ w (16 * round + i))) (seq 0 16).

Definition sub_bytes (s : bytes) : bytes := map (fun i => sub_byte (at_ s i)) (seq 0 16).

Definition shift_rows (s : bytes) : bytes :=
  map (fun i => at_ s (i mod 4 + 4 * ((i / 4 + i mod 4) mod 4))) (seq 0 16).

Definition mix_columns (s : bytes) : bytes :=
  map (fun i =>
         let c := (4 * (i / 4))%nat in
         let r := (i mod 4)%nat in
         Z.lxor (Z.lxor (gmul 2 (at_ s (c + r))) (gmul 3 (at_ s (c + (r + 1) mod 4))))
           (Z.lxor (at_ s (c + (r + 2) mod 4)) (at_ s (c + (r + 3) mod 4))))
      (seq 0 16).

Definition full_round (w : bytes) (s : bytes) (round : nat) : bytes :=
  add_round_key w round (mix_columns (shift_rows (sub_bytes s))).

(** The cipher on one block of sixteen bytes, under an expanded key. *)
Definition encrypt_block (w : bytes) (block : bytes) : bytes :=
  let s := add_round_key w 0 block in
  let s := fold_left (full_round w) (seq 1 (rounds w - 1)) s in
  map (fun x => Z.land x 255) (add_round_key w (rounds w) (shift_rows (sub_bytes s))).

(** Blocks as 128-bit integers, most significant byte first. *)
Fixpoint be_decode (acc : Z) (b : bytes) : Z :=
  match b with
  | [] => acc
  | x :: rest => be_decode (256 * acc + x) rest
  end.

Definition be_encode (n : nat) (x : Z) : bytes :=
  map (fun i => Z.land (Z.shiftr x (8 * Z.of_nat (n - 1 - i))) 255) (seq 0 n).

(** The product of the hash: the field of [2^128] elements in the bit
    order of the mode. *)
Definition reduction : Z := Z.shiftl 0xe1 120.

Definition gf_step (x : Z) (zv : Z * Z) (i : nat) : Z * Z :=
  let '(z, v) := zv in
  let z' := if Z.testbit x (Z.of_nat (127 - i)) then Z.lxor z v else z in
  let v' := if Z.odd v then Z.lxor (Z.shiftr v 1) reduction else Z.shiftr v 1 in
  (z', v').

Definition gf_mul (x y : Z) : Z := fst (fold_left (gf_step x) (seq 0 128) (0, y)).

Fixpoint chunks (fuel : nat) (b : bytes) : list bytes :=
  match fuel, b with
  | S fuel', _ :: _ => firstn 16 b :: chunks fuel' (skipn 16 b)
  | _, _ => []
  end.

Definition pad16 (b : bytes) : bytes := b ++ repeat 0 (16 - length b).

(** The hash of whole blocks under the hash key [h]. *)
Definition ghash_blocks (h : Z) (y : Z) (b : bytes) : Z :=
  fold_left (fun y block => gf_mul (Z.lxor y (be_decode 0 (pad16 block))) h)
    (chunks (length b) b) y.

(** The hash of the additional data and the ciphertext, with the block of
    their lengths. *)
Definition ghash (h : Z) (a c : bytes) : Z :=
  let y := ghash_blocks h (ghash_blocks h 0 a) c in
  let lengths := Z.shiftl (8 * Z.of_nat (length a)) 64 + 8 * Z.of_nat (length c) in
  gf_mul (Z.lxor y lengths) h.

(** The first counter block for an initialisation vector. *)
Definition counter0 (h : Z) (iv : bytes) : bytes :=
  if (length iv =? 12)%nat then iv ++ [0; 0; 0; 1]
  else
    let y := ghash_blocks h 0 iv in
    be_encode 16 (gf_mul (Z.lxor y (8 * Z.of_nat (length iv))) h).

(** The counter block [i] places after [j0]: its last four bytes count
    modulo [2^32]. *)
Definition counter (j0 : bytes) (i : Z) : bytes :=
  firstn 12 j0
  ++ be_encode 4 ((be_decode 0 (skipn 12 j0) + i) mod 2 ^ 32).

Definition xor_with (stream data : bytes) : bytes :=
  map (fun q => Z.lxor (fst q) (snd q)) (combine data stream).

Definition keystream (w : bytes) (j0 : bytes) (len : nat) : bytes :=
  concat (map (fun i => encrypt_block w (counter j0 (Z.of_nat (S i))))
            (seq 0 (S (len / 16)))).

Definition tag (w : bytes) (h : Z) (j0 : bytes) (a c : bytes) : bytes :=
  map (fun q => Z.lxor (fst q) (snd q))
    (combine (be_encode 16 (ghash h a c)) (encrypt_block w j0)).

(** Authenticated encryption: the ciphertext followed by the tag of
    sixteen bytes. *)
Definition seal (key iv a plaintext : bytes) : bytes :=
  let w := key_schedule key in
  let h := be_decode 0 (encrypt_block w (repeat 0 16)) in
  let j0 := counter0 h iv in
  let c := xor_with (keystream w j0 (length plaintext)) plaintext in
  c ++ tag w h j0 a c.

Definition same_bytes (a b : bytes) : bool :=
  (length a =? length b)%nat && forallb (fun q => fst q =? snd q) (combine a b).

(** Authenticated decryption; [None] when the tag does not match. *)
Definition open (key iv a sealed : bytes) : option bytes :=
  if (length sealed <? 16)%nat then None
  else
    let w := key_schedule key in
    let h := be_decode 0 (encrypt_block w (repeat 0 16)) in
    let j0 := counter0 h iv in
    let n := (length sealed - 16)%nat in
    let c := firstn n sealed in
    let t := skipn n sealed in
    if same_bytes t (tag w h j0 a c)
    then Some (xor_with (keystream w j0 (length c)) c)
    else None.

End AESGCM.

(** ** The imports from [tweetnacl] and [tweetnacl-util]

    [crypto.js] imports [box], [box_keypair], [secretbox], [secretbox_open]
    and [sign_open] by name from [tweetnacl], and [encode] and [decode]
    from [tweetnacl-util] under the names [encodeBase64] and
    [decodeBase64].  The libraries are outside the repository: the
    embedding takes what each imported name is bound to as an interface,
    with the argument shapes of the call sites.  A name its library does
    not export is bound to [undefined], here [None], and calling it
    throws a [TypeError].

    [installed] is the two libraries as they are published; [reference_nacl]
    binds every name to the function its call sites are written for, with
    the algorithms above. *)
Class NaCl : Type := {
  (** [box_keypair()]: the public key of the 32-byte secret key drawn *)
  import_box_keypair : option (bytes -> bytes);
  (** [box(theirKey, ourKey)] *)
  import_box : option (bytes -> bytes -> result bytes);
  (** [secretbox(message, nonce, key)] *)
  import_secretbox : option (bytes -> bytes -> bytes -> result bytes);
  (** [secretbox_open(box, nonce, key)]; [None] is the [null] of a failed
      authentication *)
  import_secretbox_open : option (bytes -> bytes -> bytes -> result (option bytes));
  (** [sign_open(signedMessage, publicKey)] *)
  import_sign_open : option (bytes -> bytes -> result (option bytes));
  (** [encodeBase64(bytes)] and [decodeBase64(text)] *)
  import_encodeBase64 : option (bytes -> string);
  import_decodeBase64 : option (string -> result bytes)
}.

(** A call of an imported name. *)
Definition imported {A} (name : string) (binding : option A) : result A :=
  match binding with
  | Some f => Ok f
  | None => Throw (TypeError (name +:+ " is not a function"))
  end.

Definition check_lengths (key nonce : bytes) : result unit :=
  if negb (length key =? 32)%nat then Throw (Error "bad key size")
  else if negb (length nonce =? 24)%nat then Throw (Error "bad nonce size")
  else Ok tt.

Definition reference_box (theirKey ourKey : bytes) : result bytes :=
  if negb (length theirKey =? 32)%nat then Throw (Error "bad public key size")
  else if negb (length ourKey =? 32)%nat then Throw (Error "bad secret key size")
  else Ok (X25519.scalarmult ourKey theirKey).

Definition reference_secretbox (m n k : bytes) : result bytes :=
  rbind (check_lengths k n) (fun _ => Ok (XSalsa20Poly1305.seal m n k)).

Definition reference_nacl : NaCl := {|
  import_box_keypair := Some X25519.scalarmult_base;
  import_box := Some reference_box;
  import_secretbox := Some reference_secretbox;
  import_secretbox_open := Some (fun c n k =>
    rbind (check_lengths k n) (fun _ => Ok (XSalsa20Poly1305.open c n k)));
  (* signatures are not evaluated by any property below *)
  import_sign_open := Some (fun _ _ => Ok None);
  import_encodeBase64 := Some Base64.encodeBase64;
  import_decodeBase64 := Some Base64.decodeBase64
|}.

(** The libraries as published.  [tweetnacl] exports [box] and
    [secretbox], with [box.keyPair], [secretbox.open] and [sign.open] as
    properties of its functions: it exports no [box_keypair],
    [secretbox_open] or [sign_open].  Its [box] takes a message, a nonce
    and the two keys, and refuses the two arguments of the call site at
    the keys it is not given.  [tweetnacl-util] exports [encodeBase64]
    and [decodeBase64]: it exports no [encode] or [decode]. *)
#[export] Instance installed : NaCl := {|
  import_box_keypair := None;
  import_box := Some (fun _ _ => Throw (TypeError "unexpected type, use Uint8Array"));
  import_secretbox := Some reference_secretbox;
  import_secretbox_open := None;
  import_sign_open := None;
  import_encodeBase64 := None;
  import_decodeBase64 := None
|}.

(** [AmiXCrypto.hexToBytes] for well-formed lowercase hexadecimal text,
    used to write test vectors. *)
Definition hex_value (c : ascii) : Z :=
  let n := Z.of_N (N_of_ascii c) in
  (if (48 <=? n) && (n <=? 57) then n - 48
   else if (97 <=? n) && (n <=? 102) then n - 87
   else if (65 <=? n) && (n <=? 70) then n - 55 else 0)%Z.

Fixpoint hex_list (cs : list ascii) : bytes :=
  match cs with
  | a :: b :: rest => (16 * hex_value a + hex_value b)%Z :: hex_list rest
  | _ => []
  end.

Definition hexToBytes (s : string) : bytes := hex_list (list_ascii_of_string s).

(** ** The host: clock, randomness, timers and console *)
Module Host.
Local Open Scope Z_scope.

(** The callbacks the sources hand to [setTimeout]. *)
Inductive Task : Type :=
| CheckAndRotateKeys
| RotateGroupKeys (groupId : string).

Record Timer := { timer_id : nat; timer_delay : Z; timer_task : Task }.

(** What the host will answer: the successive readings of [Date.now()],
    the bytes [crypto.getRandomValues] delivers, the numerators (out of
    [2^53]) of the values [Math.random()] returns; and what the program
    left there: the timers armed and the lines written to the console. *)
Record World := {
  clock : nat -> Z;
  clock_reads : nat;
  entropy : nat -> Z;
  entropy_used : nat;
  uniform : nat -> Z;
  uniform_used : nat;
  timers : list Timer;
  timers_created : nat;
  console : list string
}.

Definition set_clock_reads (n : nat) (w : World) : World :=
  {| clock := clock w; clock_reads := n;
     entropy := entropy w; entropy_used := entropy_used w;
     uniform := uniform w; uniform_used := uniform_used w;
     timers := timers w; timers_created := timers_created w;
     console := console w |}.

Definition set_entropy_used (n : nat) (w : World) : World :=
  {| clock := clock w; clock_reads := clock_reads w;
     entropy := entropy w; entropy_used := n;
     uniform := uniform w; uniform_used := uniform_used w;
     timers := timers w; timers_created := timers_created w;
     console := console w |}.

Definition set_uniform_used (n : nat) (w : World) : World :=
  {| clock := clock w; clock_reads := clock_reads w;
     entropy := entropy w; entropy_used := entropy_used w;
     uniform := uniform w; uniform_used := n;
     timers := timers w; timers_created := timers_created w;
     console := console w |}.

Definition set_timers (ts : list Timer) (created : nat) (w : World) : World :=
  {| clock := clock w; clock_reads := clock_reads w;
     entropy := entropy w; entropy_used := entropy_used w;
     uniform := uniform w; uniform_used := uniform_used w;
     timers := ts; timers_created := created;
     console := console w |}.

Definition set_console (lines : list string) (w : World) : World :=
  {| clock := clock w; clock_reads := clock_reads w;
     entropy := entropy w; entropy_used := entropy_used w;
     uniform := uniform w; uniform_used := uniform_used w;
     timers := timers w; timers_created := timers_created w;
     console := lines |}.

(** A computation reads and updates a state and returns or throws. *)
Definition SM (S A : Type) : Type := S -> result A * S.

Definition ret {S A} (a : A) : SM S A := fun s => (Ok a, s).
Definition throw {S A} (e : js_error) : SM S A := fun s => (Throw e, s).
Definition lift {S A} (r : result A) : SM S A := fun s => (r, s).

Definition bind {S A B} (m : SM S A) (k : A -> SM S B) : SM S B :=
  fun s =>
    match m s with
    | (Ok a, s') => k a s'
    | (Throw e, s') => (Throw e, s')
    end.

(** [try { body } catch (error) { handler(error) }] *)
Definition try_catch {S A} (body : SM S A) (handler : js_error -> SM S A) : SM S A :=
  fun s =>
    match body s with
    | (Ok a, s') => (Ok a, s')
    | (Throw e, s') => handler e s'
    end.

(** Computations on the host alone. *)
Definition M (A : Type) : Type := SM World A.

Definition Date_now : M Z :=
  fun w => (Ok (clock w (clock_reads w)), set_clock_reads (S (clock_reads w)) w).

(** [crypto.getRandomValues(new Uint8Array(n))] *)
Definition getRandomValues (n : nat) : M bytes :=
  fun w => (Ok (map (entropy w) (seq (entropy_used w) n)),
            set_entropy_used (entropy_used w + n)%nat w).

(** [Math.floor(Math.random() * k)], exact up to the rounding of the
    product. *)
Definition Math_random_floor (k : Z) : M Z :=
  fun w => (Ok ((uniform w (uniform_used w) * k) / 2 ^ 53),
            set_uniform_used (S (uniform_used w)) w).

(** [setTimeout(task, delay)] returns the handle of the new timer. *)
Definition setTimeout (task : Task) (delay : Z) : M nat :=
  fun w =>
    (Ok (timers_created w),
     set_timers (timers w ++ [{| timer_id := timers_created w;
                                 timer_delay := delay; timer_task := task |}])
       (S (timers_created w)) w).

(** [clearTimeout(handle)] *)
Definition clearTimeout (handle : nat) : M unit :=
  fun w =>
    (Ok tt,
     set_timers (List.filter (fun t => negb (timer_id t =? handle)%nat) (timers w))
       (timers_created w) w).

(** [console.log], [console.warn] and [console.error] *)
Definition console_write (line : string) : M unit :=
  fun w => (Ok tt, set_console (console w ++ [line]) w).

(** [typedArray.slice(start, stop)] *)
Definition slice (l : bytes) (start stop : Z) : bytes :=
  let len := Z.of_nat (length l) in
  let k := if start <? 0 then Z.max (len + start) 0 else Z.min start len in
  let final := if stop <? 0 then Z.max (len + stop) 0 else Z.min stop len in
  firstn (Z.to_nat (final - k)) (skipn (Z.to_nat k) l).

End Host.
Export Host.

Declare Scope js_scope.
Delimit Scope js_scope with js.
Notation "x <- m ;; k" := (bind m (fun x => k))
  (at level 100, m at next level, right associativity) : js_scope.
Notation "m ;;; k" := (bind m (fun _ => k))
  (at level 100, right associativity) : js_scope.

(** ** [utils/crypto.js]: class [AmiXCrypto] *)
Module AmiXCrypto.
Local Open Scope Z_scope.
Local Open Scope js_scope.

Definition HASH_LENGTH : Z := 32.
Definition MAX_KEY_LENGTH : Z := 255 * HASH_LENGTH.

Module PADDING.
Definition MIN_PADDING : Z := 0.
Definition MAX_PADDING : Z := 255.
Definition BLOCK_SIZE : Z := 1024.
Definition MAX_MESSAGE_SIZE : Z := 10 * 1024 * 1024.
End PADDING.

Module IdentityKey.
Record t := {
  keyId : string;
  privateKey : string;
  publicKey : string;
  createdAt : Z;
  expiresAt : Z;
  isCompromised : bool
}.
End IdentityKey.

Module IdentityKeys.
(** [previous] is optional in a stored key set: the source reads it as
    [previousKeys.previous || []]. *)
Record t := {
  current : IdentityKey.t;
  previous : option (list IdentityKey.t);
  lastRotated : Z;
  rotationInterval : Z;
  nextRotation : Z
}.
End IdentityKeys.

Module RatchetState.
Record t := {
  rootKey : string;
  chainKey : string;
  ourPrivateKey : string;
  theirPublicKey : string;
  messageCount : Z;
  timestamp : Z
}.
End RatchetState.

Module Envelope.
(** [version] is [None] when the field is absent; [messageCount] is
    [None] when the field is absent or not a number. *)
Record t := {
  ciphertext : string;
  nonce : string;
  aad : string;
  messageCount : option Z;
  timestamp : Z;
  version : option string
}.
End Envelope.

Module KeyExchange.
Record t := { sharedSecret : string; timestamp : Z }.
End KeyExchange.

(** A message, and key material, is a string or a [Uint8Array]. *)
Inductive Message : Type :=
| Text (s : string)
| Binary (b : bytes).

(** [typeof m === 'string' ? new TextEncoder().encode(m) : m], and
    [data instanceof Uint8Array ? data : new TextEncoder().encode(String(data))] *)
Definition to_bytes (m : Message) : bytes :=
  match m with
  | Text s => utf8_encode s
  | Binary b => b
  end.

(** [m.length] *)
Definition length_of (m : Message) : Z :=
  match m with
  | Text s => Z.of_nat (String.length s)
  | Binary b => Z.of_nat (length b)
  end.

Record Options := { opt_aad : option bytes }.

Definition no_options : Options := {| opt_aad := None |}.

(** [generateRandomBytes(length)], on a host with the Web Crypto API. *)
Definition generateRandomBytes (length : Z) : M bytes :=
  getRandomValues (Z.to_nat length).

(** [hash(data)] *)
Definition hash (data : Message) : bytes := SHA256.digest (to_bytes data).

(** [hmac(key, data)]: [crypto.subtle.importKey] refuses a key of no
    bytes with a [DataError]. *)
Definition hmac (key data : bytes) : result bytes :=
  if (length key =? 0)%nat then Throw (Error "DataError")
  else Ok (HMAC.hmac_sha256 key data).

(** The expansion loop of [hkdf]: block [i] is
    [hmac(prk, previous ++ info ++ [i + 1])]. *)
Fixpoint hkdf_expand (prk info : bytes) (blocks : nat) (i : Z) (previous : bytes)
  : result bytes :=
  match blocks with
  | O => Ok []
  | S blocks' =>
      let t := previous ++ info ++ [Z.land (i + 1) 255] in
      rbind (hmac prk t) (fun previous' =>
        rmap (app previous') (hkdf_expand prk info blocks' (i + 1) previous'))
  end.

(** [hkdf(inputKey, salt, info, length)] *)
Definition hkdf (inputKey salt info : bytes) (length : Z) : result bytes :=
  if MAX_KEY_LENGTH <? length
  then Throw (Error ("Requested key length (" +:+ pretty length +:+ ") is too large"))
  else
    rbind (hmac salt inputKey) (fun prk =>
      let blocks := (length + HASH_LENGTH - 1) / HASH_LENGTH in
      if blocks <? 0 then Throw (Error "Invalid typed array length")
      else
        rbind (hkdf_expand prk info (Z.to_nat blocks) 0 [])
          (fun okm => Ok (slice okm 0 length))).

(** [deriveKey(inputKey, info, length = 32)]: the salt is drawn afresh on
    every call. *)
Definition deriveKey (inputKey : Message) (info : string) (length : Z) : M bytes :=
  salt <- generateRandomBytes HASH_LENGTH ;;
  let infoBuffer := utf8_encode info in
  let inputKeyBuffer := to_bytes inputKey in
  lift (hkdf inputKeyBuffer salt infoBuffer length).

Section Imports.
Context {nacl : NaCl}.

(** The calls of the imported names. *)
Definition encodeBase64 (b : bytes) : result string :=
  rmap (fun encode => encode b) (imported "encodeBase64" import_encodeBase64).

Definition decodeBase64 (text : string) : result bytes :=
  rbind (imported "decodeBase64" import_decodeBase64) (fun decode => decode text).

Definition box (theirKey ourKey : bytes) : result bytes :=
  rbind (imported "box" import_box) (fun f => f theirKey ourKey).

Definition secretbox (message nonce key : bytes) : result bytes :=
  rbind (imported "secretbox" import_secretbox) (fun f => f message nonce key).

Definition secretbox_open (ciphertext nonce key : bytes) : result (option bytes) :=
  rbind (imported "secretbox_open" import_secretbox_open)
    (fun f => f ciphertext nonce key).

Definition sign_open (signedMessage publicKey : bytes) : result (option bytes) :=
  rbind (imported "sign_open" import_sign_open) (fun f => f signedMessage publicKey).

(** [box_keypair()]: [(publicKey, secretKey)] of a secret key drawn from
    the host. *)
Definition box_keypair : M (bytes * bytes) :=
  public_of <- lift (imported "box_keypair" import_box_keypair) ;;
  secretKey <- getRandomValues 32 ;;
  ret (public_of secretKey, secretKey).

(** [v.toString(16)] for [0 <= v < 256] *)
Definition toString16 (v : Z) : string :=
  if v <? 16 then String (hex_digit v) EmptyString else hex_byte v.

(** [generateSecureUUID()]: every [x] and [y] of the pattern is replaced
    from a randomly chosen byte of sixteen. *)
Fixpoint uuid_replace (pattern : list ascii) (randomBytes : bytes) : M string :=
  match pattern with
  | [] => ret EmptyString
  | c :: rest =>
      if Ascii.eqb c "x" || Ascii.eqb c "y" then
        i <- Math_random_floor 16 ;;
        let r := nth (Z.to_nat i) randomBytes 0 in
        let v := if Ascii.eqb c "x" then r else Z.lor (Z.land r 3) 8 in
        tail <- uuid_replace rest randomBytes ;;
        ret (toString16 v +:+ tail)
      else
        tail <- uuid_replace rest randomBytes ;;
        ret (String c tail)
  end.

Definition generateSecureUUID : M string :=
  randomBytes <- generateRandomBytes 16 ;;
  uuid_replace (list_ascii_of_string "xxxxxxxx-xxxx-4xxx-yxxx-xxxxxxxxxxxx") randomBytes.

Definition day : Z := 24 * 60 * 60 * 1000.

(** The history a new key set starts from:
    [previousKeys ? [previousKeys.current, ...(previousKeys.previous || [])] : []]. *)
Definition carried_over (previousKeys : option IdentityKeys.t) : list IdentityKey.t :=
  match previousKeys with
  | Some pk => IdentityKeys.current pk :: default [] (IdentityKeys.previous pk)
  | None => []
  end.

(** [generateIdentityKeys(previousKeys = null)] *)
Definition generateIdentityKeys (previousKeys : option IdentityKeys.t)
  : M IdentityKeys.t :=
  keypair <- box_keypair ;;
  now <- Date_now ;;
  keyId <- generateSecureUUID ;;
  (match previousKeys with
   | None => _ <- setTimeout CheckAndRotateKeys day ;; ret tt
   | Some _ => ret tt
   end) ;;;
  privateKey <- lift (encodeBase64 (snd keypair)) ;;
  publicKey <- lift (encodeBase64 (fst keypair)) ;;
  let previous := carried_over previousKeys in
  let previous :=
    if (3 <? length previous)%nat then firstn 3 previous else previous in
  ret {| IdentityKeys.current :=
           {| IdentityKey.keyId := keyId;
              IdentityKey.privateKey := privateKey;
              IdentityKey.publicKey := publicKey;
              IdentityKey.createdAt := now;
              IdentityKey.expiresAt := now + 365 * day;
              IdentityKey.isCompromised := false |};
         IdentityKeys.previous := Some previous;
         IdentityKeys.lastRotated := now;
         IdentityKeys.rotationInterval := 30 * day;
         IdentityKeys.nextRotation := now + 30 * day |}.

(** [performKeyExchange(theirPublicKey, ourPrivateKey)] *)
Definition performKeyExchange (theirPublicKey ourPrivateKey : string)
  : M KeyExchange.t :=
  try_catch
    (theirKey <- lift (decodeBase64 theirPublicKey) ;;
     ourKey <- lift (decodeBase64 ourPrivateKey) ;;
     sharedSecret <- lift (box theirKey ourKey) ;;
     derivedKey <- deriveKey (Binary sharedSecret) "amix-x3dh" 32 ;;
     encoded <- lift (encodeBase64 derivedKey) ;;
     now <- Date_now ;;
     ret {| KeyExchange.sharedSecret := encoded;
            KeyExchange.timestamp := now |})
    (fun error => throw (Error ("Key exchange failed: " +:+ error_message error))).

(** [createRatchetState(sharedSecret, ourPrivateKey, theirPublicKey)] *)
Definition createRatchetState (sharedSecret ourPrivateKey theirPublicKey : string)
  : M RatchetState.t :=
  secret <- lift (decodeBase64 sharedSecret) ;;
  rootKey <- deriveKey (Binary secret) "amix-root" 32 ;;
  chainKey <- deriveKey (Binary rootKey) "amix-chain" 32 ;;
  encodedRootKey <- lift (encodeBase64 rootKey) ;;
  encodedChainKey <- lift (encodeBase64 chainKey) ;;
  now <- Date_now ;;
  ret {| RatchetState.rootKey := encodedRootKey;
         RatchetState.chainKey := encodedChainKey;
         RatchetState.ourPrivateKey := ourPrivateKey;
         RatchetState.theirPublicKey := theirPublicKey;
         RatchetState.messageCount := 0;
         RatchetState.timestamp := now |}.

(** [generatePadding(messageLength)] *)
Definition generatePadding (messageLength : Z) : M bytes :=
  let maxPadding :=
    Z.min PADDING.MAX_PADDING (PADDING.MAX_MESSAGE_SIZE - messageLength) in
  if maxPadding <=? 0 then ret []
  else
    r <- Math_random_floor (maxPadding - PADDING.MIN_PADDING + 1) ;;
    let paddingSize := PADDING.MIN_PADDING + r in
    let alignedPadding :=
      ((messageLength + paddingSize + PADDING.BLOCK_SIZE - 1) / PADDING.BLOCK_SIZE)
      * PADDING.BLOCK_SIZE - messageLength in
    generateRandomBytes alignedPadding.

(** A free identifier of the module resolves to its binding, or raises a
    [ReferenceError] when nothing binds it. *)
Definition resolve {A} (name : string) (binding : option A) : result A :=
  match binding with
  | Some f => Ok f
  | None => Throw (ReferenceError (name +:+ " is not defined"))
  end.

Section Scope.
(** What the identifier [addPadding] is bound to when [encryptMessage]
    runs. *)
Variable addPadding : option (bytes -> bytes).

(** [encryptMessage(message, ratchetState, options = {})].  The source
    updates [ratchetState] in place; the embedding returns the updated
    state next to the envelope. *)
Definition encryptMessage_in (message : Message) (ratchetState : RatchetState.t)
    (options : Options) : M (Envelope.t * RatchetState.t) :=
  addPadding_fn <- lift (resolve "addPadding" addPadding) ;;
  let messageWithPadding := addPadding_fn (to_bytes message) in
  let messageLength := length_of message in
  (* the outer [paddedMessage], shadowed by the one of the [try] block *)
  let paddedMessage_outer :=
    [Z.land messageLength 255; Z.land (Z.shiftr messageLength 8) 255]
    ++ messageWithPadding in
  try_catch
    (let messageBytes := to_bytes message in
     let n := Z.of_nat (length messageBytes) in
     padding <- generatePadding n ;;
     let paddedMessage :=
       [Z.land (Z.of_nat (length padding)) 255; if 255 <? n then 255 else n]
       ++ messageBytes ++ padding in
     messageKey <- deriveKey (Text (RatchetState.chainKey ratchetState))
                     ("amix-msg-" +:+ pretty (RatchetState.messageCount ratchetState)) 32 ;;
     nextChainKey <- deriveKey (Text (RatchetState.chainKey ratchetState))
                       "amix-next-chain" 32 ;;
     nonce <- generateRandomBytes 24 ;;
     encrypted <- lift (secretbox paddedMessage nonce messageKey) ;;
     let aad := default [] (opt_aad options) in
     let aadHash := hash (Binary aad) in
     encodedChainKey <- lift (encodeBase64 nextChainKey) ;;
     let ratchetState' :=
       {| RatchetState.rootKey := RatchetState.rootKey ratchetState;
          RatchetState.chainKey := encodedChainKey;
          RatchetState.ourPrivateKey := RatchetState.ourPrivateKey ratchetState;
          RatchetState.theirPublicKey := RatchetState.theirPublicKey ratchetState;
          RatchetState.messageCount := RatchetState.messageCount ratchetState + 1;
          RatchetState.timestamp := RatchetState.timestamp ratchetState |} in
     encodedCiphertext <- lift (encodeBase64 encrypted) ;;
     encodedNonce <- lift (encodeBase64 nonce) ;;
     encodedAad <- lift (encodeBase64 aadHash) ;;
     now <- Date_now ;;
     ret ({| Envelope.ciphertext := encodedCiphertext;
             Envelope.nonce := encodedNonce;
             Envelope.aad := encodedAad;
             Envelope.messageCount := Some (RatchetState.messageCount ratchetState');
             Envelope.timestamp := now;
             Envelope.version := Some "xchacha20poly1305-1.0.0-padded"%string |},
          ratchetState'))
    (fun error => throw (Error ("Message encryption failed: " +:+ error_message error))).

End Scope.

(** [crypto.js] imports nothing called [addPadding] and declares no such
    function, constant or method; no host global has the name. *)
Definition module_addPadding : option (bytes -> bytes) := None.

Definition encryptMessage := encryptMessage_in module_addPadding.

(** The envelope with another [version] field. *)
Definition with_version (v : option string) (env : Envelope.t) : Envelope.t :=
  {| Envelope.ciphertext := Envelope.ciphertext env;
     Envelope.nonce := Envelope.nonce env;
     Envelope.aad := Envelope.aad env;
     Envelope.messageCount := Envelope.messageCount env;
     Envelope.timestamp := Envelope.timestamp env;
     Envelope.version := v |}.

(** The text of [${encryptedData.messageCount - 1}] *)
Definition minus_one (count : option Z) : string :=
  match count with
  | Some n => pretty (n - 1)
  | None => "NaN"
  end.

(** The version test at the head of [decryptMessage]:
    [!v || (v !== 'xchacha20poly1305-1.0.0' && !v.includes('padded'))]. *)
Definition unsupported_version (version : option string) : bool :=
  match version with
  | None => true
  | Some v =>
      String.eqb v EmptyString ||
      (negb (String.eqb v "xchacha20poly1305-1.0.0") && negb (includes v "padded"))
  end.

(** [decryptMessage(encryptedData, ratchetState, options = {})] *)
Definition decryptMessage (encryptedData : Envelope.t) (ratchetState : RatchetState.t)
    (options : Options) : M bytes :=
  try_catch
    (if unsupported_version (Envelope.version encryptedData)
     then throw (Error "Unsupported protocol version")
     else
       messageKey <- deriveKey (Text (RatchetState.chainKey ratchetState))
                       ("amix-msg-" +:+ minus_one (Envelope.messageCount encryptedData)) 32 ;;
       nonce <- lift (decodeBase64 (Envelope.nonce encryptedData)) ;;
       ciphertext <- lift (decodeBase64 (Envelope.ciphertext encryptedData)) ;;
       (match opt_aad options with
        | Some aad =>
            let aadHash := hash (Binary aad) in
            encodedAad <- lift (encodeBase64 aadHash) ;;
            if negb (String.eqb encodedAad (Envelope.aad encryptedData))
            then throw (Error "Invalid additional authenticated data")
            else ret tt
        | None => ret tt
        end) ;;;
       opened <- lift (secretbox_open ciphertext nonce messageKey) ;;
       match opened with
       | None => throw (Error "Decryption failed - invalid ciphertext or key")
       | Some decrypted =>
           if includes (default EmptyString (Envelope.version encryptedData)) "padded" then
             match decrypted with
             | paddingLength :: byte1 :: _ =>
                 let messageLength :=
                   if byte1 =? 255
                   then Z.of_nat (length decrypted) - paddingLength - 2
                   else byte1 in
                 ret (slice decrypted 2 (2 + messageLength))
             | _ => ret (slice decrypted 2 0)
             end
           else ret decrypted
       end)
    (fun error => throw (Error ("Message decryption failed: " +:+ error_message error))).

(** [verifyMessageIntegrity(message, signature, publicKey)] *)
Definition verifyMessageIntegrity (message : Message) (signature publicKey : string)
  : M bool :=
  try_catch
    (let messageBytes := to_bytes message in
     signatureBytes <- lift (decodeBase64 signature) ;;
     publicKeyBytes <- lift (decodeBase64 publicKey) ;;
     let signedMessage := signatureBytes ++ messageBytes in
     opened <- lift (sign_open signedMessage publicKeyBytes) ;;
     ret (match opened with Some _ => true | None => false end))
    (fun error =>
       console_write ("Signature verification error: " +:+ error_message error) ;;;
       ret false).

End Imports.

(** [generateSafetyNumber(publicKey1, publicKey2)]; [digestStringAsync]
    returns the SHA-256 digest of the string in lowercase hexadecimal. *)
Definition generateSafetyNumber (publicKey1 publicKey2 : string) : result string :=
  let combined := publicKey1 +:+ publicKey2 in
  let hash := SHA256.hexdigest (utf8_encode combined) in
  match match_groups4 (substring0 12 hash) with
  | Some groups => Ok (toUpperCase (join " " groups))
  | None => Throw (TypeError "Cannot read properties of null (reading 'join')")
  end.

(** *** Identifiers and hexadecimal text *)

(** The elements of a [Uint8Array]. *)
Definition is_byte (x : Z) : Prop := 0 <= x < 256.

(** A host as the platform specifies it: [crypto.getRandomValues] fills an
    array with bytes, [Math.random()] lies in [0, 1). *)
Definition host_in_range (w : World) : Prop :=
  (forall n, is_byte (entropy w n)) /\ (forall n, 0 <= uniform w n < 2 ^ 53).

Definition AMIX_ID_CHARS : string :=
  "123456789ABCDEFGHJKLMNPQRSTUVWXYZabcdefghijkmnopqrstuvwxyz".

(** [result += chars[i]]: the character at [i], or the text of
    [undefined] when there is none. *)
Definition char_at (chars : string) (i : Z) : string :=
  if i <? 0 then "undefined"
  else match String.get (Z.to_nat i) chars with
       | Some c => String c EmptyString
       | None => "undefined"
       end.

(** [generateAmiXID()] *)
Definition generateAmiXID : M string :=
  randomBytes <- generateRandomBytes 8 ;;
  let chars := AMIX_ID_CHARS in
  ret (fold_left
         (fun result b =>
            result +:+ char_at chars (Z.rem b (Z.of_nat (String.length chars))))
         randomBytes EmptyString).

(** The characters of a string. *)
Definition chars_of (s : string) : list ascii := list_ascii_of_string s.

(** White space ahead of a number, and the digits of radix 16, among the
    characters of ASCII. *)
Definition is_space (c : ascii) : bool :=
  let n := N_of_ascii c in
  ((9 <=? n) && (n <=? 13) || (n =? 32))%N.

Definition digit16 (c : ascii) : option Z :=
  let n := Z.of_N (N_of_ascii c) in
  if (48 <=? n) && (n <=? 57) then Some (n - 48)
  else if (97 <=? n) && (n <=? 102) then Some (n - 87)
  else if (65 <=? n) && (n <=? 70) then Some (n - 55)
  else None.

Fixpoint skip_spaces (cs : list ascii) : list ascii :=
  match cs with
  | c :: rest => if is_space c then skip_spaces rest else cs
  | [] => []
  end.

(** The value of the leading digits, and whether there was one. *)
Fixpoint leading_digits (acc : Z) (seen : bool) (cs : list ascii) : option Z :=
  match cs with
  | c :: rest =>
      match digit16 c with
      | Some d => leading_digits (16 * acc + d) true rest
      | None => if seen then Some acc else None
      end
  | [] => if seen then Some acc else None
  end.

(** [parseInt(text, 16)] on ASCII text: white space is skipped, a sign is
    read, a prefix [0x] or [0X] is dropped, and the digits that follow
    give the value; [None] is [NaN]. *)
Definition parseInt16 (cs : list ascii) : option Z :=
  let s := skip_spaces cs in
  let '(sign, s) :=
    match s with
    | "-"%char :: rest => (-1, rest)
    | "+"%char :: rest => (1, rest)
    | _ => (1, s)
    end in
  let s :=
    match s with
    | "0"%char :: x :: rest =>
        if Ascii.eqb x "x" || Ascii.eqb x "X" then rest else s
    | _ => s
    end in
  option_map (Z.mul sign) (leading_digits 0 false s).

(** The element a [Uint8Array] takes for a number: [NaN] gives 0, an
    integer its residue modulo 256. *)
Definition to_uint8 (v : option Z) : Z :=
  match v with
  | Some n => n mod 256
  | None => 0
  end.

(** [hex.substr(c, 2)] for [c = 0, 2, 4, ...] *)
Fixpoint pairs_of (cs : list ascii) : list (list ascii) :=
  match cs with
  | a :: b :: rest => [a; b] :: pairs_of rest
  | [a] => [[a]]
  | [] => []
  end.

(** [hexToBytes(hex)], on ASCII text. *)
Definition hexToBytes (hex : string) : bytes :=
  map (fun piece => to_uint8 (parseInt16 piece)) (pairs_of (chars_of hex)).

(** The number of [x] in a pattern. *)
Definition count_x (pattern : list ascii) : nat :=
  length (List.filter (fun c => Ascii.eqb c "x") pattern).

(** The digits of a safety number. *)
Definition is_upper_hex (c : ascii) : bool :=
  existsb (Ascii.eqb c) (chars_of "0123456789ABCDEF").

(** *** The additional data of an envelope *)

(** The envelope with another [aad] field. *)
Definition with_aad (a : string) (env : Envelope.t) : Envelope.t :=
  {| Envelope.ciphertext := Envelope.ciphertext env;
     Envelope.nonce := Envelope.nonce env;
     Envelope.aad := a;
     Envelope.messageCount := Envelope.messageCount env;
     Envelope.timestamp := Envelope.timestamp env;
     Envelope.version := Envelope.version env |}.

(** *** Rotation of the identity keys *)

(** The two methods of [AmiXStorage] the rotation calls, on a device whose
    state is [S]. *)
Record IdentityStore (S : Type) := {
  getIdentityKeys : SM S (option IdentityKeys.t);
  storeIdentityKeys : IdentityKeys.t -> SM S bool
}.
Arguments getIdentityKeys {S} _.
Arguments storeIdentityKeys {S} _ _.

Definition with_nextRotation (t : Z) (keys : IdentityKeys.t) : IdentityKeys.t :=
  {| IdentityKeys.current := IdentityKeys.current keys;
     IdentityKeys.previous := IdentityKeys.previous keys;
     IdentityKeys.lastRotated := IdentityKeys.lastRotated keys;
     IdentityKeys.rotationInterval := IdentityKeys.rotationInterval keys;
     IdentityKeys.nextRotation := t |}.

Definition compromised (keys : IdentityKeys.t) : IdentityKeys.t :=
  {| IdentityKeys.current :=
       {| IdentityKey.keyId := IdentityKey.keyId (IdentityKeys.current keys);
          IdentityKey.privateKey := IdentityKey.privateKey (IdentityKeys.current keys);
          IdentityKey.publicKey := IdentityKey.publicKey (IdentityKeys.current keys);
          IdentityKey.createdAt := IdentityKey.createdAt (IdentityKeys.current keys);
          IdentityKey.expiresAt := IdentityKey.expiresAt (IdentityKeys.current keys);
          IdentityKey.isCompromised := true |};
     IdentityKeys.previous := IdentityKeys.previous keys;
     IdentityKeys.lastRotated := IdentityKeys.lastRotated keys;
     IdentityKeys.rotationInterval := IdentityKeys.rotationInterval keys;
     IdentityKeys.nextRotation := IdentityKeys.nextRotation keys |}.

Section KeyRotation.
Context {nacl : NaCl} {S : Type}.
(** A computation on the host, run on the device. *)
Variable on_device : forall A : Type, M A -> SM S A.
(** What the identifier [AmiXStorage] is bound to when the methods run. *)
Variable AmiXStorage : option (IdentityStore S).

Definition the_storage : SM S (IdentityStore S) :=
  lift (resolve "AmiXStorage" AmiXStorage).

(** [rotateIdentityKeysIfNeeded()] *)
Definition rotateIdentityKeysIfNeeded_in : SM S IdentityKeys.t :=
  store <- the_storage ;;
  currentKeys <- getIdentityKeys store ;;
  match currentKeys with
  | None => on_device _ (generateIdentityKeys None)
  | Some currentKeys =>
      now <- on_device _ Date_now ;;
      if (IdentityKeys.nextRotation currentKeys <=? now)
         || IdentityKey.isCompromised (IdentityKeys.current currentKeys)
      then
        on_device _ (console_write "Rotating identity keys...") ;;;
        on_device _ (generateIdentityKeys (Some currentKeys))
      else ret currentKeys
  end.

(** [checkAndRotateKeys()], the callback of the timer
    [generateIdentityKeys] arms. *)
Definition checkAndRotateKeys_in : SM S unit :=
  try_catch
    (store <- the_storage ;;
     keys <- getIdentityKeys store ;;
     match keys with
     | None => ret tt
     | Some keys =>
         now <- on_device _ Date_now ;;
         let timeToNextRotation := IdentityKeys.nextRotation keys - now in
         if (timeToNextRotation <=? 0)
            || IdentityKey.isCompromised (IdentityKeys.current keys)
         then
           _ <- rotateIdentityKeysIfNeeded_in ;;
           _ <- on_device _ (setTimeout CheckAndRotateKeys day) ;;
           ret tt
         else
           let nextCheck := Z.min timeToNextRotation day in
           _ <- on_device _ (setTimeout CheckAndRotateKeys nextCheck) ;;
           ret tt
     end)
    (fun error =>
       on_device _ (console_write ("Key rotation check failed: "
                                   +:+ error_message error)) ;;;
       _ <- on_device _ (setTimeout CheckAndRotateKeys (60 * 60 * 1000)) ;;
       ret tt).

(** [forceKeyRotation()]; [None] is the [null] returned when no keys are
    stored. *)
Definition forceKeyRotation_in : SM S (option IdentityKeys.t) :=
  store <- the_storage ;;
  keys <- getIdentityKeys store ;;
  match keys with
  | None => ret None
  | Some keys =>
      now <- on_device _ Date_now ;;
      store' <- the_storage ;;
      _ <- storeIdentityKeys store' (with_nextRotation now keys) ;;
      rotated <- rotateIdentityKeysIfNeeded_in ;;
      ret (Some rotated)
  end.

(** [markKeyAsCompromised()] *)
Definition markKeyAsCompromised_in : SM S (option IdentityKeys.t) :=
  store <- the_storage ;;
  currentKeys <- getIdentityKeys store ;;
  match currentKeys with
  | None => ret None
  | Some currentKeys =>
      store' <- the_storage ;;
      _ <- storeIdentityKeys store' (compromised currentKeys) ;;
      rotated <- rotateIdentityKeysIfNeeded_in ;;
      ret (Some rotated)
  end.

End KeyRotation.

(** [crypto.js] imports [expo-secure-store], [expo-crypto], [tweetnacl]
    and [tweetnacl-util], and declares one class: nothing in its scope is
    called [AmiXStorage].  The methods then run on the host alone. *)
Definition module_AmiXStorage : option (IdentityStore World) := None.

Definition on_the_host (A : Type) (m : M A) : M A := m.

Definition rotateIdentityKeysIfNeeded {nacl : NaCl} : M IdentityKeys.t :=
  rotateIdentityKeysIfNeeded_in on_the_host module_AmiXStorage.

Definition checkAndRotateKeys {nacl : NaCl} : M unit :=
  checkAndRotateKeys_in on_the_host module_AmiXStorage.

Definition forceKeyRotation {nacl : NaCl} : M (option IdentityKeys.t) :=
  forceKeyRotation_in on_the_host module_AmiXStorage.

Definition markKeyAsCompromised {nacl : NaCl} : M (option IdentityKeys.t) :=
  markKeyAsCompromised_in on_the_host module_AmiXStorage.


End AmiXCrypto.

(** ** [apps/web/src/utils/crypto.js] *)
Module WebCrypto.

(** [generateSafetyNumber(publicKeyJwk1, publicKeyJwk2)], over the host's
    [JSON.stringify] on keys. *)
Definition generateSafetyNumber {Jwk : Type} (JSON_stringify : Jwk -> string)
    (publicKeyJwk1 publicKeyJwk2 : Jwk) : string :=
  let combined := JSON_stringify publicKeyJwk1 +:+ JSON_stringify publicKeyJwk2 in
  let buffer := SHA256.digest (utf8_encode combined) in
  let hashHex := bytesToHex buffer in
  toUpperCase (substring0 8 hashHex).

(** The public key of an ECDH P-256 pair as [exportKey('jwk', ...)] gives
    it, and the text [JSON.stringify] makes of it. *)
Record EcJwk := {
  crv : string;
  ext : bool;
  key_ops : list string;
  kty : string;
  x : string;
  y : string
}.

Definition quote_mark : string := String (ascii_of_N 34) EmptyString.

Definition quoted (s : string) : string := quote_mark +:+ s +:+ quote_mark.

Definition stringify_jwk (k : EcJwk) : string :=
  "{" +:+ quoted "crv" +:+ ":" +:+ quoted (crv k)
  +:+ "," +:+ quoted "ext" +:+ ":" +:+ (if ext k then "true" else "false")
  +:+ "," +:+ quoted "key_ops" +:+ ":[" +:+ join "," (map quoted (key_ops k)) +:+ "]"
  +:+ "," +:+ quoted "kty" +:+ ":" +:+ quoted (kty k)
  +:+ "," +:+ quoted "x" +:+ ":" +:+ quoted (x k)
  +:+ "," +:+ quoted "y" +:+ ":" +:+ quoted (y k) +:+ "}".

(** *** Encryption with a shared secret *)

Local Open Scope Z_scope.
Local Open Scope js_scope.

(** A [CryptoKey] of the host, held by its raw bytes. *)
Record CryptoKey := { raw : bytes }.

(** [importKey('raw', data, { name: 'AES-GCM', length: 256 }, ...)]: the
    host takes keys of 128, 192 and 256 bits. *)
Definition importKey_aes (data : bytes) : result CryptoKey :=
  if (length data =? 16)%nat || (length data =? 24)%nat || (length data =? 32)%nat
  then Ok {| raw := data |}
  else Throw (Error "DataError").

(** What [encryptMessage] returns: [{ iv: Array.from(iv), data: Array.from(...) }],
    two arrays of numbers. *)
Record Encrypted := { iv : list Z; data : list Z }.

(** [new Uint8Array(array)] for an array of integers. *)
Definition to_bytes (array : list Z) : bytes := map (fun x => x mod 256) array.

(** [encryptMessage(sharedSecret, message)] *)
Definition encryptMessage (sharedSecret : CryptoKey) (message : string) : M Encrypted :=
  iv <- getRandomValues 12 ;;
  let encodedMessage := utf8_encode message in
  let encryptedContent := AESGCM.seal (raw sharedSecret) iv [] encodedMessage in
  ret {| iv := iv; data := encryptedContent |}.

(** [decryptMessage(sharedSecret, encrypted)]: the host rejects with an
    [OperationError] what it cannot authenticate. *)
Definition decryptMessage (sharedSecret : CryptoKey) (encrypted : Encrypted)
  : result string :=
  match AESGCM.open (raw sharedSecret) (to_bytes (iv encrypted)) []
          (to_bytes (data encrypted)) with
  | Some decryptedContent => Ok (utf8_decode decryptedContent)
  | None => Throw (Error "OperationError")
  end.

(** *** The ratchet *)

(** [kdf(key, data)]: HMAC-SHA-256; the host refuses a key of no bytes. *)
Definition kdf (key data : bytes) : result bytes :=
  if (length key =? 0)%nat then Throw (Error "DataError")
  else Ok (HMAC.hmac_sha256 key data).

(** A chain [{ key, counter }]; the counter is a number of the host, and
    [counter + 1] is exact while it is below 2^53. *)
Record Chain := { chain_key : bytes; counter : Z }.

Record Ratchet := { rootKey : bytes; sendChain : Chain; receiveChain : Chain }.

Section Agreement.
(** The keys of the host, and its agreement on the curve P-256 followed
    by the export of the 256-bit key derived from it:
    [exportKey('raw', await deriveSharedSecret(privateKey, publicKeyJwk))]. *)
Variables PrivateKey PublicJwk : Type.
Variable deriveSharedSecret_raw : PrivateKey -> PublicJwk -> result bytes.

(** [initializeRatchet(privateKey, theirPublicKeyJwk)] *)
Definition initializeRatchet (privateKey : PrivateKey) (theirPublicKeyJwk : PublicJwk)
  : result Ratchet :=
  rbind (deriveSharedSecret_raw privateKey theirPublicKeyJwk) (fun rootKey =>
    Ok {| rootKey := rootKey;
          sendChain := {| chain_key := rootKey; counter := 0 |};
          receiveChain := {| chain_key := rootKey; counter := 0 |} |}).
End Agreement.

(** [ratchetEncrypt(ratchetState, plaintext)]:
    [{ encryptedMessage, newRatchetState }] *)
Definition ratchetEncrypt (ratchetState : Ratchet) (plaintext : string)
  : M (Encrypted * Ratchet) :=
  let sendChainKey := chain_key (sendChain ratchetState) in
  messageKeyData <- lift (kdf sendChainKey [1]) ;;
  nextChainKey <- lift (kdf sendChainKey [2]) ;;
  messageKey <- lift (importKey_aes messageKeyData) ;;
  encryptedMessage <- encryptMessage messageKey plaintext ;;
  let newRatchetState :=
    {| rootKey := rootKey ratchetState;
       sendChain := {| chain_key := nextChainKey;
                       counter := counter (sendChain ratchetState) + 1 |};
       receiveChain := receiveChain ratchetState |} in
  ret (encryptedMessage, newRatchetState).

(** [ratchetDecrypt(ratchetState, encryptedMessage)]:
    [{ plaintext, newRatchetState }] *)
Definition ratchetDecrypt (ratchetState : Ratchet) (encryptedMessage : Encrypted)
  : result (string * Ratchet) :=
  let receiveChainKey := chain_key (receiveChain ratchetState) in
  rbind (kdf receiveChainKey [1]) (fun messageKeyData =>
  rbind (kdf receiveChainKey [2]) (fun nextChainKey =>
  rbind (importKey_aes messageKeyData) (fun messageKey =>
  rbind (decryptMessage messageKey encryptedMessage) (fun plaintext =>
    let newRatchetState :=
      {| rootKey := rootKey ratchetState;
         sendChain := sendChain ratchetState;
         receiveChain := {| chain_key := nextChainKey;
                            counter := counter (receiveChain ratchetState) + 1 |} |} in
    Ok (plaintext, newRatchetState))))).

(** Messages in one direction, one after the other: each is encrypted
    under the state the one before returned, and they are decrypted, in
    the order sent, each under the state the one before returned. *)
Fixpoint send_all (ratchetState : Ratchet) (plaintexts : list string)
  : M (list Encrypted * Ratchet) :=
  match plaintexts with
  | [] => ret ([], ratchetState)
  | plaintext :: rest =>
      sent <- ratchetEncrypt ratchetState plaintext ;;
      more <- send_all (snd sent) rest ;;
      ret (fst sent :: fst more, snd more)
  end.

Fixpoint receive_all (ratchetState : Ratchet) (messages : list Encrypted)
  : result (list string * Ratchet) :=
  match messages with
  | [] => Ok ([], ratchetState)
  | encryptedMessage :: rest =>
      rbind (ratchetDecrypt ratchetState encryptedMessage) (fun received =>
      rbind (receive_all (snd received) rest) (fun more =>
        Ok (fst received :: fst more, snd more)))
  end.

(** The two sides agree on the chain from the one to the other. *)
Definition in_step (sender receiver : Ratchet) : Prop :=
  chain_key (sendChain sender) = chain_key (receiveChain receiver)
  /\ chain_key (sendChain sender) <> [].

End WebCrypto.

(** ** [utils/groupCrypto.js]: class [GroupCrypto] *)
Module GroupCrypto.
Import AmiXCrypto.
Local Open Scope Z_scope.
Local Open Scope js_scope.

Module ROTATION_INTERVALS.
Definition SHORT : Z := 24 * 60 * 60 * 1000.
Definition MEDIUM : Z := 7 * 24 * 60 * 60 * 1000.
Definition LONG : Z := 30 * 24 * 60 * 60 * 1000.
End ROTATION_INTERVALS.

(** An entry of [groupState.members]. *)
Record Member := {
  publicKey : string;
  privateKey : string;
  isAdmin : bool
}.

Record SigningKeyPair := { signing_publicKey : string; signing_privateKey : string }.

(** The group state; its descriptive [metadata] (name, creation date,
    creator) plays no part below and is left out.  [rotationTimer] is the
    handle [_scheduleKeyRotation] keeps. *)
Record GroupState := {
  groupId : string;
  members : gmap string Member;
  signingKeyPair : SigningKeyPair;
  encryptionKeyPair : IdentityKeys.t;
  keyRotationInterval : Z;
  nextKeyRotation : Z;
  createdAt : Z;
  updatedAt : Z;
  lastKeyRotation : Z;
  version : string;
  rotationTimer : option nat
}.

(** The tables of the persistence collaborator ([AmiXStorage]) by the
    contract under which [GroupCrypto] calls them: group states by group
    id, ratchet states by the key [groupId:senderId:recipientId], in a
    database that is open.  [storage.js] as written keeps a group under
    the [id] field of the record, which the states of [GroupCrypto] do
    not have, declares its last [storeRatchetState] and
    [updateRatchetState] with the record as their one parameter, and
    names one index of its schema twice; the properties below say what
    the store holds where they depend on it. *)
Record Store := {
  groups : gmap string GroupState;
  ratchetStates : gmap string RatchetState.t
}.

Record Env := { host : World; storage : Store }.

Definition G (A : Type) : Type := SM Env A.

Definition on_host {A} (m : M A) : G A :=
  fun e => let (r, w) := m (host e) in (r, {| host := w; storage := storage e |}).

Definition get_store : G Store := fun e => (Ok (storage e), e).

Definition put_store (st : Store) : G unit :=
  fun e => (Ok tt, {| host := host e; storage := st |}).

(** [AmiXStorage.getGroup(groupId)] *)
Definition getGroup (groupId : string) : G (option GroupState) :=
  st <- get_store ;; ret (groups st !! groupId).

(** [AmiXStorage.storeGroup(group)] *)
Definition storeGroup (group : GroupState) : G unit :=
  st <- get_store ;;
  put_store {| groups := <[GroupCrypto.groupId group := group]> (groups st);
               ratchetStates := ratchetStates st |}.

Definition ratchet_key (groupId senderId recipientId : string) : string :=
  groupId +:+ ":" +:+ senderId +:+ ":" +:+ recipientId.

(** [AmiXStorage.getRatchetState(groupId, senderId, recipientId)] *)
Definition getRatchetState (groupId senderId recipientId : string)
  : G (option RatchetState.t) :=
  st <- get_store ;; ret (ratchetStates st !! ratchet_key groupId senderId recipientId).

(** [AmiXStorage.storeRatchetState(groupId, senderId, recipientId, ratchetState)] *)
Definition storeRatchetState (groupId senderId recipientId : string)
    (ratchetState : RatchetState.t) : G unit :=
  st <- get_store ;;
  put_store {| groups := groups st;
               ratchetStates :=
                 <[ratchet_key groupId senderId recipientId := ratchetState]>
                   (ratchetStates st) |}.

(** [AmiXStorage.updateRatchetState(groupId, senderId, recipientId, ratchetState)]:
    an update changes an existing record only. *)
Definition updateRatchetState (groupId senderId recipientId : string)
    (ratchetState : RatchetState.t) : G unit :=
  st <- get_store ;;
  match ratchetStates st !! ratchet_key groupId senderId recipientId with
  | Some _ => storeRatchetState groupId senderId recipientId ratchetState
  | None => ret tt
  end.

(** [version.split('.')] *)
Fixpoint split_dots (s : string) : list string :=
  match s with
  | EmptyString => [EmptyString]
  | String c s' =>
      if Ascii.eqb c "." then EmptyString :: split_dots s'
      else match split_dots s' with
           | [] => [String c EmptyString]
           | part :: parts => String c part :: parts
           end
  end.

Definition digit_value (c : ascii) : option N :=
  let n := N_of_ascii c in
  if ((48 <=? n) && (n <=? 57))%N then Some (n - 48)%N else None.

Fixpoint parse_digits (acc : N) (s : string) : option N :=
  match s with
  | EmptyString => Some acc
  | String c s' =>
      match digit_value c with
      | Some d => parse_digits (10 * acc + d)%N s'
      | None => None
      end
  end.

(** [Number(part)] for the parts of a version in the form the class
    writes, decimal digits of a number below 2^53: the empty string is
    [0], a string of decimal digits is its value, and [None] is [NaN].
    The other spellings [Number] reads (signs, blanks, exponents, [0x])
    and the rounding of larger numbers are outside the embedding; the
    properties of versions below carry the bound. *)
Definition Number (part : string) : option N := parse_digits 0 part.

(** [parts[parts.length - 1]++], exact while the result is at most 2^53 *)
Fixpoint increment_last (parts : list (option N)) : list (option N) :=
  match parts with
  | [] => []
  | [p] => [option_map N.succ p]
  | p :: rest => p :: increment_last rest
  end.

(** The text of a number in [parts.join('.')]. *)
Definition number_text (p : option N) : string :=
  match p with
  | Some n => pretty n
  | None => "NaN"
  end.

(** [_incrementVersion(version)] *)
Definition _incrementVersion (version : string) : string :=
  let parts := map Number (split_dots version) in
  join "." (map number_text (increment_last parts)).

(** A version in the form the code writes it: numbers joined by dots. *)
Definition dotted (parts : list N) : string := join "." (map pretty parts).

Fixpoint no_dot (s : string) : bool :=
  match s with
  | EmptyString => true
  | String c s' => negb (Ascii.eqb c ".") && no_dot s'
  end.

Definition with_members (m : gmap string Member) (g : GroupState) : GroupState :=
  {| groupId := groupId g; members := m; signingKeyPair := signingKeyPair g;
     encryptionKeyPair := encryptionKeyPair g;
     keyRotationInterval := keyRotationInterval g;
     nextKeyRotation := nextKeyRotation g; createdAt := createdAt g;
     updatedAt := updatedAt g; lastKeyRotation := lastKeyRotation g;
     version := version g; rotationTimer := rotationTimer g |}.

Definition with_version (v : string) (g : GroupState) : GroupState :=
  {| groupId := groupId g; members := members g; signingKeyPair := signingKeyPair g;
     encryptionKeyPair := encryptionKeyPair g;
     keyRotationInterval := keyRotationInterval g;
     nextKeyRotation := nextKeyRotation g; createdAt := createdAt g;
     updatedAt := updatedAt g; lastKeyRotation := lastKeyRotation g;
     version := v; rotationTimer := rotationTimer g |}.

Definition with_updatedAt (t : Z) (g : GroupState) : GroupState :=
  {| groupId := groupId g; members := members g; signingKeyPair := signingKeyPair g;
     encryptionKeyPair := encryptionKeyPair g;
     keyRotationInterval := keyRotationInterval g;
     nextKeyRotation := nextKeyRotation g; createdAt := createdAt g;
     updatedAt := t; lastKeyRotation := lastKeyRotation g;
     version := version g; rotationTimer := rotationTimer g |}.

Definition with_rotationTimer (t : option nat) (g : GroupState) : GroupState :=
  {| groupId := groupId g; members := members g; signingKeyPair := signingKeyPair g;
     encryptionKeyPair := encryptionKeyPair g;
     keyRotationInterval := keyRotationInterval g;
     nextKeyRotation := nextKeyRotation g; createdAt := createdAt g;
     updatedAt := updatedAt g; lastKeyRotation := lastKeyRotation g;
     version := version g; rotationTimer := t |}.

Definition with_rotation (keys : IdentityKeys.t) (last next : Z) (g : GroupState)
  : GroupState :=
  {| groupId := groupId g; members := members g; signingKeyPair := signingKeyPair g;
     encryptionKeyPair := keys;
     keyRotationInterval := keyRotationInterval g;
     nextKeyRotation := next; createdAt := createdAt g;
     updatedAt := updatedAt g; lastKeyRotation := last;
     version := version g; rotationTimer := rotationTimer g |}.

(** [_scheduleKeyRotation(groupState)]: the timer is re-armed for the
    rotation date the state already carries.  The source updates
    [groupState] in place; the embedding returns the updated state. *)
Definition _scheduleKeyRotation (groupState : GroupState) : G GroupState :=
  (match rotationTimer groupState with
   | Some handle =>
       if (handle =? 0)%nat then ret tt else on_host (clearTimeout handle)
   | None => ret tt
   end) ;;;
  now <- on_host Date_now ;;
  let timeUntilRotation := nextKeyRotation groupState - now in
  handle <- on_host (setTimeout (RotateGroupKeys (groupId groupState))
                       (Z.max 0 timeUntilRotation)) ;;
  ret (with_rotationTimer (Some handle) groupState).

Section Imports.
Context {nacl : NaCl}.

(** The class declares no method [_broadcastKeyRotation]. *)
Definition _broadcastKeyRotation : option (string -> string -> G unit) := None.

(** [_rotateGroupKeys(groupId)], the callback of the rotation timer;
    [None] is the [undefined] returned when the group is gone. *)
Definition _rotateGroupKeys (groupId : string) : G (option IdentityKeys.t) :=
  try_catch
    (found <- getGroup groupId ;;
     match found with
     | None => ret None
     | Some groupState =>
         newKeyPair <- on_host (generateIdentityKeys None) ;;
         last <- on_host Date_now ;;
         now <- on_host Date_now ;;
         let groupState :=
           with_rotation newKeyPair last (now + keyRotationInterval groupState)
             groupState in
         let groupState :=
           with_version (_incrementVersion (version groupState)) groupState in
         storeGroup groupState ;;;
         broadcast <-
           lift (match _broadcastKeyRotation with
                 | Some f => Ok f
                 | None => Throw (TypeError
                             "this._broadcastKeyRotation is not a function")
                 end) ;;
         broadcast groupId "undefined" ;;;
         _ <- _scheduleKeyRotation groupState ;;
         ret (Some newKeyPair)
     end)
    (fun error =>
       on_host (console_write ("Failed to rotate group keys: "
                               +:+ error_message error)) ;;;
       throw error).

End Imports.

(** The caller of [removeMember]. *)
Record User := { user_id : string }.

(** [groupState.members[remover.id]?.isAdmin]: what the member table
    inherits under a name has no [isAdmin]. *)
Definition is_admin (groupState : GroupState) (remover : User) : bool :=
  match members groupState !! user_id remover with
  | Some m => isAdmin m
  | None => false
  end.

(** [groupState.members[id]] is not falsy: the table, a plain object,
    holds a member under [id], or inherits a property of that name. *)
Definition has_member (groupState : GroupState) (id : string) : bool :=
  match members groupState !! id with
  | Some _ => true
  | None => inherited id
  end.

(** [removeMember(groupId, remover, memberIdToRemove)] *)
Definition removeMember (groupId : string) (remover : User)
    (memberIdToRemove : string) : G GroupState :=
  try_catch
    (found <- getGroup groupId ;;
     match found with
     | None => throw (Error "Group not found")
     | Some groupState =>
         if negb (is_admin groupState remover)
         then throw (Error "Only admins can remove members")
         else if negb (has_member groupState memberIdToRemove)
         then throw (Error "Member not found in group")
         else
           let groupState :=
             with_members (delete memberIdToRemove (members groupState))
               groupState in
           let groupState :=
             with_version (_incrementVersion (version groupState)) groupState in
           now <- on_host Date_now ;;
           let groupState := with_updatedAt now groupState in
           groupState <- _scheduleKeyRotation groupState ;;
           storeGroup groupState ;;;
           ret groupState
     end)
    (fun error =>
       on_host (console_write ("Failed to remove member: " +:+ error_message error)) ;;;
       throw error).

(** *** Decryption of a group message *)

Section Decrypt.
Context {nacl : NaCl}.

(** JSON values (the metadata of a message, its parsed content) and the
    host's [JSON.stringify] and [JSON.parse]; [JSON_parse] is [None] when
    the host throws. *)
Variable Json : Type.

(** The additional authenticated data rebuilt from a message:
    [{ groupId, messageId, senderId, timestamp, type, ...metadata }]. *)
Record Aad := {
  aad_groupId : string;
  aad_messageId : string;
  aad_senderId : string;
  aad_timestamp : Z;
  aad_type : string;
  aad_metadata : option Json
}.

(** [JSON.stringify(aad)], and [JSON.stringify({ ...aad, messageHash })]
    when a hash is given. *)
Variable JSON_stringify : Aad -> option bytes -> string.
Variable JSON_parse : string -> option Json.

(** One element of [message.encryptedMessages]. *)
Record EncryptedEntry := { entry_recipientId : string; entry_envelope : Envelope.t }.

(** An encrypted group message as [decryptGroupMessage] reads it. *)
Record GroupMessage := {
  messageId : string;
  senderId : option string;
  sender : option string;
  timestamp : Z;
  type : string;
  metadata : option Json;
  encryptedMessages : list EncryptedEntry;
  signature : string;
  messageCount : option Z
}.

Record DecryptOptions := {
  skipAadVerification : bool;
  skipSignatureVerification : bool;
  isRetry : bool
}.

Record GetOptions := { createIfMissing : bool; throwOnError : bool }.

(** What [decryptGroupMessage] returns:
    [{ ...aad, content, metadata: { ...metadata, decrypted, verified } }];
    the content is the parsed JSON value, or the decrypted bytes when they
    do not parse. *)
Record Decrypted := {
  decrypted_aad : Aad;
  decrypted_content : Json + bytes
}.

(** [message.senderId || message.sender], as the text a template or a
    property name makes of it. *)
Definition sender_of (message : GroupMessage) : string :=
  match senderId message with
  | Some s => if String.eqb s EmptyString then default "undefined" (sender message) else s
  | None => default "undefined" (sender message)
  end.

(** [groupState.members[id].field]: under a name the table inherits the
    field is [undefined], written here as its text. *)
Definition member_field (field : string) (get : Member -> string)
    (groupState : GroupState) (id : string) : result string :=
  match members groupState !! id with
  | Some m => Ok (get m)
  | None =>
      if inherited id then Ok "undefined"%string
      else Throw (TypeError ("Cannot read properties of undefined (reading '"
                             +:+ field +:+ "')"))
  end.

(** The session both [_getRatchetState] and [_recoverRatchetState] set up:
    a key agreement, a ratchet state, and its storage. *)
Definition establish_session (groupId senderId recipientId : string)
  : G RatchetState.t :=
  found <- getGroup groupId ;;
  match found with
  | None => throw (Error "Group not found")
  | Some groupState =>
      theirPublic <- lift (member_field "publicKey" publicKey groupState senderId) ;;
      ourPrivate <- lift (member_field "privateKey" privateKey groupState recipientId) ;;
      exchange <- on_host (performKeyExchange theirPublic ourPrivate) ;;
      ourPrivate' <- lift (member_field "privateKey" privateKey groupState recipientId) ;;
      theirPublic' <- lift (member_field "publicKey" publicKey groupState senderId) ;;
      ratchetState <- on_host (createRatchetState (KeyExchange.sharedSecret exchange)
                                 ourPrivate' theirPublic') ;;
      storeRatchetState groupId senderId recipientId ratchetState ;;;
      ret ratchetState
  end.

(** [_getRatchetState(groupId, senderId, recipientId, options = {})];
    [None] is a missing state. *)
Definition _getRatchetState (groupId senderId recipientId : string)
    (options : GetOptions) : G (option RatchetState.t) :=
  try_catch
    (ratchetState <- getRatchetState groupId senderId recipientId ;;
     match ratchetState with
     | None =>
         if createIfMissing options then
           created <- establish_session groupId senderId recipientId ;;
           ret (Some created)
         else ret None
     | Some _ => ret ratchetState
     end)
    (fun error =>
       on_host (console_write ("Error getting ratchet state: "
                               +:+ error_message error)) ;;;
       if throwOnError options
       then throw (Error ("Failed to get ratchet state: " +:+ error_message error))
       else ret None).

(** [_recoverRatchetState(groupId, senderId, recipientId)] *)
Definition _recoverRatchetState (groupId senderId recipientId : string)
  : G RatchetState.t :=
  on_host (console_write ("Attempting to recover ratchet state for "
                          +:+ senderId +:+ "-" +:+ recipientId)) ;;;
  establish_session groupId senderId recipientId.

(** [String(decrypted)] for a [Uint8Array]: its elements joined by commas. *)
Definition bytes_text (b : bytes) : string := join "," (map pretty b).

(** [message.encryptedMessages.find(msg => msg.recipientId === recipientId)] *)
Definition addressed_to (recipientId : string) (message : GroupMessage)
  : option EncryptedEntry :=
  find (fun msg => String.eqb (entry_recipientId msg) recipientId)
    (encryptedMessages message).

(** The [try] block of [decryptGroupMessage]. *)
Definition decrypt_body (groupId : string) (message : GroupMessage)
    (recipientId : string) (options : DecryptOptions) : G Decrypted :=
  found <- getGroup groupId ;;
  match found with
  | None => throw (Error "Group not found")
  | Some groupState =>
      match addressed_to recipientId message with
      | None => throw (Error "No message found for this recipient")
      | Some encryptedMessage =>
          ratchetState <- _getRatchetState groupId (sender_of message) recipientId
                            {| createIfMissing := false; throwOnError := true |} ;;
          match ratchetState with
          | None => throw (Error "No active session with sender")
          | Some ratchetState =>
              let aad :=
                {| aad_groupId := groupId;
                   aad_messageId := messageId message;
                   aad_senderId := sender_of message;
                   aad_timestamp := timestamp message;
                   aad_type := type message;
                   aad_metadata := metadata message |} in
              let envelope := entry_envelope encryptedMessage in
              decrypted <-
                on_host (decryptMessage
                           {| Envelope.ciphertext := Envelope.ciphertext envelope;
                              Envelope.nonce := Envelope.nonce envelope;
                              Envelope.aad := Envelope.aad envelope;
                              Envelope.messageCount := messageCount message;
                              Envelope.timestamp := Envelope.timestamp envelope;
                              Envelope.version := Envelope.version envelope |}
                           ratchetState
                           {| opt_aad := Some (utf8_encode (JSON_stringify aad None)) |}) ;;
              updateRatchetState groupId (sender_of message) recipientId ratchetState ;;;
              (if skipSignatureVerification options then ret tt
               else
                 isValid <-
                   on_host (verifyMessageIntegrity
                              (Text (JSON_stringify aad (Some (hash (Binary decrypted)))))
                              (signature message)
                              (signing_publicKey (signingKeyPair groupState))) ;;
                 if isValid then ret tt
                 else throw (Error "Invalid message signature")) ;;;
              let parsedMessage :=
                match JSON_parse (bytes_text decrypted) with
                | Some value => inl value
                | None => inr decrypted
                end in
              ret {| decrypted_aad := aad; decrypted_content := parsedMessage |}
          end
      end
  end.

(** [decryptGroupMessage(groupId, message, recipientId, options = {})].
    The retry is a call of the function by itself, which nothing in the
    source bounds: [fuel] bounds the depth of these calls, and [None]
    tells that the bound was reached. *)
Fixpoint decryptGroupMessage (fuel : nat) (groupId : string) (message : GroupMessage)
    (recipientId : string) (options : DecryptOptions) : G (option Decrypted) :=
  match fuel with
  | O => ret None
  | S fuel' =>
      try_catch
        (decrypted <- decrypt_body groupId message recipientId options ;;
         ret (Some decrypted))
        (fun error =>
           on_host (console_write ("Failed to decrypt group message: "
                                   +:+ error_message error)) ;;;
           if includes (error_message error) "ratchet state not found" then
             _ <- _recoverRatchetState groupId (sender_of message) recipientId ;;
             decryptGroupMessage fuel' groupId message recipientId
               {| skipAadVerification := skipAadVerification options;
                  skipSignatureVerification := skipSignatureVerification options;
                  isRetry := true |}
           else throw error)
  end.

(** The lines [_recoverRatchetState] writes to the console: one per
    recovery attempt. *)
Definition recovery_attempts (lines : list string) : nat :=
  length (List.filter (fun line => String.prefix "Attempting to recover ratchet state" line)
            lines).

End Decrypt.

(** *** Creation of a group *)

Record CreateOptions := { opt_keyRotationInterval : option Z }.

(** A property of a class called as a function: the method it names, or
    a [TypeError] when the class has none of that name. *)
Definition method {A} (name : string) (found : option A) : result A :=
  match found with
  | Some f => Ok f
  | None => Throw (TypeError (name +:+ " is not a function"))
  end.

(** [for (const member of members) await this._addMember(groupState, member, false)] *)
Fixpoint add_members (add : GroupState -> User -> bool -> G GroupState)
    (members : list User) (groupState : GroupState) : G GroupState :=
  match members with
  | [] => ret groupState
  | member :: rest =>
      groupState <- add groupState member false ;;
      add_members add rest groupState
  end.

Section Methods.
Context {nacl : NaCl}.
(** What [AmiXCrypto] has under the name [generateSigningKeyPair], and
    [GroupCrypto] under [_addMember] and [_initializeMemberRatchetStates]. *)
Variable generateSigningKeyPair : option (M SigningKeyPair).
Variable _addMember : option (GroupState -> User -> bool -> G GroupState).
Variable _initializeMemberRatchetStates : option (GroupState -> list User -> G unit).

(** [createGroup(groupId, creator, members = [], options = {})]; the
    methods that update [groupState] in place return the updated state. *)
Definition createGroup_in (groupId : string) (creator : User) (members : list User)
    (options : CreateOptions) : G GroupState :=
  try_catch
    (now <- on_host Date_now ;;
     let allMembers := creator :: members in
     generate <- lift (method "AmiXCrypto.generateSigningKeyPair"
                         generateSigningKeyPair) ;;
     signingKeyPair <- on_host generate ;;
     encryptionKeyPair <- on_host (generateIdentityKeys None) ;;
     let interval :=
       match opt_keyRotationInterval options with
       | Some i => if i =? 0 then ROTATION_INTERVALS.MEDIUM else i
       | None => ROTATION_INTERVALS.MEDIUM
       end in
     let groupState :=
       {| groupId := groupId;
          members := ∅;
          signingKeyPair := signingKeyPair;
          encryptionKeyPair := encryptionKeyPair;
          keyRotationInterval := interval;
          nextKeyRotation := now + interval;
          createdAt := now;
          updatedAt := now;
          lastKeyRotation := now;
          version := "1.0.0";
          rotationTimer := None |} in
     add <- lift (method "this._addMember" _addMember) ;;
     groupState <- add groupState creator true ;;
     groupState <- add_members add members groupState ;;
     initialize <- lift (method "this._initializeMemberRatchetStates"
                           _initializeMemberRatchetStates) ;;
     initialize groupState allMembers ;;;
     groupState <- _scheduleKeyRotation groupState ;;
     storeGroup groupState ;;;
     ret groupState)
    (fun error =>
       on_host (console_write ("Failed to create group: " +:+ error_message error)) ;;;
       throw error).

End Methods.

(** Neither class declares these methods. *)
Definition createGroup {nacl : NaCl} :=
  createGroup_in None None None.

(** [getGroupState(groupId)] *)
Definition getGroupState (groupId : string) : G GroupState :=
  try_catch
    (found <- getGroup groupId ;;
     match found with
     | None => throw (Error "Group not found")
     | Some groupState => ret groupState
     end)
    (fun error =>
       on_host (console_write ("Failed to get group state: " +:+ error_message error)) ;;;
       throw error).

(** The numbers JavaScript holds exactly. *)
Definition exact (n : N) : Prop := (n < 2 ^ 53)%N.

(** The timers that will rotate the keys of a group. *)
Definition rotation_timers (w : World) : list Timer :=
  List.filter (fun t => match timer_task t with
                        | RotateGroupKeys _ => true
                        | CheckAndRotateKeys => false
                        end) (timers w).

(** The members who may remove members. *)
Definition admins (g : GroupState) : gmap string Member :=
  filter (fun entry => isAdmin (snd entry) = true) (members g).


End GroupCrypto.

(** ** [services/messageQueue.js]: class [AmiXMessageQueue] *)
Module AmiXMessageQueue.
Local Open Scope Z_scope.
Local Open Scope js_scope.

Inductive Status : Type := pending | sent | failed.
Inductive NetworkStatus : Type := unknown | online | offline.

Definition Status_eqb (a b : Status) : bool :=
  match a, b with
  | pending, pending | sent, sent | failed, failed => true
  | _, _ => false
  end.

(** The message handed to [addToOutbox]; [priority] is optional. *)
Record Message := {
  content : string;
  encryptedData : string;
  message_recipientId : string;
  message_priority : option string
}.

Record OutboxItem := {
  id : string;
  message : Message;
  recipientId : string;
  timestamp : Z;
  retryCount : nat;
  lastRetry : option Z;
  status : Status;
  priority : string;
  sentAt : option Z;
  failureReason : option string;
  failedAt : option Z
}.

(** The answers of the transport collaborators to the [n]-th delivery
    attempt: [AmiXWebRTC.isConnected], [AmiXWebRTC.sendEncryptedMessage]
    and the [ok] flag of the relay's response; the last two may throw. *)
Record Transport := {
  isConnected : nat -> bool;
  sendEncryptedMessage : nat -> result bool;
  relay_response_ok : nat -> result bool
}.

(** The static fields of the class and its surroundings.  [outbox] is the
    [Map]: its values in insertion order, each under the key that is its
    [id] ([addToOutbox] inserts every item under its own id, the stored
    form keeps the keys, and no operation changes an id).  [deliveries]
    records the ids of the items handed to [sendMessage], in call order;
    [stored] is the ['message_outbox'] entry of the storage collaborator;
    [message_ids] holds the texts [Math.random().toString(36).substring(2)]
    will produce. *)
Record State := {
  outbox : list OutboxItem;
  networkStatus : NetworkStatus;
  isProcessing : bool;
  world : World;
  transport : Transport;
  deliveries : list string;
  stored : option (list OutboxItem);
  message_ids : nat -> string;
  message_ids_used : nat
}.

Definition retryDelays : list Z := [1000; 2000; 5000; 10000; 30000; 60000].
Definition maxRetries : nat := 5.

Definition set_outbox (o : list OutboxItem) (s : State) : State :=
  {| outbox := o; networkStatus := networkStatus s; isProcessing := isProcessing s;
     world := world s; transport := transport s; deliveries := deliveries s;
     stored := stored s; message_ids := message_ids s;
     message_ids_used := message_ids_used s |}.

Definition set_networkStatus (n : NetworkStatus) (s : State) : State :=
  {| outbox := outbox s; networkStatus := n; isProcessing := isProcessing s;
     world := world s; transport := transport s; deliveries := deliveries s;
     stored := stored s; message_ids := message_ids s;
     message_ids_used := message_ids_used s |}.

Definition set_world (w : World) (s : State) : State :=
  {| outbox := outbox s; networkStatus := networkStatus s;
     isProcessing := isProcessing s;
     world := w; transport := transport s; deliveries := deliveries s;
     stored := stored s; message_ids := message_ids s;
     message_ids_used := message_ids_used s |}.

Definition set_deliveries (d : list string) (s : State) : State :=
  {| outbox := outbox s; networkStatus := networkStatus s;
     isProcessing := isProcessing s;
     world := world s; transport := transport s; deliveries := d;
     stored := stored s; message_ids := message_ids s;
     message_ids_used := message_ids_used s |}.

Definition set_stored (o : option (list OutboxItem)) (s : State) : State :=
  {| outbox := outbox s; networkStatus := networkStatus s;
     isProcessing := isProcessing s;
     world := world s; transport := transport s; deliveries := deliveries s;
     stored := o; message_ids := message_ids s;
     message_ids_used := message_ids_used s |}.

Definition set_message_ids_used (n : nat) (s : State) : State :=
  {| outbox := outbox s; networkStatus := networkStatus s;
     isProcessing := isProcessing s;
     world := world s; transport := transport s; deliveries := deliveries s;
     stored := stored s; message_ids := message_ids s;
     message_ids_used := n |}.

Definition Q (A : Type) : Type := SM State A.

Definition get_state : Q State := fun s => (Ok s, s).
Definition modify (f : State -> State) : Q unit := fun s => (Ok tt, f s).

(** A computation on the host, run inside the queue. *)
Definition on_host {A} (m : M A) : Q A :=
  fun s => let (r, w) := m (world s) in (r, set_world w s).

(** [this.outbox.get(messageId)] *)
Definition outbox_get (messageId : string) (o : list OutboxItem) : option OutboxItem :=
  find (fun item => String.eqb (id item) messageId) o.

(** [this.outbox.set(messageId, outboxItem)]: the value under an existing
    key is replaced where it stands, a new key is added at the end. *)
Fixpoint outbox_set (messageId : string) (outboxItem : OutboxItem)
    (o : list OutboxItem) : list OutboxItem :=
  match o with
  | [] => [outboxItem]
  | item :: rest =>
      if String.eqb (id item) messageId then outboxItem :: rest
      else item :: outbox_set messageId outboxItem rest
  end.

(** [this.outbox.delete(messageId)] *)
Definition outbox_delete (messageId : string) (o : list OutboxItem) : list OutboxItem :=
  List.filter (fun item => negb (String.eqb (id item) messageId)) o.

(** [saveOutbox()] *)
Definition saveOutbox : Q unit :=
  s <- get_state ;;
  modify (set_stored (Some (outbox s))).

(** [AmiXAnalytics.trackEvent(name, ...)]: whatever the collaborator does,
    every call site sits in a [try] block that absorbs it and follows the
    update of the outbox. *)
Definition trackEvent (name : string) : Q unit := ret tt.

(** [generateMessageId()] *)
Definition generateMessageId : Q string :=
  timestamp <- on_host Date_now ;;
  s <- get_state ;;
  let random := message_ids s (message_ids_used s) in
  modify (set_message_ids_used (S (message_ids_used s))) ;;;
  ret (pretty timestamp +:+ "-" +:+ random).

(** [addToOutbox(message)] *)
Definition addToOutbox (message : Message) : Q string :=
  try_catch
    (messageId <- generateMessageId ;;
     now <- on_host Date_now ;;
     let outboxItem :=
       {| id := messageId;
          message := message;
          recipientId := message_recipientId message;
          timestamp := now;
          retryCount := 0;
          lastRetry := None;
          status := pending;
          priority :=
            match message_priority message with
            | Some p => if String.eqb p EmptyString then "normal" else p
            | None => "normal"
            end;
          sentAt := None; failureReason := None; failedAt := None |} in
     s <- get_state ;;
     modify (set_outbox (outbox_set messageId outboxItem (outbox s))) ;;;
     saveOutbox ;;;
     trackEvent "message_queued" ;;;
     ret messageId)
    (fun error =>
       on_host (console_write ("Failed to add message to outbox: "
                               +:+ error_message error)) ;;;
       throw error).

(** [getRetryDelay(retryCount)] *)
Definition getRetryDelay (retryCount : nat) : option Z :=
  let index := Nat.min retryCount (length retryDelays - 1) in
  nth_error retryDelays index.

(** [markMessageSent(messageId)] *)
Definition markMessageSent (messageId : string) : Q unit :=
  try_catch
    (s <- get_state ;;
     match outbox_get messageId (outbox s) with
     | Some outboxItem =>
         now <- on_host Date_now ;;
         let outboxItem' :=
           {| id := id outboxItem; message := message outboxItem;
              recipientId := recipientId outboxItem; timestamp := timestamp outboxItem;
              retryCount := retryCount outboxItem; lastRetry := lastRetry outboxItem;
              status := sent; priority := priority outboxItem;
              sentAt := Some now; failureReason := failureReason outboxItem;
              failedAt := failedAt outboxItem |} in
         modify (set_outbox (outbox_set messageId outboxItem' (outbox s))) ;;;
         saveOutbox ;;;
         trackEvent "message_sent"
     | None => ret tt
     end)
    (fun error =>
       on_host (console_write ("Failed to mark message as sent: " +:+ error_message error))).

(** [markMessageRetry(messageId)] *)
Definition markMessageRetry (messageId : string) : Q unit :=
  try_catch
    (s <- get_state ;;
     match outbox_get messageId (outbox s) with
     | Some outboxItem =>
         now <- on_host Date_now ;;
         let outboxItem' :=
           {| id := id outboxItem; message := message outboxItem;
              recipientId := recipientId outboxItem; timestamp := timestamp outboxItem;
              retryCount := S (retryCount outboxItem); lastRetry := Some now;
              status := status outboxItem; priority := priority outboxItem;
              sentAt := sentAt outboxItem; failureReason := failureReason outboxItem;
              failedAt := failedAt outboxItem |} in
         modify (set_outbox (outbox_set messageId outboxItem' (outbox s))) ;;;
         saveOutbox
     | None => ret tt
     end)
    (fun error =>
       on_host (console_write ("Failed to mark message for retry: " +:+ error_message error))).

(** [markMessageFailed(messageId, reason)] *)
Definition markMessageFailed (messageId reason : string) : Q unit :=
  try_catch
    (s <- get_state ;;
     match outbox_get messageId (outbox s) with
     | Some outboxItem =>
         now <- on_host Date_now ;;
         let outboxItem' :=
           {| id := id outboxItem; message := message outboxItem;
              recipientId := recipientId outboxItem; timestamp := timestamp outboxItem;
              retryCount := retryCount outboxItem; lastRetry := lastRetry outboxItem;
              status := failed; priority := priority outboxItem;
              sentAt := sentAt outboxItem; failureReason := Some reason;
              failedAt := Some now |} in
         modify (set_outbox (outbox_set messageId outboxItem' (outbox s))) ;;;
         saveOutbox ;;;
         trackEvent "message_failed"
     | None => ret tt
     end)
    (fun error =>
       on_host (console_write ("Failed to mark message as failed: " +:+ error_message error))).

(** [sendViaRelay(message)]: the clock is read for the [timestamp] of
    the request body before the request is made; a rejected [fetch] is
    caught and gives [false]. *)
Definition sendViaRelay (attempt : nat) (message : Message) : Q bool :=
  timestamp <- on_host Date_now ;;
  s <- get_state ;;
  match relay_response_ok (transport s) attempt with
  | Ok ok => ret ok
  | Throw error =>
      on_host (console_write ("Relay send failed: " +:+ error_message error)) ;;;
      ret false
  end.

(** [sendMessage(outboxItem)] *)
Definition sendMessage (outboxItem : OutboxItem) : Q bool :=
  s <- get_state ;;
  let attempt := length (deliveries s) in
  modify (set_deliveries (deliveries s ++ [id outboxItem])) ;;;
  try_catch
    (if isConnected (transport s) attempt then
       success <- lift (sendEncryptedMessage (transport s) attempt) ;;
       if success then ret true
       else sendViaRelay attempt (message outboxItem)
     else sendViaRelay attempt (message outboxItem))
    (fun error =>
       on_host (console_write ("Failed to send message: " +:+ error_message error)) ;;;
       ret false).

(** [processMessage(outboxItem)] *)
Definition processMessage (outboxItem : OutboxItem) : Q unit :=
  try_catch
    (if (maxRetries <=? retryCount outboxItem)%nat then
       markMessageFailed (id outboxItem) "max_retries_exceeded"
     else
       wait <-
         match lastRetry outboxItem with
         | Some last =>
             if last =? 0 then ret false
             else
               now <- on_host Date_now ;;
               ret (match getRetryDelay (retryCount outboxItem) with
                    | Some delay => now - last <? delay
                    | None => false
                    end)
         | None => ret false
         end ;;
       if wait then ret tt
       else
         success <- sendMessage outboxItem ;;
         if success then markMessageSent (id outboxItem)
         else markMessageRetry (id outboxItem))
    (fun error =>
       on_host (console_write ("Failed to process message: " +:+ error_message error)) ;;;
       markMessageRetry (id outboxItem)).

(** What [priorityOrder[p] || 2] gives: a number, or what the object
    literal inherits under the name [p], a function or the prototype,
    which is not falsy and so is not replaced by [2]. *)
Inductive Rank : Type :=
| Ranked (n : Z)
| Inherited (name : string).

(** [priorityOrder[p] || 2] with [priorityOrder = { high: 3, normal: 2, low: 1 }] *)
Definition priorityOrder (p : string) : Rank :=
  if String.eqb p "high" then Ranked 3
  else if String.eqb p "normal" then Ranked 2
  else if String.eqb p "low" then Ranked 1
  else if inherited p then Inherited p
  else Ranked 2.

(** The comparator handed to [sort].  [None] is [NaN]: two ranks that are
    not the same value, one of them no number, differ under [!==], and
    their difference is no number. *)
Definition compare_items (a b : OutboxItem) : option Z :=
  match priorityOrder (priority a), priorityOrder (priority b) with
  | Ranked aPriority, Ranked bPriority =>
      if negb (aPriority =? bPriority) then Some (bPriority - aPriority)
      else Some (timestamp a - timestamp b)
  | Inherited x, Inherited y =>
      if String.eqb x y then Some (timestamp a - timestamp b) else None
  | _, _ => None
  end.

(** What [sort] makes of the comparator's result: [NaN] counts as [0]. *)
Definition sort_compare (a b : OutboxItem) : Z := default 0 (compare_items a b).

(** [Array.prototype.sort(compare)]: a stable sort; [a] stays before [b]
    unless [compare(a, b) > 0].  Under a comparator that is no order (as
    [compare_items] is once it gives [NaN]) the result is the engine's
    own; the insertion below leaves such items where the comparisons with
    their neighbours leave them. *)
Fixpoint sort_insert {A} (compare : A -> A -> Z) (x : A) (l : list A) : list A :=
  match l with
  | [] => [x]
  | y :: rest =>
      if compare x y <=? 0 then x :: y :: rest
      else y :: sort_insert compare x rest
  end.

Definition sort {A} (compare : A -> A -> Z) (l : list A) : list A :=
  fold_right (sort_insert compare) [] l.

(** The array [pendingMessages] of [processQueue]. *)
Definition pendingMessages (o : list OutboxItem) : list OutboxItem :=
  sort sort_compare (List.filter (fun item => Status_eqb (status item) pending) o).

(** [for (const outboxItem of pendingMessages) await this.processMessage(outboxItem)] *)
Fixpoint process_all (items : list OutboxItem) : Q unit :=
  match items with
  | [] => ret tt
  | outboxItem :: rest => processMessage outboxItem ;;; process_all rest
  end.

(** [processQueue()] *)
Definition processQueue : Q unit :=
  s <- get_state ;;
  match networkStatus s with
  | online =>
      try_catch
        (process_all (pendingMessages (outbox s)))
        (fun error =>
           on_host (console_write ("Failed to process message queue: "
                                   +:+ error_message error)))
  | _ => ret tt
  end.

(** [handleAcknowledgment(ackMessage)] *)
Record Acknowledgment := { ack_messageId : string; ack_timestamp : Z }.

Definition handleAcknowledgment (ackMessage : Acknowledgment) : Q unit :=
  try_catch
    (markMessageSent (ack_messageId ackMessage))
    (fun error =>
       on_host (console_write ("Failed to handle acknowledgment: "
                               +:+ error_message error))).

(** [retryFailedMessages()] *)
Definition retry_item (item : OutboxItem) : OutboxItem :=
  match status item with
  | failed =>
      {| id := id item; message := message item;
         recipientId := recipientId item; timestamp := timestamp item;
         retryCount := 0; lastRetry := None;
         status := pending; priority := priority item;
         sentAt := sentAt item; failureReason := failureReason item;
         failedAt := failedAt item |}
  | _ => item
  end.

Definition retryFailedMessages : Q unit :=
  s <- get_state ;;
  modify (set_outbox (map retry_item (outbox s))) ;;;
  saveOutbox.

(** What happens around the queue without the user: the network goes up
    or down ([monitorNetworkStatus]), the host and the transport change
    their answers, the interval timer or the online handler runs
    [processQueue], an acknowledgment arrives. *)
Inductive Event : Type :=
| NetworkChanged (n : NetworkStatus)
| HostChanged (w : World) (t : Transport)
| QueueTick
| AcknowledgmentReceived (ackMessage : Acknowledgment).

Definition set_transport (t : Transport) (s : State) : State :=
  {| outbox := outbox s; networkStatus := networkStatus s;
     isProcessing := isProcessing s;
     world := world s; transport := t; deliveries := deliveries s;
     stored := stored s; message_ids := message_ids s;
     message_ids_used := message_ids_used s |}.

Definition step (e : Event) (s : State) : State :=
  match e with
  | NetworkChanged n => set_networkStatus n s
  | HostChanged w t => set_transport t (set_world w s)
  | QueueTick => snd (processQueue s)
  | AcknowledgmentReceived ackMessage => snd (handleAcknowledgment ackMessage s)
  end.

Definition run (events : list Event) (s : State) : State :=
  fold_left (fun s e => step e s) events s.




(** An item never tried since it was queued. *)
Definition fresh (item : OutboxItem) : Prop :=
  lastRetry item = None /\ (retryCount item < maxRetries)%nat.

(** The reading [Date.now()] gives next. *)
Definition now_of (s : State) : Z := clock (world s) (clock_reads (world s)).

(** The item as the three marking functions leave it. *)
Definition as_sent (now : Z) (x : OutboxItem) : OutboxItem :=
  {| id := id x; message := message x; recipientId := recipientId x;
     timestamp := timestamp x; retryCount := retryCount x; lastRetry := lastRetry x;
     status := sent; priority := priority x; sentAt := Some now;
     failureReason := failureReason x; failedAt := failedAt x |}.

Definition as_retry (now : Z) (x : OutboxItem) : OutboxItem :=
  {| id := id x; message := message x; recipientId := recipientId x;
     timestamp := timestamp x; retryCount := S (retryCount x); lastRetry := Some now;
     status := status x; priority := priority x; sentAt := sentAt x;
     failureReason := failureReason x; failedAt := failedAt x |}.

Definition as_failed (now : Z) (reason : string) (x : OutboxItem) : OutboxItem :=
  {| id := id x; message := message x; recipientId := recipientId x;
     timestamp := timestamp x; retryCount := retryCount x; lastRetry := lastRetry x;
     status := failed; priority := priority x; sentAt := sentAt x;
     failureReason := Some reason; failedAt := Some now |}.

(** The state outside the outbox that deliveries depend on. *)
Definition same_surroundings (s s' : State) : Prop :=
  networkStatus s' = networkStatus s /\ transport s' = transport s.

(** Only the entry under [k] may differ. *)
Definition same_but (k : string) (o o' : list OutboxItem) : Prop :=
  map id o' = map id o /\
  forall k', k' <> k -> outbox_get k' o' = outbox_get k' o.

(** The outbox after a marking function ran on key [k], given what it
    does to the item found there. *)
Definition marked (f : OutboxItem -> OutboxItem) (k : string)
    (o : list OutboxItem) : list OutboxItem :=
  match outbox_get k o with
  | Some x => outbox_set k (f x) o
  | None => o
  end.

(** The keys of the [Map] are distinct, and the item under [i] is not
    pending. *)
Definition settled (i : string) (s : State) : Prop :=
  List.NoDup (map id (outbox s)) /\
  exists x, outbox_get i (outbox s) = Some x /\ status x <> pending.

(** *** Queue management *)

(** [loadOutbox()]: the stored form, when there is one, replaces the
    [Map]. *)
Definition loadOutbox : Q unit :=
  s <- get_state ;;
  match stored s with
  | Some outboxData => modify (set_outbox outboxData)
  | None => ret tt
  end.

(** [Array.from(this.outbox.values()).filter(item => item.status === st)] *)
Definition with_status (st : Status) (o : list OutboxItem) : list OutboxItem :=
  List.filter (fun item => Status_eqb (status item) st) o.

Record OutboxStatus := {
  count_pending : nat;
  count_sent : nat;
  count_failed : nat;
  count_total : nat;
  status_network : NetworkStatus
}.

(** [getOutboxStatus()] *)
Definition getOutboxStatus : Q OutboxStatus :=
  s <- get_state ;;
  ret {| count_pending := length (with_status pending (outbox s));
         count_sent := length (with_status sent (outbox s));
         count_failed := length (with_status failed (outbox s));
         count_total := length (outbox s);
         status_network := networkStatus s |}.

(** [for (const [messageId, _] of entries) this.outbox.delete(messageId)],
    over entries taken from the [Map] beforehand. *)
Definition delete_entries (entries : list OutboxItem) (o : list OutboxItem)
  : list OutboxItem :=
  fold_left (fun o entry => outbox_delete (id entry) o) entries o.

(** [clearSentMessages()] *)
Definition clearSentMessages : Q unit :=
  try_catch
    (s <- get_state ;;
     let sentMessages := with_status sent (outbox s) in
     modify (fun s => set_outbox (delete_entries sentMessages (outbox s)) s) ;;;
     saveOutbox)
    (fun error =>
       on_host (console_write ("Failed to clear sent messages: "
                               +:+ error_message error))).

(** [deleteMessage(messageId)] *)
Definition deleteMessage (messageId : string) : Q unit :=
  try_catch
    (modify (fun s => set_outbox (outbox_delete messageId (outbox s)) s) ;;;
     saveOutbox)
    (fun error =>
       on_host (console_write ("Failed to delete message: " +:+ error_message error))).

Definition thirty_days : Z := 30 * 24 * 60 * 60 * 1000.

(** [item.status === 'sent' && item.sentAt < thirtyDaysAgo]; a missing
    [sentAt] compares as false. *)
Definition old_sent (thirtyDaysAgo : Z) (item : OutboxItem) : bool :=
  Status_eqb (status item) sent
  && match sentAt item with
     | Some t => t <? thirtyDaysAgo
     | None => false
     end.

(** [cleanup()] *)
Definition cleanup : Q unit :=
  try_catch
    (now <- on_host Date_now ;;
     let thirtyDaysAgo := now - thirty_days in
     s <- get_state ;;
     let oldSentMessages := List.filter (old_sent thirtyDaysAgo) (outbox s) in
     modify (fun s => set_outbox (delete_entries oldSentMessages (outbox s)) s) ;;;
     saveOutbox)
    (fun error =>
       on_host (console_write ("Failed to cleanup message queue: "
                               +:+ error_message error))).

(** [isOnline()] and [getQueueSize()] *)
Definition isOnline : Q bool :=
  s <- get_state ;;
  ret (match networkStatus s with online => true | _ => false end).

Definition getQueueSize : Q nat := s <- get_state ;; ret (length (outbox s)).

(** *** Conflict resolution *)

(** A message of a conversation as [resolveMessageConflicts] reads it:
    its [content] and its [timestamp]; [msg_id] stands for the rest of
    the record. *)
Record ConversationMessage := {
  msg_id : string;
  msg_content : string;
  msg_timestamp : Z
}.

(** The key [`${message.content}-${message.timestamp}`] *)
Definition conflict_key (m : ConversationMessage) : string :=
  msg_content m +:+ "-" +:+ pretty (msg_timestamp m).

(** The loop that keeps the first message of every key; [seen] is the
    [Set] of the keys met so far. *)
Fixpoint unique_messages (seen : gset string) (sortedMessages : list ConversationMessage)
  : list ConversationMessage :=
  match sortedMessages with
  | [] => []
  | m :: rest =>
      let key := conflict_key m in
      if decide (key ∈ seen) then unique_messages seen rest
      else m :: unique_messages ({[key]} ∪ seen) rest
  end.

(** The comparator handed to [sort]: [(a, b) => a.timestamp - b.timestamp],
    and the order it sorts by. *)
Definition by_timestamp (a b : ConversationMessage) : Z :=
  msg_timestamp a - msg_timestamp b.

Definition oldest_first (a b : ConversationMessage) : Prop :=
  msg_timestamp a <= msg_timestamp b.

Section Conflicts.
(** The two calls to the storage collaborator. *)
Variable getMessages : string -> Q (list ConversationMessage).
Variable storeMessage : string -> list ConversationMessage -> Q unit.

(** [resolveMessageConflicts(conversationId)] *)
Definition resolveMessageConflicts (conversationId : string)
  : Q (list ConversationMessage) :=
  try_catch
    (messages <- getMessages conversationId ;;
     let sortedMessages := sort by_timestamp messages in
     let uniqueMessages := unique_messages ∅ sortedMessages in
     storeMessage conversationId uniqueMessages ;;;
     ret uniqueMessages)
    (fun error =>
       on_host (console_write ("Failed to resolve message conflicts: "
                               +:+ error_message error)) ;;;
       ret []).
End Conflicts.

(** The ids handed to [sendMessage] since [s]. *)
Definition delivered_since (s s' : State) (extra : list string) : Prop :=
  deliveries s' = deliveries s ++ extra.

(** The keys of the [Map] are distinct. *)
Definition distinct_keys (s : State) : Prop := List.NoDup (map id (outbox s)).


End AmiXMessageQueue.

(** * [storage.js]: what [AmiXStorage] keeps in the secure store *)
Module AmiXStorage.
Import AmiXCrypto.
Local Open Scope Z_scope.
Local Open Scope js_scope.

(** The device: the host, and the items of [expo-secure-store], here a
    store that keeps every item it is given and never fails. *)
Record Device := { host : World; items : gmap string string }.

Definition D (A : Type) : Type := SM Device A.

Definition on_host {A} (m : M A) : D A :=
  fun d => let (r, w) := m (host d) in (r, {| host := w; items := items d |}).

(** [SecureStore.getItemAsync(key)]; [None] is [null]. *)
Definition getItemAsync (key : string) : D (option string) :=
  fun d => (Ok (items d !! key), d).

(** [SecureStore.setItemAsync(key, value)] *)
Definition setItemAsync (key value : string) : D unit :=
  fun d => (Ok tt, {| host := host d; items := <[key := value]> (items d) |}).

(** [!value] for what [getItemAsync] gave: [null] and the empty string. *)
Definition absent (value : option string) : bool :=
  match value with
  | Some (String _ _) => false
  | _ => true
  end.

(** [getStorageKey()] *)
Definition getStorageKey : D string :=
  try_catch
    (deviceId <- getItemAsync "amix_device_id" ;;
     if absent deviceId then
       newDeviceId <- on_host generateSecureUUID ;;
       setItemAsync "amix_device_id" newDeviceId ;;;
       ret newDeviceId
     else ret (default EmptyString deviceId))
    (fun error => ret "amix_default_storage_key"%string).

(** [{ chainKey: storageKey }], the second argument of [encryptMessage]
    and [decryptMessage]: the fields the object lacks are written empty
    and [0]. *)
Definition chain_of (storageKey : string) : RatchetState.t :=
  {| RatchetState.rootKey := EmptyString;
     RatchetState.chainKey := storageKey;
     RatchetState.ourPrivateKey := EmptyString;
     RatchetState.theirPublicKey := EmptyString;
     RatchetState.messageCount := 0;
     RatchetState.timestamp := 0 |}.

(** [{ ciphertext: data.encrypted, nonce: data.nonce }], the first
    argument of [decryptMessage]: it has no [version], no [messageCount]
    and no [aad]. *)
Definition envelope_of (encrypted nonce : string) : Envelope.t :=
  {| Envelope.ciphertext := encrypted;
     Envelope.nonce := nonce;
     Envelope.aad := EmptyString;
     Envelope.messageCount := None;
     Envelope.timestamp := 0;
     Envelope.version := None |}.

(** Every item but the device id is as it was. *)
Definition same_items (d d' : Device) : Prop :=
  forall key : string, key <> "amix_device_id"%string -> items d' !! key = items d !! key.

Definition quote_mark : string := String (ascii_of_N 34) EmptyString.

(** [JSON.stringify({ encrypted, nonce, timestamp })] for two texts in
    base64 and a whole number. *)
Definition stored_item (encrypted nonce : string) (timestamp : Z) : string :=
  "{" +:+ quote_mark +:+ "encrypted" +:+ quote_mark +:+ ":"
      +:+ quote_mark +:+ encrypted +:+ quote_mark
  +:+ "," +:+ quote_mark +:+ "nonce" +:+ quote_mark +:+ ":"
      +:+ quote_mark +:+ nonce +:+ quote_mark
  +:+ "," +:+ quote_mark +:+ "timestamp" +:+ quote_mark +:+ ":" +:+ pretty timestamp
  +:+ "}".

Section Json.
Context {nacl : NaCl}.

(** The values handed to the store and read from it, with the host's
    [JSON.stringify] and [JSON.parse], which throw on what they cannot
    write or read, and the reading of a field that holds a text,
    [data.encrypted], which throws on [null]. *)
Variable Json : Type.
Variable JSON_stringify : Json -> result string.
Variable JSON_parse : string -> result Json.
Variable field : Json -> string -> result string.

(** [encryptForStorage(data)] *)
Definition encryptForStorage (data : Json) : D string :=
  try_catch
    (storageKey <- getStorageKey ;;
     dataString <- lift (JSON_stringify data) ;;
     let dataBytes := utf8_encode dataString in
     nonce <- on_host (generateRandomBytes 24) ;;
     encrypted <- on_host (encryptMessage (Text dataString) (chain_of storageKey)
                             no_options) ;;
     now <- on_host Date_now ;;
     ret (stored_item (Envelope.ciphertext (fst encrypted))
            (Envelope.nonce (fst encrypted)) now))
    (fun error => throw (Error ("Encryption failed: " +:+ error_message error))).

(** [decryptFromStorage(encryptedData)] *)
Definition decryptFromStorage (encryptedData : string) : D Json :=
  try_catch
    (data <- lift (JSON_parse encryptedData) ;;
     storageKey <- getStorageKey ;;
     encrypted <- lift (field data "encrypted") ;;
     nonce <- lift (field data "nonce") ;;
     decrypted <- on_host (decryptMessage (envelope_of encrypted nonce)
                             (chain_of storageKey) no_options) ;;
     lift (JSON_parse (GroupCrypto.bytes_text decrypted)))
    (fun error => throw (Error ("Decryption failed: " +:+ error_message error))).

(** [storeSecurely(key, value)] *)
Definition storeSecurely (key : string) (value : Json) : D bool :=
  try_catch
    (encryptedValue <- encryptForStorage value ;;
     setItemAsync key encryptedValue ;;;
     ret true)
    (fun error =>
       on_host (console_write ("Secure storage failed: " +:+ error_message error)) ;;;
       ret false).

(** [getSecurely(key)]; [None] is [null]. *)
Definition getSecurely (key : string) : D (option Json) :=
  try_catch
    (encryptedValue <- getItemAsync key ;;
     if absent encryptedValue then ret None
     else
       value <- decryptFromStorage (default EmptyString encryptedValue) ;;
       ret (Some value))
    (fun error =>
       on_host (console_write ("Secure retrieval failed: " +:+ error_message error)) ;;;
       ret None).

End Json.

End AmiXStorage.

(** * Sample inputs on which the code is run *)
Module Samples.
Import AmiXCrypto.
Local Open Scope Z_scope.

(** A host whose random bytes count up from zero. *)
Definition sample_world : World :=
  {| clock := fun n => 1700000000000 + Z.of_nat n;
     clock_reads := 0;
     entropy := fun n => Z.of_nat n mod 256;
     entropy_used := 0;
     uniform := fun _ => 0;
     uniform_used := 0;
     timers := [];
     timers_created := 1;
     console := [] |}.

(** Another host, whose random bytes count down. *)
Definition other_world : World :=
  {| clock := fun n => 1700000000500 + Z.of_nat n;
     clock_reads := 0;
     entropy := fun n => (255 - Z.of_nat n) mod 256;
     entropy_used := 0;
     uniform := fun _ => 0;
     uniform_used := 0;
     timers := [];
     timers_created := 1;
     console := [] |}.

(** The first host an hour later. *)
Definition later_world : World :=
  {| clock := fun n => 1700003600000 + Z.of_nat n;
     clock_reads := 0;
     entropy := fun n => Z.of_nat n mod 256;
     entropy_used := 0;
     uniform := fun _ => 0;
     uniform_used := 0;
     timers := [];
     timers_created := 1;
     console := [] |}.

(** The two key pairs of RFC 7748, section 6.1, in base64. *)
Definition alice_private : string := "dwdtCnMYpX08FsFyUbJmRd9ML4frwJkqsXf7pR25LCo=".
Definition alice_public : string := "hSDwCYkwp1R0i33ctD73Wg2/Og0mOBr066SpjqqbTmo=".
Definition bob_private : string := "XasIfmJKikt54X+Lg4AO5m87sSkmGLb9HC+LJ/+I4Os=".
Definition bob_public : string := "3p7bfXt9wbTTW2HC7OQ1Nz+DQ8hbeGdNrfx+FG+IK08=".

(** A ratchet state as a receiver holds it. *)
Definition sample_session : RatchetState.t :=
  {| RatchetState.rootKey := "cm9vdA==";
     RatchetState.chainKey := "Y2hhaW4=";
     RatchetState.ourPrivateKey := bob_private;
     RatchetState.theirPublicKey := alice_public;
     RatchetState.messageCount := 0;
     RatchetState.timestamp := 1690000000000 |}.

(** An envelope of a version no release of the protocol knows.  Its
    ciphertext seals the two header bytes and the text ["attack at dawn"]
    under the message key [sample_session] yields on [sample_world]. *)
Definition foreign_envelope : Envelope.t :=
  {| Envelope.ciphertext := "dGpfjITF8jqUjiDmGJm+5oIrRwi2kUXpaFX2rLYvkRU=";
     Envelope.nonce := "BwcHBwcHBwcHBwcHBwcHBwcHBwcHBwcH";
     Envelope.aad := EmptyString;
     Envelope.messageCount := Some 1;
     Envelope.timestamp := 1700000000000;
     Envelope.version := Some "unknown-9.9.9-padded"%string |}.

(** What [encryptMessage] would send were [addPadding] bound to the
    identity and every imported name to the function it is called as. *)
Definition sent_hello : result (Envelope.t * RatchetState.t) :=
  fst (encryptMessage_in (nacl := reference_nacl) (Some (fun b => b))
         (Text "Hello, AmiX!") sample_session no_options sample_world).

(** An envelope whose version names another cipher. *)
Definition other_cipher_envelope : Envelope.t :=
  with_version (Some "aes256gcm-2.0.0"%string) foreign_envelope.

(** A key set after [markKeyAsCompromised]: the current key is flagged,
    and the history holds a key whose expiry date is past. *)
Definition expired_key : IdentityKey.t :=
  {| IdentityKey.keyId := "key-2021";
     IdentityKey.privateKey := bob_private;
     IdentityKey.publicKey := bob_public;
     IdentityKey.createdAt := 1600000000000;
     IdentityKey.expiresAt := 1631536000000;
     IdentityKey.isCompromised := false |}.

Definition compromised_key : IdentityKey.t :=
  {| IdentityKey.keyId := "key-2023";
     IdentityKey.privateKey := alice_private;
     IdentityKey.publicKey := alice_public;
     IdentityKey.createdAt := 1690000000000;
     IdentityKey.expiresAt := 1721536000000;
     IdentityKey.isCompromised := true |}.

Definition compromised_keys : IdentityKeys.t :=
  {| IdentityKeys.current := compromised_key;
     IdentityKeys.previous := Some [expired_key];
     IdentityKeys.lastRotated := 1690000000000;
     IdentityKeys.rotationInterval := 30 * day;
     IdentityKeys.nextRotation := 1690000000000 + 30 * day |}.

(** Two P-256 public keys (the base point and its double) as JWK. *)
Definition web_key_1 : WebCrypto.EcJwk :=
  {| WebCrypto.crv := "P-256"; WebCrypto.ext := true; WebCrypto.key_ops := [];
     WebCrypto.kty := "EC";
     WebCrypto.x := "axfR8uEsQkf4vOblY6RA8ncDfYEt6zOg9KE5RdiYwpY";
     WebCrypto.y := "T-NC4v4af5uO5-tKfA-eFivOM1drMV7Oy7ZAaDe_UfU" |}.

Definition web_key_2 : WebCrypto.EcJwk :=
  {| WebCrypto.crv := "P-256"; WebCrypto.ext := true; WebCrypto.key_ops := [];
     WebCrypto.kty := "EC";
     WebCrypto.x := "fPJ7GI0DT36KUjgDBLUaw8CJaeJ38hs1pgtI_EdmmXg";
     WebCrypto.y := "B3dVENuO0EApPZrGn3Qw27p9reY86YIpngS3nSJ4c9E" |}.

(** *** A group of two *)
Import GroupCrypto.

Definition sample_keys : IdentityKeys.t :=
  {| IdentityKeys.current :=
       {| IdentityKey.keyId := "group-key-1";
          IdentityKey.privateKey := alice_private;
          IdentityKey.publicKey := alice_public;
          IdentityKey.createdAt := 1690000000000;
          IdentityKey.expiresAt := 1721536000000;
          IdentityKey.isCompromised := false |};
     IdentityKeys.previous := Some [];
     IdentityKeys.lastRotated := 1690000000000;
     IdentityKeys.rotationInterval := 30 * day;
     IdentityKeys.nextRotation := 1690000000000 + 30 * day |}.

Definition alice_member : Member :=
  {| publicKey := alice_public; privateKey := alice_private; isAdmin := true |}.

Definition bob_member : Member :=
  {| publicKey := bob_public; privateKey := bob_private; isAdmin := false |}.

Definition sample_group : GroupState :=
  {| groupId := "g1";
     members := <["alice" := alice_member]> (<["bob" := bob_member]> ∅);
     signingKeyPair :=
       {| signing_publicKey := alice_public; signing_privateKey := alice_private |};
     encryptionKeyPair := sample_keys;
     keyRotationInterval := ROTATION_INTERVALS.MEDIUM;
     nextKeyRotation := 1700000000000 + 3 * day;
     createdAt := 1690000000000;
     updatedAt := 1690000000000;
     lastKeyRotation := 1690000000000;
     version := "1.0.0";
     rotationTimer := None |}.

(** The group with the two sessions between its members stored. *)
Definition sample_env : Env :=
  {| host := sample_world;
     storage :=
       {| groups := <["g1" := sample_group]> ∅;
          ratchetStates :=
            <["g1:alice:bob" := sample_session]>
              (<["g1:bob:alice" := sample_session]> ∅) |} |}.

(** The group with no session stored. *)
Definition sessionless_env : Env :=
  {| host := sample_world;
     storage := {| groups := <["g1" := sample_group]> ∅; ratchetStates := ∅ |} |}.

(** A message of alice to the group, with its entry for bob; JSON values
    are texts here. *)
Definition sample_group_message : GroupMessage string :=
  {| messageId := "6f1c2d3e";
     senderId := Some "alice"%string;
     sender := None;
     timestamp := 1700000000000;
     type := "regular";
     metadata := None;
     encryptedMessages :=
       [{| entry_recipientId := "bob"; entry_envelope := foreign_envelope |}];
     signature := EmptyString;
     messageCount := Some 1 |}.

Definition sample_options : DecryptOptions :=
  {| skipAadVerification := false; skipSignatureVerification := false;
     isRetry := false |}.

Definition sample_stringify (aad : Aad string) (messageHash : option bytes) : string :=
  "{" +:+ aad_groupId string aad +:+ "," +:+ aad_messageId string aad +:+ "}".

Definition sample_parse (text : string) : option string := None.

(** *** An outbox *)
Import AmiXMessageQueue.

Definition sample_message (to : string) : Message :=
  {| content := "hello"; encryptedData := "b64"; message_recipientId := to;
     message_priority := None |}.

Definition queued (name : string) (prio : string) (at_ : Z) : OutboxItem :=
  {| id := name; message := sample_message "bob"; recipientId := "bob";
     timestamp := at_; retryCount := 0; lastRetry := None; status := pending;
     priority := prio; sentAt := None; failureReason := None; failedAt := None |}.

(** An item whose five retries are used up, and one already failed. *)
Definition exhausted_item : OutboxItem :=
  {| id := "m-exhausted"; message := sample_message "bob"; recipientId := "bob";
     timestamp := 500; retryCount := 5; lastRetry := Some 1699999000000;
     status := pending; priority := "high"; sentAt := None;
     failureReason := None; failedAt := None |}.

Definition failed_item : OutboxItem :=
  {| id := "m-failed"; message := sample_message "bob"; recipientId := "bob";
     timestamp := 400; retryCount := 5; lastRetry := Some 1699999000000;
     status := failed; priority := "normal"; sentAt := None;
     failureReason := Some "max_retries_exceeded"%string;
     failedAt := Some 1699999500000 |}.

(** No peer is connected and the relay refuses. *)
Definition dead_transport : Transport :=
  {| isConnected := fun _ => false;
     sendEncryptedMessage := fun _ => Ok false;
     relay_response_ok := fun _ => Ok false |}.

Definition queue_with (items : list OutboxItem) (net : NetworkStatus) : State :=
  {| outbox := items; networkStatus := net; isProcessing := true;
     world := sample_world; transport := dead_transport; deliveries := [];
     stored := None; message_ids := fun _ => "k3x9"%string; message_ids_used := 0 |}.

(** Three items queued while offline, the least urgent first. *)
Definition three_items : list OutboxItem :=
  [queued "m-low" "low" 1000; queued "m-normal" "normal" 2000;
   queued "m-high" "high" 3000].


(** The three items with an exhausted and a failed one behind them. *)
Definition busy_queue : State :=
  queue_with (three_items ++ [exhausted_item; failed_item]) online.

(** Ticks of the queue across a loss of the network and an hour of time. *)
Definition sample_events : list Event :=
  [QueueTick; NetworkChanged offline; QueueTick; NetworkChanged online;
   HostChanged later_world dead_transport; QueueTick; QueueTick].

(** *** More of the outbox *)

(** An item retried a second ago for the third time, one sent long ago and
    one sent a moment ago. *)
Definition waiting_item : OutboxItem :=
  {| id := "m-waiting"; message := sample_message "bob"; recipientId := "bob";
     timestamp := 600; retryCount := 2; lastRetry := Some 1699999999000;
     status := pending; priority := "normal"; sentAt := None;
     failureReason := None; failedAt := None |}.

Definition old_sent_item : OutboxItem :=
  {| id := "m-old"; message := sample_message "bob"; recipientId := "bob";
     timestamp := 100; retryCount := 0; lastRetry := None;
     status := sent; priority := "normal"; sentAt := Some 1600000000000;
     failureReason := None; failedAt := None |}.

Definition new_sent_item : OutboxItem :=
  {| id := "m-new"; message := sample_message "bob"; recipientId := "bob";
     timestamp := 200; retryCount := 1; lastRetry := Some 1699999990000;
     status := sent; priority := "high"; sentAt := Some 1699999995000;
     failureReason := None; failedAt := None |}.

Definition mixed_queue : State :=
  queue_with [old_sent_item; waiting_item; failed_item; new_sent_item;
              queued "m-fresh" "low" 700] online.


(** *** A conversation with a repeated message *)

Definition hello_at (i : string) (t : Z) : ConversationMessage :=
  {| msg_id := i; msg_content := "hello"; msg_timestamp := t |}.

Definition sample_conversation : list ConversationMessage :=
  [hello_at "c" 3000; hello_at "a" 1000; hello_at "b" 1000; hello_at "d" 2000].

(** A storage that holds the conversation and accepts what it is given. *)
Definition sample_getMessages (conversationId : string) : Q (list ConversationMessage) :=
  ret sample_conversation.

Definition sample_storeMessage (conversationId : string)
    (messages : list ConversationMessage) : Q unit := ret tt.

(** *** More hosts *)

(** A host whose random bytes are all [0xc8], and one whose random bytes
    are all [7]. *)
Definition high_world : World :=
  {| clock := fun n => 1700000000000 + Z.of_nat n;
     clock_reads := 0;
     entropy := fun _ => 200;
     entropy_used := 0;
     uniform := fun _ => 2 ^ 52;
     uniform_used := 0;
     timers := [];
     timers_created := 1;
     console := [] |}.

Definition low_world : World :=
  {| clock := fun n => 1700000000000 + Z.of_nat n;
     clock_reads := 0;
     entropy := fun _ => 7;
     entropy_used := 0;
     uniform := fun _ => 2 ^ 52;
     uniform_used := 0;
     timers := [];
     timers_created := 1;
     console := [] |}.


(** *** Two sides of the web ratchet *)

(** The chain from the first to the second holds 32 bytes of [9], the
    chain back 32 bytes of [5]. *)
Definition first_side : WebCrypto.Ratchet :=
  {| WebCrypto.rootKey := repeat 9 32;
     WebCrypto.sendChain := {| WebCrypto.chain_key := repeat 9 32; WebCrypto.counter := 0 |};
     WebCrypto.receiveChain := {| WebCrypto.chain_key := repeat 5 32; WebCrypto.counter := 0 |} |}.

Definition second_side : WebCrypto.Ratchet :=
  {| WebCrypto.rootKey := repeat 9 32;
     WebCrypto.sendChain := {| WebCrypto.chain_key := repeat 5 32; WebCrypto.counter := 0 |};
     WebCrypto.receiveChain := {| WebCrypto.chain_key := repeat 9 32; WebCrypto.counter := 0 |} |}.

(** An agreement under which every pair of keys derives 32 bytes of [9]. *)
Definition constant_agreement (ours theirs : unit) : result bytes := Ok (repeat 9 32).

End Samples.

(** Splitting the conjunctions that are written out, not those inside
    definitions. *)
Ltac splits := repeat match goal with |- _ /\ _ => split end.

(** * Test vectors of the primitives *)

Example sha256_abc :
  SHA256.hexdigest (utf8_encode "abc")
  = "ba7816bf8f01cfea414140de5dae2223b00361a396177a9cb410ff61f20015ad"%string.
Proof. vm_compute. reflexivity. Qed.

Example sha256_two_blocks :
  SHA256.hexdigest (repeat 97%Z 100)
  = "2816597888e4a0d3a36b82b83316ab32680eb8f00f8cd3b904d681246d285a0e"%string.
Proof. vm_compute. reflexivity. Qed.

Example hmac_rfc4231_case2 :
  bytesToHex (HMAC.hmac_sha256 (utf8_encode "Jefe")
                (utf8_encode "what do ya want for nothing?"))
  = "5bdcc146bf60754e6a042426089575c75a003f089d2739839dec58b964ec3843"%string.
Proof. vm_compute. reflexivity. Qed.

Example hkdf_rfc5869_case1 :
  rmap bytesToHex
    (AmiXCrypto.hkdf (repeat 11%Z 22) (map Z.of_nat (seq 0 13))
       (map Z.of_nat (seq 240 10)) 42)
  = Ok "3cb25f25faacd57a90434f64d0362f2a2d2d0a90cf1a5a4c5db02d56ecc4c5bf34007208d5b887185865"%string.
Proof. vm_compute. reflexivity. Qed.

Example base64_encode_40 :
  Base64.encodeBase64 (map Z.of_nat (seq 0 40))
  = "AAECAwQFBgcICQoLDA0ODxAREhMUFRYXGBkaGxwdHh8gISIjJCUmJw=="%string.
Proof. vm_compute. reflexivity. Qed.

Example base64_decode_40 :
  Base64.decodeBase64 "AAECAwQFBgcICQoLDA0ODxAREhMUFRYXGBkaGxwdHh8gISIjJCUmJw=="
  = Ok (map Z.of_nat (seq 0 40)).
Proof. vm_compute. reflexivity. Qed.

Example x25519_rfc7748_alice_public :
  bytesToHex (X25519.scalarmult_base
    (hexToBytes "77076d0a7318a57d3c16c17251b26645df4c2f87ebc0992ab177fba51db92c2a"))
  = "8520f0098930a754748b7ddcb43ef75a0dbf3a0d26381af4eba4a98eaa9b4e6a"%string.
Proof. vm_compute. reflexivity. Qed.

Example x25519_rfc7748_bob_public :
  bytesToHex (X25519.scalarmult_base
    (hexToBytes "5dab087e624a8a4b79e17f8b83800ee66f3bb1292618b6fd1c2f8b27ff88e0eb"))
  = "de9edb7d7b7dc1b4d35b61c2ece435373f8343c85b78674dadfc7e146f882b4f"%string.
Proof. vm_compute. reflexivity. Qed.

Example x25519_rfc7748_shared :
  bytesToHex (X25519.scalarmult
    (hexToBytes "77076d0a7318a57d3c16c17251b26645df4c2f87ebc0992ab177fba51db92c2a")
    (hexToBytes "de9edb7d7b7dc1b4d35b61c2ece435373f8343c85b78674dadfc7e146f882b4f"))
  = "4a5d9d5ba4ce2de1728e3bf480350f25e07e21c947d19e3376f09b3c1e161742"%string.
Proof. vm_compute. reflexivity. Qed.

Example poly1305_rfc8439 :
  bytesToHex (XSalsa20Poly1305.poly1305
    (utf8_encode "Cryptographic Forum Research Group")
    (hexToBytes "85d6be7857556d337f4452fe42d506a80103808afb0db2fd4abff6af4149f51b"))
  = "a8061dc1305136c6c22b8baf0c0127a9"%string.
Proof. vm_compute. reflexivity. Qed.

(** The first block of the test of [crypto_secretbox] in NaCl. *)
Example secretbox_nacl_stream :
  bytesToHex (XSalsa20Poly1305.stream 32
    (hexToBytes "69696ee955b62b73cd62bda875fc73d68219e0036b7a0b37")
    (hexToBytes "1b27556473e985d462cd51197a9a46c76009549eac6474f206c4ee0844f68389"))
  = "eea6a7251c1e72916d11c2cb214d3c252539121d8e234e652d651fa4c8cff880"%string.
Proof. vm_compute. reflexivity. Qed.

Example secretbox_opens_what_it_seals :
  XSalsa20Poly1305.open
    (XSalsa20Poly1305.seal (utf8_encode "hello") (repeat 7%Z 24) (repeat 1%Z 32))
    (repeat 7%Z 24) (repeat 1%Z 32)
  = Some (utf8_encode "hello").
Proof. vm_compute. reflexivity. Qed.

Example secretbox_rejects_another_key :
  XSalsa20Poly1305.open
    (XSalsa20Poly1305.seal (utf8_encode "hello") (repeat 7%Z 24) (repeat 1%Z 32))
    (repeat 7%Z 24) (repeat 2%Z 32)
  = None.
Proof. vm_compute. reflexivity. Qed.

(** * Properties of [AmiXCrypto] *)
Module CryptoFacts.
Import AmiXCrypto Samples.
Local Open Scope Z_scope.

Section Imports.
Context {nacl : NaCl}.

(** *** [encryptMessage] *)

(** C1. whatever the message and the state, [encryptMessage] raises a
    [ReferenceError] at its first statement, before any key is derived:
    no envelope is returned for [decryptMessage] to open. *)
Theorem encryptMessage_throws_ReferenceError
    (message : Message) (ratchetState : RatchetState.t) (options : Options)
    (w : World) :
  encryptMessage message ratchetState options w
  = (Throw (ReferenceError "addPadding is not defined"), w).
Proof. reflexivity. Qed.

End Imports.

(** *** [decryptMessage] *)


(** *** [generateIdentityKeys] *)

Lemma uuid_replace_runs (pattern : list ascii) (randomBytes : bytes) (w : World) :
  exists text w', uuid_replace pattern randomBytes w = (Ok text, w')
    /\ clock w' = clock w /\ clock_reads w' = clock_reads w
    /\ timers w' = timers w /\ timers_created w' = timers_created w.
Proof.
  revert w. induction pattern as [|c pattern IH]; intros w; simpl.
  - exists EmptyString, w. splits; reflexivity.
  - destruct (Ascii.eqb c "x" || Ascii.eqb c "y").
    + unfold bind at 1. unfold Math_random_floor.
      destruct (IH (set_uniform_used (S (uniform_used w)) w))
        as (text & w' & Hrun & H1 & H2 & H3 & H4).
      unfold bind at 1. rewrite Hrun. eexists _, _. split; [reflexivity|].
      splits; assumption.
    + destruct (IH w) as (text & w' & Hrun & H1 & H2 & H3 & H4).
      unfold bind at 1. rewrite Hrun. eexists _, _. split; [reflexivity|].
      splits; assumption.
Qed.

(** C9. [generateIdentityKeys] returns no key set: whatever the input
    key set and the host, its first statement calls [box_keypair], which
    [tweetnacl] does not export, and throws a [TypeError] before a byte
    is drawn, the clock read or a timer armed. *)
Theorem generateIdentityKeys_throws_TypeError
    (previousKeys : option IdentityKeys.t) (w : World) :
  exists msg,
    generateIdentityKeys (nacl := installed) previousKeys w
    = (Throw (TypeError msg), w).
Proof. eexists. reflexivity. Qed.

(** Were every imported name bound to the function it is called as,
    [generateIdentityKeys] would return a key set whose current key is
    new (made from 32 fresh random bytes, not compromised, expiring 365
    days after its creation) and whose history is the first three of the
    old current key followed by the old history, none of them filtered
    out. *)
Lemma generateIdentityKeys_with_reference_imports
    (previousKeys : option IdentityKeys.t) (w : World) :
  exists keys w',
    generateIdentityKeys (nacl := reference_nacl) previousKeys w = (Ok keys, w')
    /\ IdentityKey.privateKey (IdentityKeys.current keys)
       = Base64.encodeBase64 (map (entropy w) (seq (entropy_used w) 32))
    /\ IdentityKey.isCompromised (IdentityKeys.current keys) = false
    /\ IdentityKey.createdAt (IdentityKeys.current keys) = clock w (clock_reads w)
    /\ IdentityKey.expiresAt (IdentityKeys.current keys)
       = clock w (clock_reads w) + 365 * day
    /\ IdentityKeys.previous keys = Some (firstn 3 (carried_over previousKeys))
    /\ (length (firstn 3 (carried_over previousKeys)) <= 3)%nat.
Proof.
  unfold generateIdentityKeys.
  unfold bind at 1. unfold box_keypair, bind at 1, lift at 1.
  cbn [imported import_box_keypair reference_nacl].
  unfold bind at 1. unfold getRandomValues at 1. unfold ret at 1.
  unfold bind at 1. unfold Date_now at 1.
  unfold bind at 1. unfold generateSecureUUID, bind at 1, generateRandomBytes,
    getRandomValues at 1.
  match goal with
  | |- context [uuid_replace ?p ?b ?w0] =>
      destruct (uuid_replace_runs p b w0) as (text & w1 & Hrun & _)
  end.
  rewrite Hrun.
  assert (Hhist : forall l : list IdentityKey.t,
            (if (3 <? length l)%nat then firstn 3 l else l) = firstn 3 l).
  { intros l. destruct (3 <? length l)%nat eqn:E; [reflexivity|].
    apply Nat.ltb_ge in E. symmetry. now apply firstn_all2. }
  destruct previousKeys as [pk|];
    (eexists _, _; split; [reflexivity|]; cbn [IdentityKeys.current IdentityKeys.previous
       IdentityKey.privateKey IdentityKey.isCompromised IdentityKey.createdAt
       IdentityKey.expiresAt carried_over snd fst];
     splits; try reflexivity; try (now rewrite Hhist); apply firstn_le_length).
Qed.

(** *** The code run on the samples *)

(** With the names bound, an envelope of version ["unknown-9.9.9-padded"]
    would pass the version test and be decrypted. *)
Example padded_version_with_reference_imports :
  fst (decryptMessage (nacl := reference_nacl) foreign_envelope sample_session
         no_options sample_world)
  = Ok (utf8_encode "attack at dawn").
Proof. vm_compute. reflexivity. Qed.

(** With the names bound, rotating away from a compromised key would keep
    that key, and the expired one behind it, in the history. *)
Example history_with_reference_imports :
  rmap IdentityKeys.previous
    (fst (generateIdentityKeys (nacl := reference_nacl) (Some compromised_keys)
            sample_world))
  = Ok (Some [compromised_key; expired_key])
  /\ IdentityKey.isCompromised compromised_key = true
  /\ IdentityKey.expiresAt expired_key < clock sample_world 0.
Proof. splits; vm_compute; reflexivity. Qed.

(** *** [performKeyExchange] *)

(** C2. [performKeyExchange] returns no shared secret: whatever the keys
    and the host, its first statement calls [decodeBase64], which is
    bound to nothing, and the call rejects with the error of its [catch]
    before anything is derived.  Neither party obtains a secret, so the
    two never hold the same one. *)
Theorem performKeyExchange_always_rejects
    (theirPublicKey ourPrivateKey : string) (w : World) :
  exists msg,
    performKeyExchange (nacl := installed) theirPublicKey ourPrivateKey w
    = (Throw (Error ("Key exchange failed: " +:+ msg)), w).
Proof. eexists. reflexivity. Qed.

(** Were every imported name bound to the function it is called as, the
    two parties of RFC 7748, each on its own host, would still derive
    different secrets. *)
Example secrets_differ_with_reference_imports :
  let at_alice :=
    fst (performKeyExchange (nacl := reference_nacl) bob_public alice_private
           sample_world) in
  let at_bob :=
    fst (performKeyExchange (nacl := reference_nacl) alice_public bob_private
           other_world) in
  rmap KeyExchange.sharedSecret at_alice
  = Ok "ezmiwz7SL/vdlnIhm7ly58yj7Klvz7yRcHfGlMjwC4s="%string
  /\ rmap KeyExchange.sharedSecret at_bob
     = Ok "maLTYEPg0rrUX+5Qmk/K+bZy4yh9XUj70n9aB+CuwVg="%string
  /\ rmap KeyExchange.sharedSecret at_alice <> rmap KeyExchange.sharedSecret at_bob.
Proof.
  cbv zeta.
  assert (Ha : rmap KeyExchange.sharedSecret
                 (fst (performKeyExchange (nacl := reference_nacl) bob_public
                         alice_private sample_world))
               = Ok "ezmiwz7SL/vdlnIhm7ly58yj7Klvz7yRcHfGlMjwC4s="%string)
    by (vm_compute; reflexivity).
  assert (Hb : rmap KeyExchange.sharedSecret
                 (fst (performKeyExchange (nacl := reference_nacl) alice_public
                         bob_private other_world))
               = Ok "maLTYEPg0rrUX+5Qmk/K+bZy4yh9XUj70n9aB+CuwVg="%string)
    by (vm_compute; reflexivity).
  splits; [exact Ha | exact Hb | rewrite Ha, Hb; discriminate].
Qed.

(** The agreement below the derivation would be the same on both sides:
    the secrets part at the salt [deriveKey] draws. *)
Example agreement_is_symmetric :
  rbind (Base64.decodeBase64 bob_public) (fun theirs =>
    rbind (Base64.decodeBase64 alice_private) (fun ours => reference_box theirs ours))
  = rbind (Base64.decodeBase64 alice_public) (fun theirs =>
      rbind (Base64.decodeBase64 bob_private) (fun ours => reference_box theirs ours)).
Proof. vm_compute. reflexivity. Qed.

Example same_salt_same_secret :
  rmap KeyExchange.sharedSecret
    (fst (performKeyExchange (nacl := reference_nacl) bob_public alice_private
            sample_world))
  = rmap KeyExchange.sharedSecret
      (fst (performKeyExchange (nacl := reference_nacl) alice_public bob_private
              sample_world)).
Proof. vm_compute. reflexivity. Qed.

(** C3. the safety number of two keys changes with their order, in the
    mobile and in the web application. *)
Theorem generateSafetyNumber_depends_on_order :
  generateSafetyNumber alice_public bob_public = Ok "7AE5 007A 2B09"%string
  /\ generateSafetyNumber bob_public alice_public = Ok "985C 42E5 ABA2"%string
  /\ WebCrypto.generateSafetyNumber WebCrypto.stringify_jwk web_key_1 web_key_2
     <> WebCrypto.generateSafetyNumber WebCrypto.stringify_jwk web_key_2 web_key_1.
Proof. splits; vm_compute; [reflexivity | reflexivity | discriminate]. Qed.

(** *** Behind the missing [addPadding] *)

(** Were [addPadding] bound (to the identity, say) and every imported
    name to the function it is called as, a receiver holding the sender's
    earlier state still could not open the envelope: it derives the
    message key under a salt of its own. *)
Example receiver_on_its_own_host_fails :
  rbind sent_hello (fun sent =>
    fst (decryptMessage (nacl := reference_nacl) (fst sent) sample_session
           no_options other_world))
  = Throw (Error "Message decryption failed: Decryption failed - invalid ciphertext or key").
Proof. vm_compute. reflexivity. Qed.

(** Only a receiver that happens to draw the sender's salt (here: the
    sender's host after the 1012 padding bytes were drawn) opens it. *)
Example receiver_with_the_senders_salt_succeeds :
  rbind sent_hello (fun sent =>
    fst (decryptMessage (nacl := reference_nacl) (fst sent) sample_session
           no_options (set_entropy_used 1012 sample_world)))
  = Ok (utf8_encode "Hello, AmiX!").
Proof. vm_compute. reflexivity. Qed.

(** And even then a message of 255 bytes comes back 1023 bytes long: its
    length byte reads as the marker of a long message, and the padding
    length was cut to one byte. *)
Example long_message_comes_back_padded :
  rmap (fun b => length b)
    (rbind (fst (encryptMessage_in (nacl := reference_nacl) (Some (fun b => b))
                   (Binary (repeat 65 255)) sample_session no_options sample_world))
       (fun sent =>
          fst (decryptMessage (nacl := reference_nacl) (fst sent) sample_session
                 no_options (set_entropy_used 769 sample_world))))
  = Ok 1023%nat.
Proof. vm_compute. reflexivity. Qed.

End CryptoFacts.

(** * Properties of [GroupCrypto] *)
Module VersionFacts.
Import GroupCrypto.
Local Open Scope N_scope.

Lemma digit_value_char d : d < 10 -> digit_value (pretty_N_char d) = Some d.
Proof.
  intros H.
  assert (d = 0 \/ d = 1 \/ d = 2 \/ d = 3 \/ d = 4 \/ d = 5 \/ d = 6 \/ d = 7
          \/ d = 8 \/ d = 9) as Hd by lia.
  repeat (destruct Hd as [-> | Hd]; [reflexivity|]). now subst.
Qed.

Lemma char_not_dot d : Ascii.eqb (pretty_N_char d) "." = false.
Proof. unfold pretty_N_char. repeat case_match; reflexivity. Qed.

Lemma parse_pretty_go x :
  forall s acc, exists k,
    parse_digits acc (pretty_N_go x s) = parse_digits (acc * 10 ^ k + x) s.
Proof.
  induction (N.lt_wf_0 x) as [x _ IH]. intros s acc.
  destruct (N.eq_dec x 0) as [-> | Hx].
  - exists 0. rewrite pretty_N_go_0. f_equal. lia.
  - rewrite pretty_N_go_step by lia.
    destruct (IH (x / 10)) with (s := String (pretty_N_char (x mod 10)) s) (acc := acc)
      as [k Hk].
    { apply N.div_lt; lia. }
    exists (N.succ k). rewrite Hk. simpl.
    rewrite digit_value_char by (apply N.mod_lt; lia).
    f_equal. rewrite N.pow_succ_r'. pose proof (N.div_mod x 10). lia.
Qed.

Lemma Number_pretty (n : N) : Number (pretty n) = Some n.
Proof.
  unfold Number, pretty, pretty_N. case_decide as H.
  - now subst.
  - destruct (parse_pretty_go n "" 0) as [k ->]. reflexivity.
Qed.

Lemma no_dot_pretty_go x : forall s, no_dot s = true -> no_dot (pretty_N_go x s) = true.
Proof.
  induction (N.lt_wf_0 x) as [x _ IH]. intros s Hs.
  destruct (N.eq_dec x 0) as [-> | Hx].
  - now rewrite pretty_N_go_0.
  - rewrite pretty_N_go_step by lia. apply IH.
    + apply N.div_lt; lia.
    + simpl. now rewrite char_not_dot.
Qed.

Lemma no_dot_pretty (n : N) : no_dot (pretty n) = true.
Proof.
  unfold pretty, pretty_N. case_decide; [reflexivity|].
  now apply no_dot_pretty_go.
Qed.

Lemma split_dots_not_nil s : split_dots s <> [].
Proof.
  destruct s as [|c s]; simpl; [discriminate|].
  destruct (Ascii.eqb c "."); [discriminate|].
  destruct (split_dots s); discriminate.
Qed.

Lemma split_dots_app s rest :
  no_dot s = true -> split_dots (s +:+ "." +:+ rest) = s :: split_dots rest.
Proof.
  induction s as [|c s IH]; simpl; intros Hs.
  - reflexivity.
  - apply andb_true_iff in Hs as [Hc Hs]. apply negb_true_iff in Hc.
    rewrite Hc, (IH Hs). reflexivity.
Qed.

Lemma split_dots_no_dot s : no_dot s = true -> split_dots s = [s].
Proof.
  induction s as [|c s IH]; simpl; intros Hs; [reflexivity|].
  apply andb_true_iff in Hs as [Hc Hs]. apply negb_true_iff in Hc.
  now rewrite Hc, (IH Hs).
Qed.

Lemma split_dots_dotted (parts : list N) :
  parts <> [] -> split_dots (dotted parts) = map pretty parts.
Proof.
  unfold dotted. induction parts as [|n parts IH]; intros Hne; [contradiction|].
  destruct parts as [|m parts].
  - simpl. apply split_dots_no_dot, no_dot_pretty.
  - change (join "." (map pretty (n :: m :: parts)))
      with (pretty n +:+ "." +:+ join "." (map pretty (m :: parts))).
    rewrite split_dots_app by apply no_dot_pretty.
    rewrite IH by discriminate. reflexivity.
Qed.

Lemma increment_last_app (ps : list (option N)) (p : option N) :
  increment_last (ps ++ [p]) = ps ++ [option_map N.succ p].
Proof.
  induction ps as [|q ps IH]; simpl; [reflexivity|].
  rewrite IH. destruct ps; reflexivity.
Qed.

(** On a version written as numbers joined by dots, [_incrementVersion]
    adds one to the last number and keeps the others. *)
Lemma incrementVersion_dotted (parts : list N) (n : N) :
  _incrementVersion (dotted (parts ++ [n])) = dotted (parts ++ [N.succ n]).
Proof.
  unfold _incrementVersion.
  rewrite split_dots_dotted by (destruct parts; discriminate).
  rewrite map_map.
  rewrite (map_ext _ (fun n => Some n)) by (intros; apply Number_pretty).
  rewrite map_app. simpl. rewrite increment_last_app. simpl.
  unfold dotted. rewrite !map_app, map_map. simpl. reflexivity.
Qed.

Example incrementVersion_initial : _incrementVersion "1.0.0" = "1.0.1"%string.
Proof. reflexivity. Qed.

End VersionFacts.

Module GroupFacts.
Import AmiXCrypto GroupCrypto VersionFacts Samples.
Local Open Scope Z_scope.


(** C4. a target that is no member but a name the member table inherits
    passes the member test: the version moves on and the group is stored
    again. *)
Example removeMember_accepts_inherited_name :
  let run := removeMember "g1" {| user_id := "alice" |} "toString" sample_env in
  members sample_group !! "toString" = None
  /\ rmap version (fst run) = Ok "1.0.1"%string
  /\ rmap members (fst run) = Ok (members sample_group).
Proof. cbv zeta. splits; vm_compute; reflexivity. Qed.




(** *** [decryptGroupMessage] *)

Section DecryptFacts.
Context {nacl : NaCl}.
Local Opaque decryptMessage verifyMessageIntegrity performKeyExchange createRatchetState.
Variable Json : Type.
Variable JSON_stringify : Aad Json -> option bytes -> string.
Variable JSON_parse : string -> option Json.

Abbreviation decryptGroupMessage := (decryptGroupMessage Json JSON_stringify JSON_parse).

(** C7. when the group and the entry for the recipient are there and no
    session is stored for the pair, the call fails at once: the error
    raised for the missing session does not hold the words the recovery
    is keyed on. *)
Theorem decryptGroupMessage_missing_session
    (fuel : nat) (e : Env) (gid : string) (message : GroupMessage Json)
    (rid : string) (options : DecryptOptions) (g : GroupState)
    (entry : EncryptedEntry) :
  groups (storage e) !! gid = Some g ->
  addressed_to Json rid message = Some entry ->
  ratchetStates (storage e) !! ratchet_key gid (sender_of Json message) rid = None ->
  exists e',
    decryptGroupMessage (S fuel) gid message rid options e
    = (Throw (Error "No active session with sender"), e')
    /\ storage e' = storage e
    /\ console (host e')
       = console (host e)
         ++ ["Failed to decrypt group message: No active session with sender"%string]
    /\ recovery_attempts (console (host e')) = recovery_attempts (console (host e))
    /\ entropy_used (host e') = entropy_used (host e).
Proof.
  intros Hg Hentry Hnone.
  eexists. simpl.
  unfold try_catch, bind, decrypt_body, bind, getGroup, get_store, ret. simpl.
  rewrite Hg, Hentry.
  unfold _getRatchetState, try_catch, bind, getRatchetState, get_store, ret. simpl.
  rewrite Hnone. simpl.
  splits; try reflexivity.
  unfold recovery_attempts. cbn [host console set_console].
  rewrite List.filter_app, length_app. simpl. lia.
Qed.

(** The flag [isRetry] that the retry sets is read nowhere: the call
    behaves the same whatever its value. *)
Lemma decryptGroupMessage_ignores_isRetry
    (fuel : nat) (gid : string) (message : GroupMessage Json) (rid : string)
    (o : DecryptOptions) (retry : bool) (e : Env) :
  decryptGroupMessage fuel gid message rid
    {| skipAadVerification := skipAadVerification o;
       skipSignatureVerification := skipSignatureVerification o;
       isRetry := retry |} e
  = decryptGroupMessage fuel gid message rid o e.
Proof.
  destruct fuel as [|fuel]; reflexivity.
Qed.

End DecryptFacts.

Lemma decryptGroupMessage_missing_session_witness :
  groups (storage sessionless_env) !! "g1" = Some sample_group
  /\ addressed_to string "bob" sample_group_message
     = Some {| entry_recipientId := "bob"; entry_envelope := foreign_envelope |}
  /\ ratchetStates (storage sessionless_env)
       !! ratchet_key "g1" (sender_of string sample_group_message) "bob" = None
  /\ exists e',
       decryptGroupMessage string sample_stringify sample_parse 3 "g1"
         sample_group_message "bob" sample_options sessionless_env
       = (Throw (Error "No active session with sender"), e')
       /\ recovery_attempts (console (host e')) = 0%nat.
Proof.
  assert (Hg : groups (storage sessionless_env) !! "g1" = Some sample_group)
    by reflexivity.
  assert (Hentry : addressed_to string "bob" sample_group_message
                   = Some {| entry_recipientId := "bob";
                             entry_envelope := foreign_envelope |})
    by reflexivity.
  assert (Hnone : ratchetStates (storage sessionless_env)
                    !! ratchet_key "g1" (sender_of string sample_group_message) "bob"
                  = None)
    by reflexivity.
  splits; auto.
  destruct (decryptGroupMessage_missing_session string sample_stringify sample_parse
              2 sessionless_env "g1" sample_group_message "bob" sample_options
              sample_group _ Hg Hentry Hnone)
    as (e' & Hrun & _ & _ & Hrec & _).
  exists e'. split; [exact Hrun | exact Hrec].
Defined.

End GroupFacts.

(** * Properties of the message queue *)
Module QueueFacts.
Import AmiXMessageQueue Samples.
Local Open Scope Z_scope.

(** *** The outbox as a map *)

Lemma outbox_get_Some (k : string) (o : list OutboxItem) (x : OutboxItem) :
  outbox_get k o = Some x -> id x = k /\ In x o.
Proof.
  unfold outbox_get. intros H. apply find_some in H as [Hin Heq].
  apply String.eqb_eq in Heq. auto.
Qed.

Lemma outbox_get_None (k : string) (o : list OutboxItem) :
  outbox_get k o = None -> ~ In k (map id o).
Proof.
  unfold outbox_get. intros H Hin. apply in_map_iff in Hin as (x & Hx & Hin).
  pose proof (find_none _ _ H x Hin) as Hf. simpl in Hf.
  rewrite <- Hx, String.eqb_refl in Hf. discriminate.
Qed.

Lemma outbox_get_NoDup (o : list OutboxItem) (x : OutboxItem) :
  List.NoDup (map id o) -> In x o -> outbox_get (id x) o = Some x.
Proof.
  induction o as [|y o IH]; simpl; intros Hnd Hin; [contradiction|].
  inversion Hnd as [|? ? Hny Hnd']; subst.
  destruct Hin as [->|Hin].
  - now rewrite String.eqb_refl.
  - destruct (String.eqb_spec (id y) (id x)) as [Heq|Hne].
    + exfalso. apply Hny. rewrite Heq. now apply in_map.
    + now apply IH.
Qed.

Lemma outbox_set_ids (k : string) (v x : OutboxItem) (o : list OutboxItem) :
  outbox_get k o = Some x -> id v = k ->
  map id (outbox_set k v o) = map id o.
Proof.
  intros Hget Hv. induction o as [|y o IH]; simpl in *; [discriminate|].
  destruct (String.eqb_spec (id y) k) as [Heq|Hne]; simpl.
  - congruence.
  - f_equal. now apply IH.
Qed.

Lemma outbox_get_set_eq (k : string) (v x : OutboxItem) (o : list OutboxItem) :
  outbox_get k o = Some x -> id v = k ->
  outbox_get k (outbox_set k v o) = Some v.
Proof.
  intros Hget Hv. induction o as [|y o IH]; simpl in *; [discriminate|].
  destruct (String.eqb_spec (id y) k) as [Heq|Hne]; simpl.
  - rewrite Hv. now rewrite String.eqb_refl.
  - destruct (String.eqb_spec (id y) k); [contradiction|]. now apply IH.
Qed.

Lemma outbox_get_set_ne (k k' : string) (v : OutboxItem) (o : list OutboxItem) :
  k' <> k -> id v = k ->
  outbox_get k' (outbox_set k v o) = outbox_get k' o.
Proof.
  intros Hne Hv. induction o as [|y o IH]; simpl.
  - rewrite Hv. destruct (String.eqb_spec k k'); congruence.
  - destruct (String.eqb_spec (id y) k) as [Heq|Hne']; simpl.
    + rewrite Hv, Heq. destruct (String.eqb_spec k k'); congruence.
    + now rewrite IH.
Qed.


(** *** Running the monad *)

Lemma bind_ok {S A B} (m : SM S A) (k : A -> SM S B) (s s' : S) (a : A) :
  m s = (Ok a, s') -> bind m k s = k a s'.
Proof. unfold bind. now intros ->. Qed.

Lemma try_catch_ok {S A} (m : SM S A) (h : js_error -> SM S A) (s s' : S) (a : A) :
  m s = (Ok a, s') -> try_catch m h s = (Ok a, s').
Proof. unfold try_catch. now intros ->. Qed.

(** *** What the marking functions change *)

Lemma same_but_refl k o : same_but k o o.
Proof. split; auto. Qed.

Lemma same_but_set k v x o :
  outbox_get k o = Some x -> id v = k -> same_but k o (outbox_set k v o).
Proof.
  intros Hget Hv. split.
  - eapply outbox_set_ids; eauto.
  - intros k' Hne. now apply outbox_get_set_ne.
Qed.

Lemma marked_same_but f k o :
  (forall x, id (f x) = id x) -> same_but k o (marked f k o).
Proof.
  intros Hf. unfold marked. destruct (outbox_get k o) as [x|] eqn:Hget.
  - apply outbox_get_Some in Hget as Hid. eapply same_but_set; eauto.
    rewrite Hf. tauto.
  - apply same_but_refl.
Qed.

Lemma marked_get f k o x :
  (forall x, id (f x) = id x) ->
  outbox_get k o = Some x -> outbox_get k (marked f k o) = Some (f x).
Proof.
  intros Hf Hget. unfold marked. rewrite Hget.
  apply outbox_get_Some in Hget as Hid.
  eapply outbox_get_set_eq; eauto. rewrite Hf. tauto.
Qed.

Lemma markMessageSent_run k s :
  exists s', markMessageSent k s = (Ok tt, s')
    /\ same_surroundings s s' /\ deliveries s' = deliveries s
    /\ outbox s' = marked (as_sent (now_of s)) k (outbox s).
Proof.
  unfold markMessageSent, marked, try_catch, bind, get_state.
  destruct (outbox_get k (outbox s)) as [x|]; simpl;
    eexists; (split; [reflexivity|]); repeat split.
Qed.

Lemma markMessageRetry_run k s :
  exists s', markMessageRetry k s = (Ok tt, s')
    /\ same_surroundings s s' /\ deliveries s' = deliveries s
    /\ outbox s' = marked (as_retry (now_of s)) k (outbox s).
Proof.
  unfold markMessageRetry, marked, try_catch, bind, get_state.
  destruct (outbox_get k (outbox s)) as [x|]; simpl;
    eexists; (split; [reflexivity|]); repeat split.
Qed.

Lemma markMessageFailed_run k reason s :
  exists s', markMessageFailed k reason s = (Ok tt, s')
    /\ same_surroundings s s' /\ deliveries s' = deliveries s
    /\ outbox s' = marked (as_failed (now_of s) reason) k (outbox s).
Proof.
  unfold markMessageFailed, marked, try_catch, bind, get_state.
  destruct (outbox_get k (outbox s)) as [x|]; simpl;
    eexists; (split; [reflexivity|]); repeat split.
Qed.

Lemma sendMessage_run y s :
  exists b s', sendMessage y s = (Ok b, s')
    /\ same_surroundings s s' /\ deliveries s' = deliveries s ++ [id y]
    /\ outbox s' = outbox s.
Proof.
  unfold sendMessage, sendViaRelay, try_catch, bind, get_state, modify, lift, ret, on_host.
  simpl.
  destruct (isConnected (transport s) _); simpl.
  - destruct (sendEncryptedMessage (transport s) _) as [[|]|e]; simpl.
    + do 2 eexists. split; [reflexivity|]. repeat split.
    + destruct (relay_response_ok (transport s) _) as [ok|e]; simpl;
        do 2 eexists; (split; [reflexivity|]); repeat split.
    + do 2 eexists. split; [reflexivity|]. repeat split.
  - destruct (relay_response_ok (transport s) _) as [ok|e]; simpl;
      do 2 eexists; (split; [reflexivity|]); repeat split.
Qed.


Lemma same_surroundings_trans s1 s2 s3 :
  same_surroundings s1 s2 -> same_surroundings s2 s3 -> same_surroundings s1 s3.
Proof. unfold same_surroundings. intros [? ?] [? ?]. split; congruence. Qed.

Lemma same_but_trans k o1 o2 o3 :
  same_but k o1 o2 -> same_but k o2 o3 -> same_but k o1 o3.
Proof.
  intros [Hi1 Hg1] [Hi2 Hg2]. split; [congruence|].
  intros k' Hne. rewrite Hg2, Hg1; auto.
Qed.

Lemma as_sent_id now x : id (as_sent now x) = id x.
Proof. reflexivity. Qed.
Lemma as_retry_id now x : id (as_retry now x) = id x.
Proof. reflexivity. Qed.
Lemma as_failed_id now reason x : id (as_failed now reason x) = id x.
Proof. reflexivity. Qed.

(** One call of [processMessage]: it returns, leaves every other entry
    alone, and hands the item to [sendMessage] at most once, never when
    its retries are exhausted and always when it is fresh. *)
Lemma processMessage_run y s :
  exists s' d, processMessage y s = (Ok tt, s')
    /\ same_surroundings s s'
    /\ deliveries s' = deliveries s ++ d
    /\ (d = [] \/ d = [id y])
    /\ same_but (id y) (outbox s) (outbox s')
    /\ (fresh y -> d = [id y])
    /\ ((maxRetries <= retryCount y)%nat ->
        d = [] /\
        outbox s' = marked (as_failed (now_of s) "max_retries_exceeded") (id y) (outbox s)).
Proof.
  unfold processMessage.
  destruct (maxRetries <=? retryCount y)%nat eqn:Hmax.
  - apply Nat.leb_le in Hmax.
    destruct (markMessageFailed_run (id y) "max_retries_exceeded" s)
      as (s' & Hrun & Hsur & Hdel & Hout).
    exists s', []. rewrite (try_catch_ok _ _ _ _ _ Hrun), app_nil_r. splits.
    + reflexivity.
    + exact Hsur.
    + exact Hdel.
    + now left.
    + rewrite Hout. apply marked_same_but, as_failed_id.
    + intros [_ Hlt]. lia.
    + intros _. split; [reflexivity | exact Hout].
  - apply Nat.leb_gt in Hmax.
    (* the state after the back-off test, and its verdict *)
    assert (Hwait : exists (w : bool) s1,
      (match lastRetry y with
       | Some last =>
           if last =? 0 then ret false
           else bind (on_host Date_now) (fun now =>
                  ret (match getRetryDelay (retryCount y) with
                       | Some delay => now - last <? delay
                       | None => false
                       end))
       | None => ret false
       end) s = (Ok w, s1)
      /\ same_surroundings s s1 /\ deliveries s1 = deliveries s
      /\ outbox s1 = outbox s /\ (lastRetry y = None -> w = false)).
    { destruct (lastRetry y) as [last|].
      - destruct (last =? 0).
        + exists false, s. splits; try reflexivity; try discriminate.
          split; reflexivity.
        + eexists _, _. unfold bind, on_host, Date_now, ret. simpl.
          splits; try reflexivity; try discriminate. split; reflexivity.
      - exists false, s. splits; try reflexivity. split; reflexivity. }
    destruct Hwait as (w & s1 & Hrun1 & Hsur1 & Hdel1 & Hout1 & Hfresh1).
    destruct w.
    + exists s1, []. erewrite try_catch_ok;
        [|erewrite bind_ok by exact Hrun1; reflexivity].
      rewrite app_nil_r. splits.
      * reflexivity.
      * exact Hsur1.
      * exact Hdel1.
      * now left.
      * rewrite Hout1. apply same_but_refl.
      * intros [Hnone _]. specialize (Hfresh1 Hnone). discriminate.
      * lia.
    + destruct (sendMessage_run y s1) as (b & s2 & Hrun2 & Hsur2 & Hdel2 & Hout2).
      assert (Hmark : exists s3,
        (if b then markMessageSent (id y) else markMessageRetry (id y)) s2 = (Ok tt, s3)
        /\ same_surroundings s2 s3 /\ deliveries s3 = deliveries s2
        /\ same_but (id y) (outbox s2) (outbox s3)).
      { destruct b.
        - destruct (markMessageSent_run (id y) s2) as (s3 & ? & ? & ? & Ho).
          exists s3. splits; auto. rewrite Ho. apply marked_same_but, as_sent_id.
        - destruct (markMessageRetry_run (id y) s2) as (s3 & ? & ? & ? & Ho).
          exists s3. splits; auto. rewrite Ho. apply marked_same_but, as_retry_id. }
      destruct Hmark as (s3 & Hrun3 & Hsur3 & Hdel3 & Hout3).
      exists s3, [id y]. erewrite try_catch_ok;
        [|erewrite bind_ok by exact Hrun1; cbv beta iota;
          erewrite bind_ok by exact Hrun2; exact Hrun3].
      splits.
      * reflexivity.
      * eauto using same_surroundings_trans.
      * congruence.
      * now right.
      * rewrite <- Hout1, <- Hout2. exact Hout3.
      * reflexivity.
      * lia.
Qed.


(** *** The loop of [processQueue] *)

Lemma sublist_In {A} (k l : list A) (x : A) : sublist k l -> In x k -> In x l.
Proof.
  induction 1 as [|y k l _ IH|y k l _ IH]; simpl; intros Hin; auto.
  destruct Hin; auto.
Qed.

Lemma StronglySorted_sublist {A} (R : A -> A -> Prop) (k l : list A) :
  sublist k l -> StronglySorted R l -> StronglySorted R k.
Proof.
  induction 1 as [|y k l Hsub IH|y k l Hsub IH]; intros Hs; auto.
  - inversion Hs as [|? ? Hs' Hall]; subst. constructor; auto.
    rewrite List.Forall_forall in *. intros x Hx. apply Hall.
    eapply sublist_In; eauto.
  - inversion Hs; subst. auto.
Qed.

Lemma process_all_run items s :
  exists s' attempted, process_all items s = (Ok tt, s')
    /\ same_surroundings s s'
    /\ deliveries s' = deliveries s ++ map id attempted
    /\ sublist attempted items
    /\ (forall x, In x items -> fresh x -> In x attempted)
    /\ (forall x, In x attempted -> (retryCount x < maxRetries)%nat)
    /\ map id (outbox s') = map id (outbox s)
    /\ (forall k, ~ In k (map id items) ->
        outbox_get k (outbox s') = outbox_get k (outbox s)).
Proof.
  revert s. induction items as [|y items IH]; intros s; simpl.
  - exists s, []. simpl. rewrite app_nil_r.
    splits; auto; try (split; reflexivity); try (now intros ? []); constructor.
  - destruct (processMessage_run y s)
      as (s1 & d & Hrun & Hsur & Hdel & Hd & [Hids Hget] & Hfresh & Hmax).
    destruct (IH s1)
      as (s2 & att & Hrun' & Hsur' & Hdel' & Hsub & Hall & Hlive & Hids' & Hget').
    exists s2, (match d with [] => att | _ => y :: att end).
    rewrite (bind_ok _ _ _ _ _ Hrun). splits.
    + exact Hrun'.
    + eauto using same_surroundings_trans.
    + rewrite Hdel', Hdel. destruct Hd as [-> | ->]; simpl.
      * now rewrite app_nil_r.
      * now rewrite <- app_assoc.
    + destruct Hd as [-> | ->]; now constructor.
    + intros x [<- | Hin] Hfx.
      * rewrite (Hfresh Hfx). now left.
      * specialize (Hall x Hin Hfx). destruct d; [assumption | now right].
    + intros x Hx. destruct Hd as [-> | ->]; [now apply Hlive|].
      destruct Hx as [<- | Hx]; [|now apply Hlive].
      destruct (Nat.lt_ge_cases (retryCount y) maxRetries) as [Hlt | Hge]; [exact Hlt|].
      destruct (Hmax Hge) as [Hnil _]. discriminate.
    + congruence.
    + intros k Hk. rewrite Hget', Hget; auto.
Qed.

(** *** Sorting *)

Lemma sort_insert_perm {A} (cmp : A -> A -> Z) x l :
  Permutation (sort_insert cmp x l) (x :: l).
Proof.
  induction l as [|y l IH]; simpl; auto.
  destruct (cmp x y <=? 0); auto.
  rewrite IH. apply perm_swap.
Qed.

Lemma sort_perm {A} (cmp : A -> A -> Z) l : Permutation (sort cmp l) l.
Proof.
  induction l as [|x l IH]; simpl; auto.
  rewrite sort_insert_perm. now constructor.
Qed.







Lemma pendingMessages_In o x :
  In x (pendingMessages o) <-> In x o /\ status x = pending.
Proof.
  unfold pendingMessages.
  rewrite (Permutation_in' (eq_refl x) (sort_perm sort_compare _)).
  rewrite List.filter_In. destruct (status x); simpl; intuition congruence.
Qed.






Lemma processQueue_run s :
  exists s', processQueue s = (Ok tt, s') /\
    match networkStatus s with
    | online =>
        exists attempted,
          same_surroundings s s'
          /\ deliveries s' = deliveries s ++ map id attempted
          /\ sublist attempted (pendingMessages (outbox s))
          /\ (forall x, In x (pendingMessages (outbox s)) -> fresh x -> In x attempted)
          /\ (forall x, In x attempted -> (retryCount x < maxRetries)%nat)
          /\ map id (outbox s') = map id (outbox s)
          /\ (forall k, ~ In k (map id (pendingMessages (outbox s))) ->
              outbox_get k (outbox s') = outbox_get k (outbox s))
    | _ => s' = s
    end.
Proof.
  unfold processQueue, bind, get_state.
  destruct (networkStatus s) eqn:Hnet; try (exists s; split; reflexivity).
  destruct (process_all_run (pendingMessages (outbox s)) s)
    as (s' & att & Hrun & Hrest).
  exists s'. rewrite (try_catch_ok _ _ _ _ _ Hrun). split; [reflexivity|].
  now exists att.
Qed.

(** *** An item that is not pending stays out of the deliveries *)

Lemma settled_not_pending i s y :
  settled i s -> In y (pendingMessages (outbox s)) -> id y <> i.
Proof.
  intros [Hnd (x & Hget & Hst)] Hin Heq.
  apply pendingMessages_In in Hin as [Hin Hpend].
  rewrite <- Heq, (outbox_get_NoDup _ _ Hnd Hin) in Hget.
  congruence.
Qed.

Lemma step_settled i e s :
  settled i s ->
  settled i (step e s) /\
  exists extra, deliveries (step e s) = deliveries s ++ extra /\ ~ In i extra.
Proof.
  intros Hs. destruct e as [n | w t | | ack]; simpl.
  - split; [exact Hs|]. exists []. now rewrite app_nil_r.
  - split; [exact Hs|]. exists []. now rewrite app_nil_r.
  - destruct (processQueue_run s) as (s' & Hrun & Hrest). rewrite Hrun. simpl.
    destruct (networkStatus s);
      try (subst s'; split; [exact Hs|]; exists []; now rewrite app_nil_r).
    destruct Hrest as (att & _ & Hdel & Hsub & _ & _ & Hids & Hget).
    assert (Hni : forall l, sublist l (pendingMessages (outbox s)) -> ~ In i (map id l)).
    { intros l Hl Hin. apply in_map_iff in Hin as (y & Hy & Hin).
      eapply settled_not_pending; eauto using sublist_In. }
    split.
    + destruct Hs as [Hnd (x & Hx & Hst)]. split; [now rewrite Hids|].
      exists x. split; [|exact Hst].
      rewrite Hget; [exact Hx | apply Hni; reflexivity].
    + exists (map id att). auto.
  - destruct (markMessageSent_run (ack_messageId ack) s)
      as (s' & Hrun & _ & Hdel & Hout).
    unfold handleAcknowledgment. rewrite (try_catch_ok _ _ _ _ _ Hrun). simpl.
    split.
    + destruct Hs as [Hnd (x & Hx & Hst)].
      pose proof (marked_same_but (as_sent (now_of s)) (ack_messageId ack)
                    (outbox s) (as_sent_id _)) as [Hids Hget].
      unfold settled. rewrite Hout. split; [now rewrite Hids|].
      destruct (string_dec i (ack_messageId ack)) as [->|Hne].
      * exists (as_sent (now_of s) x). split; [|discriminate].
        apply marked_get; auto using as_sent_id.
      * exists x. rewrite Hget; auto.
    + exists []. now rewrite app_nil_r.
Qed.

Lemma run_settled i events s :
  settled i s ->
  settled i (run events s) /\
  exists extra, deliveries (run events s) = deliveries s ++ extra /\ ~ In i extra.
Proof.
  revert s. induction events as [|e events IH]; intros s Hs; simpl.
  - split; [exact Hs|]. exists []. now rewrite app_nil_r.
  - destruct (step_settled i e s Hs) as (Hs1 & extra1 & Hd1 & Hn1).
    destruct (IH _ Hs1) as (Hs2 & extra2 & Hd2 & Hn2).
    split; [exact Hs2|]. exists (extra1 ++ extra2).
    rewrite Hd2, Hd1, <- app_assoc. split; [reflexivity|].
    rewrite in_app_iff. tauto.
Qed.

(** C5. an item of the outbox whose retry count has reached the maximum
    is marked failed, with the reason ["max_retries_exceeded"], by
    [processMessage], which hands it to no transport; and whatever follows
    without the user (network changes, queue ticks, acknowledgments), it is
    never handed to [sendMessage] again and never pending again. *)
Theorem exhausted_item_fails_and_is_never_retried
    (s : State) (x : OutboxItem) (events : list Event) :
  List.NoDup (map id (outbox s)) ->
  In x (outbox s) ->
  (maxRetries <= retryCount x)%nat ->
  let s1 := snd (processMessage x s) in
  fst (processMessage x s) = Ok tt
  /\ outbox_get (id x) (outbox s1)
     = Some (as_failed (now_of s) "max_retries_exceeded" x)
  /\ deliveries s1 = deliveries s
  /\ (exists extra,
        deliveries (run events s1) = deliveries s1 ++ extra /\ ~ In (id x) extra)
  /\ (exists x', outbox_get (id x) (outbox (run events s1)) = Some x'
                 /\ status x' <> pending).
Proof.
  intros Hnd Hin Hmax s1. subst s1.
  destruct (processMessage_run x s)
    as (s1 & d & Hrun & _ & Hdel & _ & [Hids _] & _ & Hex).
  destruct (Hex Hmax) as [-> Hout]. rewrite Hrun. simpl.
  rewrite app_nil_r in Hdel.
  assert (Hget : outbox_get (id x) (outbox s1)
                 = Some (as_failed (now_of s) "max_retries_exceeded" x)).
  { rewrite Hout. apply marked_get; auto using as_failed_id.
    now apply outbox_get_NoDup. }
  assert (Hs : settled (id x) s1).
  { split; [now rewrite Hids|]. eexists. split; [exact Hget|discriminate]. }
  destruct (run_settled (id x) events s1 Hs) as ([_ Hx'] & Hextra).
  splits; auto.
Qed.


(** C10. an acknowledgment for an id of the outbox sets that item to
    [sent] and stamps [sentAt], whatever its status was, and changes no
    other entry; for an id that is not there the outbox stays as it is. *)
Theorem handleAcknowledgment_marks_sent (s : State) (ackMessage : Acknowledgment) :
  let k := ack_messageId ackMessage in
  let s' := snd (handleAcknowledgment ackMessage s) in
  (forall x, outbox_get k (outbox s) = Some x ->
     outbox_get k (outbox s') = Some (as_sent (now_of s) x))
  /\ (outbox_get k (outbox s) = None -> outbox s' = outbox s)
  /\ (forall k', k' <> k -> outbox_get k' (outbox s') = outbox_get k' (outbox s))
  /\ map id (outbox s') = map id (outbox s).
Proof.
  intros k s'. subst k s'.
  destruct (markMessageSent_run (ack_messageId ackMessage) s)
    as (s' & Hrun & _ & _ & Hout).
  unfold handleAcknowledgment. rewrite (try_catch_ok _ _ _ _ _ Hrun). simpl.
  rewrite Hout.
  pose proof (marked_same_but (as_sent (now_of s)) (ack_messageId ackMessage)
                (outbox s) (as_sent_id _)) as [Hids Hget].
  splits; auto.
  - intros x Hx. apply marked_get; auto using as_sent_id.
  - intros Hnone. unfold marked. now rewrite Hnone.
Qed.


(** *** The code run on the samples *)

(** The scenario of three items queued offline: on reconnection they are
    tried as high, normal, low. *)
Example three_items_in_priority_order :
  deliveries (snd (processQueue (queue_with three_items online)))
  = ["m-high"; "m-normal"; "m-low"]%string.
Proof. vm_compute. reflexivity. Qed.

Example three_items_offline :
  deliveries (snd (processQueue (queue_with three_items offline))) = [].
Proof. vm_compute. reflexivity. Qed.




Lemma busy_queue_keys : List.NoDup (map id (outbox busy_queue)).
Proof.
  simpl. repeat constructor; simpl; intuition discriminate.
Qed.

Lemma exhausted_item_fails_and_is_never_retried_witness :
  List.NoDup (map id (outbox busy_queue))
  /\ In exhausted_item (outbox busy_queue)
  /\ (maxRetries <= retryCount exhausted_item)%nat
  /\ (status <$> outbox_get "m-exhausted" (outbox (snd (processMessage exhausted_item busy_queue))))
     = Some failed
  /\ exists extra,
       deliveries (run sample_events (snd (processMessage exhausted_item busy_queue)))
       = deliveries (snd (processMessage exhausted_item busy_queue)) ++ extra
       /\ ~ In "m-exhausted"%string extra.
Proof.
  assert (Hin : In exhausted_item (outbox busy_queue)) by (simpl; auto 10).
  assert (Hmax : (maxRetries <= retryCount exhausted_item)%nat) by reflexivity.
  destruct (exhausted_item_fails_and_is_never_retried busy_queue exhausted_item
              sample_events busy_queue_keys Hin Hmax)
    as (_ & Hget & _ & Hextra & _).
  split; [exact busy_queue_keys|]. split; [exact Hin|]. split; [exact Hmax|].
  split; [|exact Hextra].
  change (id exhausted_item) with "m-exhausted"%string in Hget.
  rewrite Hget. reflexivity.
Defined.

Example exhausted_item_run :
  deliveries (run sample_events (snd (processMessage exhausted_item busy_queue)))
  = ["m-high"; "m-normal"; "m-low"; "m-high"; "m-normal"; "m-low"]%string.
Proof. vm_compute. reflexivity. Qed.

Lemma handleAcknowledgment_marks_sent_witness :
  outbox_get "m-failed" (outbox busy_queue) = Some failed_item
  /\ outbox_get "m-failed"
       (outbox (snd (handleAcknowledgment
                       {| ack_messageId := "m-failed"; ack_timestamp := 1700000000000 |}
                       busy_queue)))
     = Some (as_sent 1700000000000 failed_item)
  /\ outbox_get "m-unknown" (outbox busy_queue) = None
  /\ outbox (snd (handleAcknowledgment
                    {| ack_messageId := "m-unknown"; ack_timestamp := 1700000000000 |}
                    busy_queue))
     = outbox busy_queue.
Proof.
  assert (Hsome : outbox_get "m-failed" (outbox busy_queue) = Some failed_item)
    by reflexivity.
  assert (Hnone : outbox_get "m-unknown" (outbox busy_queue) = None) by reflexivity.
  split; [exact Hsome|]. split; [|split; [exact Hnone|]].
  - exact (proj1 (handleAcknowledgment_marks_sent busy_queue
                    {| ack_messageId := "m-failed"; ack_timestamp := 1700000000000 |})
             failed_item Hsome).
  - exact (proj1 (proj2 (handleAcknowledgment_marks_sent busy_queue
                    {| ack_messageId := "m-unknown"; ack_timestamp := 1700000000000 |}))
             Hnone).
Defined.

End QueueFacts.

(** * Further properties of [AmiXMessageQueue] *)
Module OutboxFacts.
Import AmiXMessageQueue Samples QueueFacts.
Local Open Scope Z_scope.

(** *** The back-off table *)

(** [getRetryDelay] always finds a delay: between one second and one
    minute, never shorter for a higher retry count, and one minute from the
    fifth retry on. *)
Theorem getRetryDelay_backoff (n : nat) :
  exists delay,
    getRetryDelay n = Some delay
    /\ 1000 <= delay <= 60000
    /\ (forall m delay', (n <= m)%nat -> getRetryDelay m = Some delay' -> delay <= delay')
    /\ ((5 <= n)%nat -> delay = 60000).
Proof.
  assert (Hcap : forall k, getRetryDelay (6 + k) = Some 60000) by (intros k; reflexivity).
  assert (Hcases : forall k, (k < 6)%nat \/ exists j, k = (6 + j)%nat).
  { intros k. destruct (Nat.lt_ge_cases k 6) as [H|H]; [now left|right].
    exists (k - 6)%nat. lia. }
  destruct (Hcases n) as [Hn | [j ->]].
  - assert (n = 0 \/ n = 1 \/ n = 2 \/ n = 3 \/ n = 4 \/ n = 5)%nat as Hv by lia.
    repeat (destruct Hv as [-> | Hv]); [| | | | |subst n];
      (eexists; split; [reflexivity|]; split; [lia|]; split; [|intros; try lia; reflexivity]);
      intros m d' Hle Hm;
      (destruct (Hcases m) as [Hm6 | [i ->]];
       [ assert (m = 0 \/ m = 1 \/ m = 2 \/ m = 3 \/ m = 4 \/ m = 5)%nat as Hw by lia;
         repeat (destruct Hw as [-> | Hw]); try subst m; try lia;
         vm_compute in Hm; injection Hm as <-; lia
       | rewrite Hcap in Hm; injection Hm as <-; lia ]).
  - exists 60000. rewrite Hcap. split; [reflexivity|]. split; [lia|]. split; [|reflexivity].
    intros m d' Hle Hm. destruct (Hcases m) as [Hm6 | [i ->]]; [lia|].
    rewrite Hcap in Hm. injection Hm as <-. lia.
Qed.

(** *** The outbox as a map, continued *)

Lemma outbox_get_set_any (k : string) (v : OutboxItem) (o : list OutboxItem) :
  id v = k -> outbox_get k (outbox_set k v o) = Some v.
Proof.
  intros Hv. induction o as [|y o IH]; simpl.
  - now rewrite Hv, String.eqb_refl.
  - destruct (String.eqb_spec (id y) k) as [Heq|Hne]; simpl.
    + now rewrite Hv, String.eqb_refl.
    + destruct (String.eqb_spec (id y) k); [contradiction|]. exact IH.
Qed.

Lemma outbox_get_delete_eq (k : string) (o : list OutboxItem) :
  outbox_get k (outbox_delete k o) = None.
Proof.
  unfold outbox_get, outbox_delete. induction o as [|y o IH]; simpl; [reflexivity|].
  destruct (String.eqb (id y) k) eqn:E; simpl; [exact IH|]. now rewrite E.
Qed.

Lemma outbox_get_delete_ne (k k' : string) (o : list OutboxItem) :
  k' <> k -> outbox_get k' (outbox_delete k o) = outbox_get k' o.
Proof.
  intros Hne. unfold outbox_get, outbox_delete.
  induction o as [|y o IH]; simpl; [reflexivity|].
  destruct (String.eqb_spec (id y) k) as [Heq|Hne']; simpl.
  - destruct (String.eqb_spec (id y) k'); [congruence | exact IH].
  - destruct (String.eqb (id y) k'); [reflexivity | exact IH].
Qed.

Lemma same_key_same_item (o : list OutboxItem) (a b : OutboxItem) :
  List.NoDup (map id o) -> In a o -> In b o -> id a = id b -> a = b.
Proof.
  intros Hnd Ha Hb Heq.
  pose proof (outbox_get_NoDup o a Hnd Ha) as Hga.
  pose proof (outbox_get_NoDup o b Hnd Hb) as Hgb.
  rewrite Heq in Hga. congruence.
Qed.

Lemma filter_twice {A} (f g : A -> bool) (l : list A) :
  List.filter f (List.filter g l) = List.filter (fun x => g x && f x) l.
Proof.
  induction l as [|x l IH]; simpl; [reflexivity|].
  destruct (g x); simpl; [destruct (f x)|]; now rewrite IH.
Qed.

(** Deleting the entries picked by [pick] leaves the others, in place. *)
Lemma delete_entries_filter (pick : OutboxItem -> bool) (o : list OutboxItem) :
  List.NoDup (map id o) ->
  delete_entries (List.filter pick o) o = List.filter (fun x => negb (pick x)) o.
Proof.
  intros Hnd.
  assert (Hgen : forall entries l,
    delete_entries entries l
    = List.filter (fun x => negb (existsb (fun e => String.eqb (id e) (id x)) entries)) l).
  { induction entries as [|e entries IH]; intros l.
    - simpl. symmetry. apply forallb_filter_id. now apply forallb_forall.
    - change (delete_entries (e :: entries) l)
        with (delete_entries entries (outbox_delete (id e) l)).
      rewrite IH. unfold outbox_delete. rewrite filter_twice.
      apply List.filter_ext. intros x. simpl.
      rewrite negb_orb. f_equal. f_equal. apply String.eqb_sym. }
  rewrite Hgen. apply List.filter_ext_in. intros x Hx. f_equal.
  destruct (pick x) eqn:Hp.
  - apply existsb_exists. exists x. rewrite List.filter_In, String.eqb_refl. auto.
  - apply not_true_iff_false. intros He. apply existsb_exists in He as (e & He & Heq).
    apply List.filter_In in He as [He Hpe]. apply String.eqb_eq in Heq.
    rewrite (same_key_same_item o e x Hnd He Hx Heq) in Hpe. congruence.
Qed.


(** *** Queueing *)

(** [addToOutbox] returns the key under which the message is then found:
    pending, never tried, of priority ["normal"] when the message names
    none; the other entries stay as they were, the outbox is saved and
    nothing is sent yet. *)
Theorem addToOutbox_enqueues (m : Message) (s : State) :
  exists k s' item,
    addToOutbox m s = (Ok k, s')
    /\ k = pretty (now_of s) +:+ "-" +:+ message_ids s (message_ids_used s)
    /\ outbox_get k (outbox s') = Some item
    /\ id item = k /\ message item = m /\ recipientId item = message_recipientId m
    /\ status item = pending /\ retryCount item = 0%nat /\ lastRetry item = None
    /\ (message_priority m = None -> priority item = "normal"%string)
    /\ (forall k', k' <> k -> outbox_get k' (outbox s') = outbox_get k' (outbox s))
    /\ stored s' = Some (outbox s')
    /\ deliveries s' = deliveries s.
Proof.
  unfold addToOutbox, try_catch, generateMessageId, saveOutbox, trackEvent,
    bind, on_host, Date_now, get_state, modify, ret. simpl.
  eexists _, _, _. split; [reflexivity|]. simpl.
  split; [reflexivity|].
  split; [apply outbox_get_set_any; reflexivity|].
  splits; try reflexivity.
  - intros ->. reflexivity.
  - intros k' Hne. apply outbox_get_set_ne; [exact Hne | reflexivity].
Qed.

(** *** Sending *)

(** [sendMessage] never throws.  It reports success exactly when the peer
    connection accepted the message, or when the relay accepted it after
    the peer was not connected or declined; an exception of the peer
    connection is a failure, and the relay is not tried then. *)
Theorem sendMessage_outcome (y : OutboxItem) (s : State) :
  let n := length (deliveries s) in
  let t := transport s in
  exists b,
    fst (sendMessage y s) = Ok b
    /\ (b = true <->
        (isConnected t n = true /\ sendEncryptedMessage t n = Ok true)
        \/ ((isConnected t n = false \/ sendEncryptedMessage t n = Ok false)
            /\ relay_response_ok t n = Ok true))
    /\ (isConnected t n = true ->
        (exists e, sendEncryptedMessage t n = Throw e) -> b = false).
Proof.
  cbv zeta.
  unfold sendMessage, sendViaRelay, try_catch, bind, get_state, modify, lift, ret, on_host.
  simpl.
  destruct (isConnected (transport s) _) eqn:Hc; simpl.
  - destruct (sendEncryptedMessage (transport s) _) as [[|]|e] eqn:Hp; simpl.
    + exists true. splits; [reflexivity| |auto]. intuition congruence.
      intros _ [e He]. discriminate.
    + destruct (relay_response_ok (transport s) _) as [[|]|e] eqn:Hr; simpl;
        eexists; (split; [reflexivity|]); split;
        try (intros _ [e' He']; discriminate); intuition congruence.
    + exists false. splits; [reflexivity| |reflexivity]. intuition congruence.
  - destruct (relay_response_ok (transport s) _) as [[|]|e] eqn:Hr; simpl;
      eexists; (split; [reflexivity|]); split;
      try (intros Ht; discriminate); intuition congruence.
Qed.

(** *** Back-off *)

(** An item that was tried before is not handed to [sendMessage] until
    the delay for its retry count has passed since the last attempt; once
    it has passed the item is handed over. *)
Theorem processMessage_waits_for_backoff
    (y : OutboxItem) (s : State) (last delay : Z) :
  (retryCount y < maxRetries)%nat ->
  lastRetry y = Some last -> last <> 0 ->
  getRetryDelay (retryCount y) = Some delay ->
  let s' := snd (processMessage y s) in
  fst (processMessage y s) = Ok tt
  /\ (now_of s - last < delay ->
      deliveries s' = deliveries s /\ outbox s' = outbox s)
  /\ (delay <= now_of s - last -> deliveries s' = deliveries s ++ [id y]).
Proof.
  intros Hlt Hlast Hne Hdelay. cbv zeta.
  assert (Hmax : (maxRetries <=? retryCount y)%nat = false) by (apply Nat.leb_gt; exact Hlt).
  assert (H0 : (last =? 0) = false) by (apply Z.eqb_neq; exact Hne).
  unfold processMessage. rewrite Hmax, Hlast, H0, Hdelay.
  set (s1 := set_world (set_clock_reads (S (clock_reads (world s))) (world s)) s).
  assert (Hread : on_host Date_now s = (Ok (now_of s), s1)) by reflexivity.
  destruct (now_of s - last <? delay) eqn:Hwait.
  - apply Z.ltb_lt in Hwait.
    erewrite try_catch_ok;
      [|erewrite bind_ok;
         [|erewrite bind_ok by exact Hread; unfold ret; rewrite (proj2 (Z.ltb_lt _ _) Hwait);
           reflexivity]; reflexivity].
    simpl. splits; [reflexivity | intros _; split; reflexivity | lia].
  - apply Z.ltb_ge in Hwait.
    destruct (sendMessage_run y s1) as (b & s2 & Hrun2 & _ & Hdel2 & _).
    assert (Hmark : exists s3,
      (if b then markMessageSent (id y) else markMessageRetry (id y)) s2 = (Ok tt, s3)
      /\ deliveries s3 = deliveries s2).
    { destruct b.
      - destruct (markMessageSent_run (id y) s2) as (s3 & ? & _ & ? & _). eauto.
      - destruct (markMessageRetry_run (id y) s2) as (s3 & ? & _ & ? & _). eauto. }
    destruct Hmark as (s3 & Hrun3 & Hdel3).
    erewrite try_catch_ok;
      [|erewrite bind_ok;
         [|erewrite bind_ok by exact Hread; unfold ret; rewrite (proj2 (Z.ltb_ge _ _) Hwait);
           reflexivity];
        cbv beta iota; erewrite bind_ok by exact Hrun2; exact Hrun3].
    simpl. splits; [reflexivity | lia |].
    intros _. rewrite Hdel3, Hdel2. reflexivity.
Qed.


(** *** What the events leave alone *)

Lemma step_keeps_keys (e : Event) (s : State) :
  map id (outbox (step e s)) = map id (outbox s)
  /\ exists extra, deliveries (step e s) = deliveries s ++ extra
       /\ forall k, In k extra -> In k (map id (outbox s)).
Proof.
  destruct e as [n | w t | | ack]; simpl.
  - split; [reflexivity|]. exists []. rewrite app_nil_r. split; [reflexivity | intros ? []].
  - split; [reflexivity|]. exists []. rewrite app_nil_r. split; [reflexivity | intros ? []].
  - destruct (processQueue_run s) as (s' & Hrun & Hrest). rewrite Hrun. simpl.
    destruct (networkStatus s);
      try (subst s'; split; [reflexivity|]; exists []; rewrite app_nil_r;
           split; [reflexivity | intros ? []]).
    destruct Hrest as (att & _ & Hdel & Hsub & _ & _ & Hids & _).
    split; [exact Hids|]. exists (map id att). split; [exact Hdel|].
    intros k Hk. apply in_map_iff in Hk as (x & <- & Hx). apply in_map.
    eapply sublist_In in Hx; [|exact Hsub]. now apply pendingMessages_In in Hx.
  - destruct (markMessageSent_run (ack_messageId ack) s) as (s' & Hrun & _ & Hdel & Hout).
    unfold handleAcknowledgment. rewrite (try_catch_ok _ _ _ _ _ Hrun). simpl.
    split.
    + rewrite Hout. apply marked_same_but, as_sent_id.
    + exists []. rewrite app_nil_r. split; [exact Hdel | intros ? []].
Qed.

Lemma run_keeps_keys (events : list Event) (s : State) :
  map id (outbox (run events s)) = map id (outbox s)
  /\ exists extra, deliveries (run events s) = deliveries s ++ extra
       /\ forall k, In k extra -> In k (map id (outbox s)).
Proof.
  revert s. induction events as [|e events IH]; intros s; simpl.
  - split; [reflexivity|]. exists []. rewrite app_nil_r. split; [reflexivity | intros ? []].
  - destruct (step_keeps_keys e s) as (Hids1 & extra1 & Hd1 & Hin1).
    destruct (IH (step e s)) as (Hids2 & extra2 & Hd2 & Hin2).
    fold (run events (step e s)).
    split; [congruence|]. exists (extra1 ++ extra2).
    rewrite Hd2, Hd1, <- app_assoc. split; [reflexivity|].
    intros k Hk. apply in_app_iff in Hk as [Hk | Hk]; [now apply Hin1|].
    rewrite <- Hids1. now apply Hin2.
Qed.

(** Whatever happens without the user (network changes, queue ticks,
    acknowledgments), the outbox keeps its keys, in their order: no entry
    is added, dropped or moved; and only keys of the outbox are handed to
    [sendMessage]. *)
Theorem events_keep_outbox_keys (events : list Event) (s : State) :
  map id (outbox (run events s)) = map id (outbox s)
  /\ exists extra,
       delivered_since s (run events s) extra
       /\ forall k, In k extra -> In k (map id (outbox s)).
Proof. exact (run_keeps_keys events s). Qed.

(** The entry under [i] is sent and carries the message [m]. *)
Lemma step_sent (i : string) (m : Message) (e : Event) (s : State) :
  distinct_keys s ->
  (exists x, outbox_get i (outbox s) = Some x /\ status x = sent /\ message x = m) ->
  exists x, outbox_get i (outbox (step e s)) = Some x /\ status x = sent /\ message x = m.
Proof.
  intros Hnd (x & Hx & Hst & Hm). destruct e as [n | w t | | ack]; simpl.
  - eauto.
  - eauto.
  - destruct (processQueue_run s) as (s' & Hrun & Hrest). rewrite Hrun. simpl.
    destruct (networkStatus s); try (subst s'; eauto).
    destruct Hrest as (att & _ & _ & _ & _ & _ & _ & Hget).
    exists x. split; [|auto]. rewrite Hget; [exact Hx|].
    intros Hin. apply in_map_iff in Hin as (y & Hy & Hin).
    eapply (settled_not_pending i s y); eauto.
    split; [exact Hnd|]. exists x. split; [exact Hx | congruence].
  - destruct (markMessageSent_run (ack_messageId ack) s) as (s' & Hrun & _ & _ & Hout).
    unfold handleAcknowledgment. rewrite (try_catch_ok _ _ _ _ _ Hrun). simpl.
    rewrite Hout.
    destruct (string_dec i (ack_messageId ack)) as [->|Hne].
    + exists (as_sent (now_of s) x). split; [|auto].
      apply marked_get; auto using as_sent_id.
    + exists x. split; [|auto].
      destruct (marked_same_but (as_sent (now_of s)) (ack_messageId ack) (outbox s)
                  (as_sent_id _)) as [_ Hget].
      rewrite Hget; auto.
Qed.

(** Once an entry is sent it stays sent, with its message, whatever
    happens without the user, and it is never handed to [sendMessage]
    again. *)
Theorem sent_message_is_never_resent
    (i : string) (x : OutboxItem) (events : list Event) (s : State) :
  distinct_keys s ->
  outbox_get i (outbox s) = Some x -> status x = sent ->
  (exists x', outbox_get i (outbox (run events s)) = Some x'
              /\ status x' = sent /\ message x' = message x)
  /\ exists extra, delivered_since s (run events s) extra /\ ~ In i extra.
Proof.
  intros Hnd Hx Hst. split.
  - assert (Hinv : exists x', outbox_get i (outbox s) = Some x'
                              /\ status x' = sent /\ message x' = message x) by eauto.
    clear Hx Hst. revert s Hnd Hinv.
    induction events as [|e events IH]; intros s Hnd Hinv; simpl; [exact Hinv|].
    apply IH.
    + unfold distinct_keys. rewrite (proj1 (step_keeps_keys e s)). exact Hnd.
    + now apply step_sent.
  - apply run_settled. split; [exact Hnd|]. exists x. split; [exact Hx | congruence].
Qed.

(** *** Retrying by hand *)

(** [retryFailedMessages] leaves no failed entry: each one is pending
    again with its retry count and last attempt reset, the others are
    untouched; and when the network is online the next [processQueue]
    hands every one of them to [sendMessage]. *)
Theorem retryFailedMessages_requeues (s : State) :
  let s1 := snd (retryFailedMessages s) in
  fst (retryFailedMessages s) = Ok tt
  /\ map id (outbox s1) = map id (outbox s)
  /\ (forall x, In x (outbox s1) -> status x <> failed)
  /\ (forall x, In x (outbox s) -> status x <> failed -> In x (outbox s1))
  /\ (forall x, In x (outbox s) -> status x = failed ->
      exists x', In x' (outbox s1)
        /\ id x' = id x /\ message x' = message x /\ priority x' = priority x
        /\ status x' = pending /\ retryCount x' = 0%nat /\ lastRetry x' = None)
  /\ (networkStatus s = online ->
      forall x, In x (outbox s) -> status x = failed ->
        exists extra, delivered_since s1 (snd (processQueue s1)) extra /\ In (id x) extra).
Proof.
  cbv zeta.
  assert (Hout : outbox (snd (retryFailedMessages s)) = map retry_item (outbox s))
    by reflexivity.
  assert (Hnet : networkStatus (snd (retryFailedMessages s)) = networkStatus s)
    by reflexivity.
  assert (Hid : forall x, id (retry_item x) = id x).
  { intros x. unfold retry_item. destruct (status x); reflexivity. }
  assert (Hre : forall x, status x = failed ->
            let x' := retry_item x in
            id x' = id x /\ message x' = message x /\ priority x' = priority x
            /\ status x' = pending /\ retryCount x' = 0%nat /\ lastRetry x' = None).
  { intros x Hst. unfold retry_item. rewrite Hst. simpl. splits; reflexivity. }
  rewrite Hout. split; [reflexivity|]. split.
  { rewrite map_map. apply map_ext. exact Hid. }
  split.
  { intros x Hx. apply in_map_iff in Hx as (y & <- & _).
    unfold retry_item. destruct (status y) eqn:E; simpl; congruence. }
  split.
  { intros x Hx Hst. apply in_map_iff. exists x. split; [|exact Hx].
    unfold retry_item. destruct (status x); congruence. }
  split.
  { intros x Hx Hst. exists (retry_item x). split; [now apply in_map|].
    now apply Hre. }
  intros Hon x Hx Hst.
  destruct (processQueue_run (snd (retryFailedMessages s))) as (s2 & Hrun & Hrest).
  rewrite Hrun, Hnet, Hon in *. simpl.
  destruct Hrest as (att & _ & Hdel & _ & Hfresh & _).
  exists (map id att). split; [exact Hdel|].
  rewrite <- (Hid x). apply in_map. apply Hfresh.
  - apply pendingMessages_In. rewrite Hout. split; [now apply in_map|].
    now apply Hre.
  - destruct (Hre x Hst) as (_ & _ & _ & _ & Hrc & Hlr).
    split; [exact Hlr|]. rewrite Hrc. unfold maxRetries. lia.
Qed.

(** *** Clearing *)

(** [clearSentMessages] drops the sent entries and nothing else: what
    stays is the entries that are not sent, in their order, and that is
    what is saved. *)
Theorem clearSentMessages_keeps_the_rest (s : State) :
  distinct_keys s ->
  let s' := snd (clearSentMessages s) in
  fst (clearSentMessages s) = Ok tt
  /\ outbox s' = List.filter (fun x => negb (Status_eqb (status x) sent)) (outbox s)
  /\ (forall x, In x (outbox s') <-> In x (outbox s) /\ status x <> sent)
  /\ stored s' = Some (outbox s')
  /\ deliveries s' = deliveries s.
Proof.
  intros Hnd. cbv zeta.
  assert (Hout : outbox (snd (clearSentMessages s))
                 = delete_entries (with_status sent (outbox s)) (outbox s))
    by reflexivity.
  unfold with_status in Hout. rewrite delete_entries_filter in Hout by exact Hnd.
  split; [reflexivity|]. split; [exact Hout|]. split.
  - intros x. rewrite Hout, List.filter_In.
    destruct (status x); simpl; intuition congruence.
  - split; reflexivity.
Qed.

(** [cleanup] drops the entries sent more than thirty days before the
    clock reading and nothing else: an entry that is pending or failed,
    or sent within the last thirty days, stays. *)
Theorem cleanup_drops_old_sent_only (s : State) :
  distinct_keys s ->
  let s' := snd (cleanup s) in
  fst (cleanup s) = Ok tt
  /\ outbox s'
     = List.filter (fun x => negb (old_sent (now_of s - thirty_days) x)) (outbox s)
  /\ (forall x, In x (outbox s) -> status x <> sent -> In x (outbox s'))
  /\ (forall x t, In x (outbox s) -> sentAt x = Some t ->
      now_of s - thirty_days <= t -> In x (outbox s'))
  /\ (forall x t, In x (outbox s) -> status x = sent -> sentAt x = Some t ->
      t < now_of s - thirty_days -> ~ In x (outbox s'))
  /\ stored s' = Some (outbox s').
Proof.
  intros Hnd. cbv zeta.
  assert (Hout : outbox (snd (cleanup s))
                 = delete_entries
                     (List.filter (old_sent (now_of s - thirty_days)) (outbox s))
                     (outbox s))
    by reflexivity.
  rewrite delete_entries_filter in Hout by exact Hnd.
  split; [reflexivity|]. split; [exact Hout|].
  splits.
  - intros x Hx Hst. rewrite Hout. apply List.filter_In. split; [exact Hx|].
    unfold old_sent. destruct (status x); simpl; congruence.
  - intros x t Hx Ht Hle. rewrite Hout. apply List.filter_In. split; [exact Hx|].
    unfold old_sent. rewrite Ht.
    rewrite (proj2 (Z.ltb_ge _ _) Hle). now rewrite andb_false_r.
  - intros x t Hx Hst Ht Hlt. rewrite Hout, List.filter_In.
    unfold old_sent. rewrite Hst, Ht, (proj2 (Z.ltb_lt _ _) Hlt). simpl.
    intros [_ ?]. discriminate.
  - reflexivity.
Qed.

(** [deleteMessage] removes the entry under the key and leaves the
    others; whatever happens afterwards without the user, the key is never
    handed to [sendMessage]. *)
Theorem deleteMessage_removes (k : string) (s : State) (events : list Event) :
  let s1 := snd (deleteMessage k s) in
  fst (deleteMessage k s) = Ok tt
  /\ outbox_get k (outbox s1) = None
  /\ (forall k', k' <> k -> outbox_get k' (outbox s1) = outbox_get k' (outbox s))
  /\ stored s1 = Some (outbox s1)
  /\ exists extra, delivered_since s (run events s1) extra /\ ~ In k extra.
Proof.
  cbv zeta.
  assert (Hout : outbox (snd (deleteMessage k s)) = outbox_delete k (outbox s))
    by reflexivity.
  assert (Hdel : deliveries (snd (deleteMessage k s)) = deliveries s) by reflexivity.
  split; [reflexivity|]. rewrite Hout.
  split; [apply outbox_get_delete_eq|].
  split; [intros k' Hne; now apply outbox_get_delete_ne|].
  split; [reflexivity|].
  destruct (run_keeps_keys events (snd (deleteMessage k s))) as (_ & extra & Hd & Hin).
  exists extra. unfold delivered_since. rewrite Hd, Hdel. split; [reflexivity|].
  intros Hk. apply Hin in Hk. rewrite Hout in Hk.
  apply in_map_iff in Hk as (x & Hid & Hx).
  apply List.filter_In in Hx as [_ Hx]. rewrite Hid, String.eqb_refl in Hx. discriminate.
Qed.

(** *** Counting *)

Lemma with_status_partition (o : list OutboxItem) :
  (length (with_status pending o) + length (with_status sent o)
   + length (with_status failed o) = length o)%nat.
Proof.
  unfold with_status. induction o as [|x o IH]; simpl; [reflexivity|].
  destruct (status x); simpl; lia.
Qed.

(** [getOutboxStatus] changes nothing; its three counts add up to the
    total.  After [clearSentMessages] it reports no sent entry and the
    pending and failed counts of before. *)
Theorem getOutboxStatus_counts (s : State) :
  exists st,
    getOutboxStatus s = (Ok st, s)
    /\ (count_pending st + count_sent st + count_failed st = count_total st)%nat
    /\ status_network st = networkStatus s
    /\ (distinct_keys s ->
        exists st', fst (getOutboxStatus (snd (clearSentMessages s))) = Ok st'
          /\ count_sent st' = 0%nat
          /\ count_pending st' = count_pending st
          /\ count_failed st' = count_failed st
          /\ count_total st' = (count_total st - count_sent st)%nat).
Proof.
  eexists. split; [reflexivity|]. simpl.
  split; [apply with_status_partition|]. split; [reflexivity|].
  intros Hnd. eexists. split; [reflexivity|]. simpl.
  change (outbox (snd (clearSentMessages s)))
    with (delete_entries (with_status sent (outbox s)) (outbox s)).
  assert (Hclear : delete_entries (with_status sent (outbox s)) (outbox s)
                   = List.filter (fun x => negb (Status_eqb (status x) sent)) (outbox s)).
  { unfold with_status. now apply delete_entries_filter. }
  rewrite !Hclear. unfold with_status. rewrite !filter_twice.
  assert (Hp : forall st, st <> sent ->
            List.filter (fun x => negb (Status_eqb (status x) sent)
                                  && Status_eqb (status x) st) (outbox s)
            = List.filter (fun x => Status_eqb (status x) st) (outbox s)).
  { intros st Hst. apply List.filter_ext. intros x.
    destruct (status x), st; simpl; congruence. }
  assert (Hs : forall o : list OutboxItem,
            List.filter (fun x => negb (Status_eqb (status x) sent)
                                  && Status_eqb (status x) sent) o = []).
  { induction o as [|x o IH]; simpl; [reflexivity|].
    destruct (status x); simpl; exact IH. }
  rewrite Hs, !Hp by discriminate. simpl.
  splits; try reflexivity.
  assert (Hlen : forall o : list OutboxItem,
            (length (List.filter (fun x => negb (Status_eqb (status x) sent)) o)
             + length (List.filter (fun x => Status_eqb (status x) sent) o)
             = length o)%nat).
  { induction o as [|x o IH]; simpl; [reflexivity|]. destruct (status x); simpl; lia. }
  specialize (Hlen (outbox s)). lia.
Qed.


(** *** Conflict resolution *)

Lemma sort_insert_keeps_order {A} (cmp : A -> A -> Z) (R : A -> A -> Prop) :
  (forall a b, cmp a b <= 0 <-> R a b) ->
  (forall a b, R a b \/ R b a) ->
  (forall a b c, R a b -> R b c -> R a c) ->
  forall x l, StronglySorted R l -> StronglySorted R (sort_insert cmp x l).
Proof.
  intros Hcmp Htotal Htrans x l. induction 1 as [|y l Hs IH Hall]; simpl.
  - repeat constructor.
  - destruct (cmp x y <=? 0) eqn:E.
    + apply Z.leb_le, Hcmp in E.
      constructor; [now constructor|]. constructor; auto.
      eapply List.Forall_impl; [|exact Hall]. intros z. now apply Htrans.
    + apply Z.leb_gt in E.
      assert (Hyx : R y x).
      { destruct (Htotal x y) as [Hxy|]; auto. apply Hcmp in Hxy. lia. }
      constructor; auto.
      eapply Permutation_Forall; [symmetry; apply sort_insert_perm|].
      constructor; auto.
Qed.

Lemma sort_by_timestamp_sorted (l : list ConversationMessage) :
  StronglySorted oldest_first (sort by_timestamp l).
Proof.
  unfold sort. induction l as [|x l IH]; simpl; [constructor|].
  apply (sort_insert_keeps_order by_timestamp oldest_first); auto;
    unfold by_timestamp, oldest_first; intros; lia.
Qed.

Lemma unique_messages_sublist (seen : gset string) (l : list ConversationMessage) :
  sublist (unique_messages seen l) l.
Proof.
  revert seen. induction l as [|m l IH]; intros seen; simpl; [constructor|].
  destruct (decide _); now constructor.
Qed.

Lemma unique_messages_fresh (seen : gset string) (l : list ConversationMessage) m :
  In m (unique_messages seen l) -> conflict_key m ∉ seen.
Proof.
  revert seen. induction l as [|x l IH]; intros seen; simpl; [tauto|].
  destruct (decide (conflict_key x ∈ seen)) as [Hin|Hnin]; [apply IH|].
  intros [<- | Hm]; [exact Hnin|]. apply IH in Hm. set_solver.
Qed.

Lemma unique_messages_NoDup (seen : gset string) (l : list ConversationMessage) :
  List.NoDup (map conflict_key (unique_messages seen l)).
Proof.
  revert seen. induction l as [|x l IH]; intros seen; simpl; [constructor|].
  destruct (decide (conflict_key x ∈ seen)); [apply IH|].
  simpl. constructor; [|apply IH].
  intros Hin. apply in_map_iff in Hin as (m & Hkey & Hm).
  apply unique_messages_fresh in Hm. set_solver.
Qed.

Lemma unique_messages_covers (seen : gset string) (l : list ConversationMessage) m :
  In m l ->
  conflict_key m ∈ seen
  \/ exists m', In m' (unique_messages seen l) /\ conflict_key m' = conflict_key m.
Proof.
  revert seen. induction l as [|x l IH]; intros seen; simpl; [tauto|].
  intros [-> | Hm].
  - destruct (decide (conflict_key m ∈ seen)); [now left|].
    right. exists m. simpl. auto.
  - destruct (decide (conflict_key x ∈ seen)) as [Hin|Hnin].
    + apply IH, Hm.
    + destruct (IH ({[conflict_key x]} ∪ seen) Hm) as [Hs | (m' & Hm' & Hk)].
      * apply elem_of_union in Hs as [Hs | Hs]; [|now left].
        apply elem_of_singleton in Hs. right. exists x. simpl. auto.
      * right. exists m'. simpl. auto.
Qed.

(** *** What a key tells of its message *)

Lemma char_not_dash (d : N) : pretty_N_char d <> "-"%char.
Proof. unfold pretty_N_char. repeat case_match; discriminate. Qed.

Lemma no_dash_pretty_go (x : N) :
  forall s, ~ In "-"%char (list_ascii_of_string s) ->
            ~ In "-"%char (list_ascii_of_string (pretty_N_go x s)).
Proof.
  induction (N.lt_wf_0 x) as [x _ IH]. intros s Hs.
  destruct (N.eq_dec x 0%N) as [-> | Hx].
  - now rewrite pretty_N_go_0.
  - rewrite pretty_N_go_step by lia. apply IH.
    + apply N.div_lt; lia.
    + cbn [list_ascii_of_string]. intros [Hc | Hin]; [|now apply Hs].
      now apply (char_not_dash (x mod 10)%N).
Qed.

Lemma no_dash_pretty (z : Z) :
  0 <= z -> ~ In "-"%char (list_ascii_of_string (pretty z)).
Proof.
  intros Hz. destruct z as [|q|q]; [| |lia].
  - cbn. intros [H | []]. discriminate.
  - change (pretty (Z.pos q)) with (pretty (N.pos q)).
    unfold pretty, pretty_N. case_decide; [discriminate|].
    apply no_dash_pretty_go. intros [].
Qed.

Lemma dash_in_key (c d : string) :
  In "-"%char (list_ascii_of_string (c +:+ "-" +:+ d)).
Proof.
  induction c as [|a c IH].
  - change ("" +:+ "-" +:+ d)%string with (String "-" d). now left.
  - change (String a c +:+ "-" +:+ d)%string with (String a (c +:+ "-" +:+ d)).
    now right.
Qed.

Lemma key_split (c1 c2 d1 d2 : string) :
  ~ In "-"%char (list_ascii_of_string d1) ->
  ~ In "-"%char (list_ascii_of_string d2) ->
  c1 +:+ "-" +:+ d1 = c2 +:+ "-" +:+ d2 -> c1 = c2 /\ d1 = d2.
Proof.
  intros H1 H2. revert c2.
  assert (Hnil : forall d, ("" +:+ "-" +:+ d)%string = String "-" d) by reflexivity.
  assert (Hcons : forall a c d,
            (String a c +:+ "-" +:+ d)%string = String a (c +:+ "-" +:+ d))
    by reflexivity.
  induction c1 as [|a c1 IH]; intros [|b c2] Heq;
    rewrite ?Hnil, ?Hcons in Heq.
  - injection Heq as Heq. now split.
  - injection Heq as Hb Heq. exfalso. apply H1. rewrite Heq. apply dash_in_key.
  - injection Heq as Ha Heq. exfalso. apply H2. rewrite <- Heq. apply dash_in_key.
  - injection Heq as Hab Heq. destruct (IH c2 Heq) as [Hc Hd]. subst. now split.
Qed.

(** Among messages whose timestamps are not negative the key tells the
    content and the timestamp. *)
Lemma conflict_key_inj (m m' : ConversationMessage) :
  0 <= msg_timestamp m -> 0 <= msg_timestamp m' ->
  conflict_key m' = conflict_key m ->
  msg_content m' = msg_content m /\ msg_timestamp m' = msg_timestamp m.
Proof.
  intros H H' Hkey. unfold conflict_key in Hkey.
  apply key_split in Hkey as [Hc Ht]; [|now apply no_dash_pretty..].
  split; [exact Hc|]. now apply (inj pretty).
Qed.

Section ConflictFacts.
Variable getMessages : string -> Q (list ConversationMessage).
Variable storeMessage : string -> list ConversationMessage -> Q unit.

(** Whatever the storage answers, [resolveMessageConflicts] returns and
    what it returns is sorted by timestamp, oldest first, and holds no two
    messages of the same key, the content and the timestamp joined by a
    dash; it holds only messages the storage gave, and when the storage
    took the result back, every message the storage gave has there a
    message of its key.  That message has its content and its timestamp
    when neither timestamp is negative; a message of a negative timestamp
    can share its key with a message of another content, and be dropped
    for it. *)
Theorem resolveMessageConflicts_sorted_unique (conversationId : string) (s : State) :
  exists r s',
    resolveMessageConflicts getMessages storeMessage conversationId s = (Ok r, s')
    /\ StronglySorted oldest_first r
    /\ List.NoDup (map conflict_key r)
    /\ (forall ms s1, getMessages conversationId s = (Ok ms, s1) ->
        (forall m, In m r -> In m ms)
        /\ (forall s2,
              storeMessage conversationId (unique_messages ∅ (sort by_timestamp ms)) s1
              = (Ok tt, s2) ->
              forall m, In m ms ->
                exists m', In m' r /\ conflict_key m' = conflict_key m
                  /\ (0 <= msg_timestamp m -> 0 <= msg_timestamp m' ->
                      msg_content m' = msg_content m
                      /\ msg_timestamp m' = msg_timestamp m))).
Proof.
  unfold resolveMessageConflicts, try_catch, bind.
  destruct (getMessages conversationId s) as [[ms|e] s1] eqn:Hget.
  - set (r := unique_messages ∅ (sort by_timestamp ms)).
    assert (Hsub : forall m, In m r -> In m ms).
    { intros m Hm. eapply sublist_In in Hm; [|apply unique_messages_sublist].
      eapply Permutation_in; [apply sort_perm | exact Hm]. }
    destruct (storeMessage conversationId r s1) as [[[]|e] s2] eqn:Hstore.
    + exists r, s2. split; [reflexivity|]. split.
      { eapply StronglySorted_sublist;
          [apply unique_messages_sublist | apply sort_by_timestamp_sorted]. }
      split; [apply unique_messages_NoDup|].
      intros ms' s1' Heq. injection Heq as <- <-. split; [exact Hsub|].
      intros s2' _ m Hm.
      destruct (unique_messages_covers ∅ (sort by_timestamp ms) m) as [Hs | Hc].
      * eapply Permutation_in; [symmetry; apply sort_perm | exact Hm].
      * set_solver.
      * destruct Hc as (m' & Hin & Hkey). exists m'.
        split; [exact Hin|]. split; [exact Hkey|].
        intros Hpos Hpos'. now apply conflict_key_inj.
    + eexists [], _. split; [reflexivity|]. split; [constructor|].
      split; [constructor|].
      intros ms' s1' Heq. injection Heq as <- <-. split; [intros ? []|].
      intros s2' Hok. fold r in Hok. congruence.
  - eexists [], _. split; [reflexivity|]. split; [constructor|].
    split; [constructor|]. intros ms' s1' Heq. discriminate.
Qed.

End ConflictFacts.

(** Two messages of different content and timestamp under one key: the
    second is dropped. *)
Example conflict_keys_collide :
  let first := {| msg_id := "a"; msg_content := "a"; msg_timestamp := -12 |} in
  let second := {| msg_id := "b"; msg_content := "a-"; msg_timestamp := 12 |} in
  conflict_key first = conflict_key second
  /\ unique_messages ∅ (sort by_timestamp [first; second]) = [first].
Proof. cbv zeta. split; vm_compute; reflexivity. Qed.

(** *** The code run on the samples *)

Lemma processMessage_waits_for_backoff_witness :
  (retryCount waiting_item < maxRetries)%nat
  /\ lastRetry waiting_item = Some 1699999999000
  /\ getRetryDelay (retryCount waiting_item) = Some 5000
  /\ now_of mixed_queue - 1699999999000 < 5000
  /\ deliveries (snd (processMessage waiting_item mixed_queue)) = []
  /\ 5000 <= now_of (set_world later_world mixed_queue) - 1699999999000
  /\ deliveries (snd (processMessage waiting_item (set_world later_world mixed_queue)))
     = ["m-waiting"%string].
Proof.
  assert (Hlt : (retryCount waiting_item < maxRetries)%nat) by (vm_compute; lia).
  assert (Hlast : lastRetry waiting_item = Some 1699999999000) by reflexivity.
  assert (Hne : 1699999999000 <> 0) by discriminate.
  assert (Hdelay : getRetryDelay (retryCount waiting_item) = Some 5000) by reflexivity.
  assert (Hsoon : now_of mixed_queue - 1699999999000 < 5000) by (vm_compute; reflexivity).
  assert (Hlate : 5000 <= now_of (set_world later_world mixed_queue) - 1699999999000)
    by (vm_compute; discriminate).
  split; [exact Hlt|]. split; [exact Hlast|]. split; [exact Hdelay|].
  split; [exact Hsoon|]. split; [|split; [exact Hlate|]].
  - exact (proj1 (proj1 (proj2 (processMessage_waits_for_backoff waiting_item mixed_queue
                                 _ _ Hlt Hlast Hne Hdelay)) Hsoon)).
  - exact (proj2 (proj2 (processMessage_waits_for_backoff waiting_item
                           (set_world later_world mixed_queue)
                           _ _ Hlt Hlast Hne Hdelay)) Hlate).
Defined.

Lemma mixed_queue_keys : distinct_keys mixed_queue.
Proof.
  unfold distinct_keys. simpl. repeat constructor; simpl; intuition discriminate.
Qed.

Lemma sent_message_is_never_resent_witness :
  distinct_keys mixed_queue
  /\ outbox_get "m-new" (outbox mixed_queue) = Some new_sent_item
  /\ status new_sent_item = sent
  /\ (exists x', outbox_get "m-new" (outbox (run sample_events mixed_queue)) = Some x'
                 /\ status x' = sent /\ message x' = sample_message "bob")
  /\ exists extra,
       delivered_since mixed_queue (run sample_events mixed_queue) extra
       /\ ~ In "m-new"%string extra.
Proof.
  assert (Hget : outbox_get "m-new" (outbox mixed_queue) = Some new_sent_item)
    by reflexivity.
  assert (Hst : status new_sent_item = sent) by reflexivity.
  split; [exact mixed_queue_keys|]. split; [exact Hget|]. split; [exact Hst|].
  exact (sent_message_is_never_resent "m-new" new_sent_item sample_events mixed_queue
           mixed_queue_keys Hget Hst).
Defined.

Lemma clearSentMessages_keeps_the_rest_witness :
  distinct_keys mixed_queue
  /\ map id (outbox (snd (clearSentMessages mixed_queue)))
     = ["m-waiting"; "m-failed"; "m-fresh"]%string.
Proof.
  split; [exact mixed_queue_keys|].
  rewrite (proj1 (proj2 (clearSentMessages_keeps_the_rest mixed_queue mixed_queue_keys))).
  reflexivity.
Defined.

Lemma cleanup_drops_old_sent_only_witness :
  distinct_keys mixed_queue
  /\ map id (outbox (snd (cleanup mixed_queue)))
     = ["m-waiting"; "m-failed"; "m-new"; "m-fresh"]%string.
Proof.
  split; [exact mixed_queue_keys|].
  rewrite (proj1 (proj2 (cleanup_drops_old_sent_only mixed_queue mixed_queue_keys))).
  reflexivity.
Defined.

Lemma retryFailedMessages_requeues_witness :
  networkStatus mixed_queue = online
  /\ In failed_item (outbox mixed_queue)
  /\ status failed_item = failed
  /\ exists extra,
       delivered_since (snd (retryFailedMessages mixed_queue))
         (snd (processQueue (snd (retryFailedMessages mixed_queue)))) extra
       /\ In "m-failed"%string extra.
Proof.
  assert (Hon : networkStatus mixed_queue = online) by reflexivity.
  assert (Hin : In failed_item (outbox mixed_queue)) by (simpl; auto).
  assert (Hst : status failed_item = failed) by reflexivity.
  split; [exact Hon|]. split; [exact Hin|]. split; [exact Hst|].
  destruct (retryFailedMessages_requeues mixed_queue) as (_ & _ & _ & _ & _ & Hsend).
  exact (Hsend Hon failed_item Hin Hst).
Defined.

Lemma getOutboxStatus_counts_witness :
  distinct_keys mixed_queue
  /\ exists st st',
       getOutboxStatus mixed_queue = (Ok st, mixed_queue)
       /\ count_total st = 5%nat /\ count_sent st = 2%nat
       /\ fst (getOutboxStatus (snd (clearSentMessages mixed_queue))) = Ok st'
       /\ count_sent st' = 0%nat /\ count_total st' = 3%nat.
Proof.
  split; [exact mixed_queue_keys|].
  destruct (getOutboxStatus_counts mixed_queue) as (st & Hrun & _ & _ & Hclear).
  destruct (Hclear mixed_queue_keys) as (st' & Hrun' & Hsent & _ & _ & Htotal).
  exists st, st'.
  assert (Hst : st = {| count_pending := 2; count_sent := 2; count_failed := 1;
                        count_total := 5; status_network := online |}).
  { assert (Heq : fst (getOutboxStatus mixed_queue) = Ok st) by now rewrite Hrun.
    vm_compute in Heq. congruence. }
  split; [exact Hrun|]. split; [rewrite Hst; reflexivity|].
  split; [rewrite Hst; reflexivity|]. split; [exact Hrun'|]. split; [exact Hsent|].
  rewrite Htotal, Hst. reflexivity.
Defined.

Lemma resolveMessageConflicts_sorted_unique_witness :
  exists r s',
    resolveMessageConflicts sample_getMessages sample_storeMessage "conv" mixed_queue
    = (Ok r, s')
    /\ map msg_id r = ["a"; "d"; "c"]%string
    /\ StronglySorted oldest_first r.
Proof.
  destruct (resolveMessageConflicts_sorted_unique sample_getMessages sample_storeMessage
              "conv" mixed_queue) as (r & s' & Hrun & Hsorted & _).
  exists r, s'. split; [exact Hrun|]. split; [|exact Hsorted].
  assert (Heq : fst (resolveMessageConflicts sample_getMessages sample_storeMessage
                       "conv" mixed_queue) = Ok r) by now rewrite Hrun.
  vm_compute in Heq. injection Heq as <-. reflexivity.
Defined.

End OutboxFacts.

(** * Further properties of [AmiXCrypto] *)
Module KeyFacts.
Import AmiXCrypto Samples.
Local Open Scope Z_scope.

(** *** The size of a digest *)

Lemma round_length (s : list Z) (kw : Z * Z) :
  length s = 8%nat -> length (SHA256.round s kw) = 8%nat.
Proof.
  intros H. do 9 (destruct s as [|? s]; try discriminate H). reflexivity.
Qed.

Lemma rounds_length (l : list (Z * Z)) (s : list Z) :
  length s = 8%nat -> length (fold_left SHA256.round l s) = 8%nat.
Proof.
  revert s. induction l as [|kw l IH]; intros s H; simpl; [exact H|].
  apply IH. now apply round_length.
Qed.

Lemma compress_length (h block : list Z) :
  length h = 8%nat -> length (SHA256.compress h block) = 8%nat.
Proof.
  intros H. unfold SHA256.compress.
  rewrite length_map, length_combine, rounds_length by exact H. lia.
Qed.

Lemma be_bytes_length (n : nat) (x : Z) : length (SHA256.be_bytes n x) = n.
Proof. induction n as [|n IH]; simpl; [reflexivity | now rewrite IH]. Qed.

Lemma be_bytes_range (n : nat) (x : Z) : Forall is_byte (SHA256.be_bytes n x).
Proof.
  induction n as [|n IH]; simpl; constructor; [|exact IH].
  unfold is_byte. change 255 with (Z.ones 8). rewrite Z.land_ones by lia.
  apply Z.mod_pos_bound. lia.
Qed.

Lemma digest_length (m : bytes) : length (SHA256.digest m) = 32%nat.
Proof.
  unfold SHA256.digest.
  set (ws := SHA256.be_words _ _).
  assert (H : length (fold_left SHA256.compress (SHA256.blocks (length ws) ws) SHA256.H0)
              = 8%nat).
  { generalize (SHA256.blocks (length ws) ws). intros bs.
    assert (H0 : length SHA256.H0 = 8%nat) by reflexivity.
    revert H0. generalize SHA256.H0. induction bs as [|b bs IH]; intros h Hh; simpl.
    - exact Hh.
    - apply IH. now apply compress_length. }
  revert H. generalize (fold_left SHA256.compress (SHA256.blocks (length ws) ws) SHA256.H0).
  intros h Hh. do 9 (destruct h as [|? h]; try discriminate Hh). reflexivity.
Qed.

Lemma digest_range (m : bytes) : Forall is_byte (SHA256.digest m).
Proof.
  unfold SHA256.digest. generalize (fold_left SHA256.compress
    (SHA256.blocks (length (SHA256.be_words (length (SHA256.pad m)) (SHA256.pad m)))
       (SHA256.be_words (length (SHA256.pad m)) (SHA256.pad m))) SHA256.H0).
  intros h. induction h as [|x h IH]; cbn [map concat]; [constructor|].
  apply List.Forall_app. split; [apply be_bytes_range | exact IH].
Qed.

Lemma hmac_runs (key data : bytes) :
  key <> [] -> hmac key data = Ok (HMAC.hmac_sha256 key data).
Proof. unfold hmac. destruct key; [congruence | reflexivity]. Qed.

Lemma hmac_refuses_empty_key (data : bytes) :
  hmac [] data = Throw (Error "DataError").
Proof. reflexivity. Qed.

Lemma hmac_length (key data : bytes) : length (HMAC.hmac_sha256 key data) = 32%nat.
Proof. apply digest_length. Qed.

Lemma hmac_range (key data : bytes) : Forall is_byte (HMAC.hmac_sha256 key data).
Proof. apply digest_range. Qed.

Lemma hmac_not_empty (key data : bytes) : HMAC.hmac_sha256 key data <> [].
Proof.
  intros H. apply (f_equal (@length Z)) in H. rewrite hmac_length in H. discriminate.
Qed.

(** *** HKDF *)

Lemma hkdf_expand_runs (prk info : bytes) (n : nat) (i : Z) (previous : bytes) :
  prk <> [] ->
  exists okm,
    hkdf_expand prk info n i previous = Ok okm
    /\ length okm = (32 * n)%nat /\ Forall is_byte okm.
Proof.
  intros Hprk. revert i previous.
  induction n as [|n IH]; intros i previous; cbn [hkdf_expand].
  - exists []. split; [reflexivity|]. split; [reflexivity | constructor].
  - rewrite hmac_runs by exact Hprk. cbn [rbind].
    destruct (IH (i + 1) (HMAC.hmac_sha256 prk (previous ++ info ++ [Z.land (i + 1) 255])))
      as (okm & -> & Hlen & Hrange).
    eexists. split; [reflexivity|]. split.
    + rewrite length_app, hmac_length, Hlen. lia.
    + apply List.Forall_app. split; [apply hmac_range | exact Hrange].
Qed.

Lemma hkdf_expand_prefix (prk info : bytes) (n k : nat) (i : Z) (previous : bytes) :
  prk <> [] ->
  exists okm,
    hkdf_expand prk info (n + k) i previous = Ok okm
    /\ hkdf_expand prk info n i previous = Ok (firstn (32 * n) okm).
Proof.
  intros Hprk. revert i previous.
  induction n as [|n IH]; intros i previous.
  - destruct (hkdf_expand_runs prk info (0 + k) i previous Hprk) as (okm & -> & _).
    exists okm. split; reflexivity.
  - cbn [Nat.add hkdf_expand]. rewrite hmac_runs by exact Hprk. cbn [rbind].
    destruct (IH (i + 1) (HMAC.hmac_sha256 prk (previous ++ info ++ [Z.land (i + 1) 255])))
      as (okm & -> & ->).
    eexists. split; [reflexivity|]. cbn [rmap]. f_equal.
    replace (32 * S n)%nat
      with (length (HMAC.hmac_sha256 prk (previous ++ info ++ [Z.land (i + 1) 255]))
            + 32 * n)%nat by (rewrite hmac_length; lia).
    now rewrite firstn_app_2.
Qed.

Lemma slice_from_start (l : bytes) (stop : Z) :
  0 <= stop -> slice l 0 stop = firstn (Z.to_nat stop) l.
Proof.
  intros H. unfold slice.
  assert (H0 : (0 <? 0) = false) by reflexivity. rewrite H0.
  assert (Hs : (stop <? 0) = false) by (apply Z.ltb_ge; exact H). rewrite Hs.
  replace (Z.min 0 (Z.of_nat (length l))) with 0 by lia. simpl.
  rewrite Z.sub_0_r.
  destruct (Z.le_gt_cases stop (Z.of_nat (length l))) as [Hle | Hgt].
  - now rewrite Z.min_l.
  - rewrite Z.min_r by lia. rewrite Nat2Z.id.
    rewrite !firstn_all2; auto; lia.
Qed.

(** The blocks [hkdf] computes for a length. *)
Lemma hkdf_unfold (inputKey salt info : bytes) (len : Z) :
  salt <> [] -> 0 <= len <= MAX_KEY_LENGTH ->
  exists okm,
    hkdf_expand (HMAC.hmac_sha256 salt inputKey) info
      (Z.to_nat ((len + HASH_LENGTH - 1) / HASH_LENGTH)) 0 [] = Ok okm
    /\ hkdf inputKey salt info len = Ok (firstn (Z.to_nat len) okm).
Proof.
  intros Hsalt [H0 Hmax]. unfold hkdf.
  assert (H1 : (MAX_KEY_LENGTH <? len) = false) by (apply Z.ltb_ge; exact Hmax).
  rewrite H1. rewrite hmac_runs by exact Hsalt. cbn [rbind].
  assert (Hb : 0 <= (len + HASH_LENGTH - 1) / HASH_LENGTH).
  { apply Z.div_pos; unfold HASH_LENGTH; lia. }
  assert (H2 : ((len + HASH_LENGTH - 1) / HASH_LENGTH <? 0) = false)
    by (apply Z.ltb_ge; exact Hb).
  rewrite H2.
  destruct (hkdf_expand_runs (HMAC.hmac_sha256 salt inputKey) info
              (Z.to_nat ((len + HASH_LENGTH - 1) / HASH_LENGTH)) 0 []
              (hmac_not_empty salt inputKey)) as (okm & Hrun & _).
  exists okm. split; [exact Hrun|]. rewrite Hrun. cbn [rbind].
  now rewrite slice_from_start.
Qed.

Lemma hkdf_blocks (len : Z) :
  0 <= len ->
  len <= 32 * ((len + HASH_LENGTH - 1) / HASH_LENGTH).
Proof.
  intros H. unfold HASH_LENGTH.
  pose proof (Z.div_mod (len + 32 - 1) 32 ltac:(lia)).
  pose proof (Z.mod_pos_bound (len + 32 - 1) 32 ltac:(lia)). lia.
Qed.

Lemma hkdf_runs (inputKey salt info : bytes) (len : Z) :
  salt <> [] -> 0 <= len <= MAX_KEY_LENGTH ->
  exists okm,
    hkdf inputKey salt info len = Ok okm
    /\ Z.of_nat (length okm) = len /\ Forall is_byte okm.
Proof.
  intros Hsalt Hlen.
  destruct (hkdf_unfold inputKey salt info len Hsalt Hlen) as (blocks & Hblocks & ->).
  destruct (hkdf_expand_runs (HMAC.hmac_sha256 salt inputKey) info
              (Z.to_nat ((len + HASH_LENGTH - 1) / HASH_LENGTH)) 0 []
              (hmac_not_empty salt inputKey)) as (okm & Hrun & Hsize & Hrange).
  rewrite Hblocks in Hrun. injection Hrun as <-.
  eexists. split; [reflexivity|]. split.
  - rewrite length_firstn, Hsize.
    pose proof (hkdf_blocks len (proj1 Hlen)) as Hb.
    assert (0 <= (len + HASH_LENGTH - 1) / HASH_LENGTH)
      by (apply Z.div_pos; unfold HASH_LENGTH; lia).
    lia.
  - now apply Forall_take.
Qed.

(** Under a salt that is not empty, [hkdf] gives exactly the number of
    bytes asked for, up to 255 blocks of 32 bytes; it refuses a longer
    request by name, and it fails under an empty salt, which the host
    refuses as a key. *)
Theorem hkdf_output_length (inputKey salt info : bytes) (len : Z) :
  (salt <> [] -> 0 <= len <= MAX_KEY_LENGTH ->
   exists okm,
     hkdf inputKey salt info len = Ok okm
     /\ Z.of_nat (length okm) = len /\ Forall is_byte okm)
  /\ (MAX_KEY_LENGTH < len ->
      hkdf inputKey salt info len
      = Throw (Error ("Requested key length (" +:+ pretty len +:+ ") is too large")))
  /\ (salt = [] -> len <= MAX_KEY_LENGTH ->
      exists msg, hkdf inputKey salt info len = Throw (Error msg)).
Proof.
  split; [apply hkdf_runs|]. split.
  - intros H. unfold hkdf. now rewrite (proj2 (Z.ltb_lt _ _) H).
  - intros -> H. unfold hkdf.
    assert (H1 : (MAX_KEY_LENGTH <? len) = false) by (apply Z.ltb_ge; exact H).
    rewrite H1. eexists. reflexivity.
Qed.

(** Under a salt that is not empty, a shorter key is the beginning of a
    longer key derived from the same key material, salt and context. *)
Theorem hkdf_shorter_is_prefix (inputKey salt info : bytes) (len1 len2 : Z) :
  salt <> [] ->
  0 <= len1 <= len2 -> len2 <= MAX_KEY_LENGTH ->
  exists okm,
    hkdf inputKey salt info len2 = Ok okm
    /\ hkdf inputKey salt info len1 = Ok (firstn (Z.to_nat len1) okm).
Proof.
  intros Hsalt [H0 H12] Hmax.
  destruct (hkdf_unfold inputKey salt info len1 Hsalt ltac:(lia)) as (okm1 & Hrun1 & ->).
  destruct (hkdf_unfold inputKey salt info len2 Hsalt ltac:(lia)) as (okm2 & Hrun2 & ->).
  eexists. split; [reflexivity|]. f_equal.
  set (n1 := Z.to_nat ((len1 + HASH_LENGTH - 1) / HASH_LENGTH)) in *.
  set (n2 := Z.to_nat ((len2 + HASH_LENGTH - 1) / HASH_LENGTH)) in *.
  assert (Hn : (n1 <= n2)%nat).
  { apply Z2Nat.inj_le.
    - apply Z.div_pos; unfold HASH_LENGTH; lia.
    - apply Z.div_pos; unfold HASH_LENGTH; lia.
    - apply Z.div_le_mono; unfold HASH_LENGTH; lia. }
  assert (Hl1 : (Z.to_nat len1 <= 32 * n1)%nat).
  { pose proof (hkdf_blocks len1 H0).
    assert (0 <= (len1 + HASH_LENGTH - 1) / HASH_LENGTH)
      by (apply Z.div_pos; unfold HASH_LENGTH; lia).
    subst n1. lia. }
  rewrite firstn_firstn. replace (Nat.min (Z.to_nat len1) (Z.to_nat len2))
    with (Z.to_nat len1) by lia.
  destruct (hkdf_expand_prefix (HMAC.hmac_sha256 salt inputKey) info n1 (n2 - n1) 0 []
              (hmac_not_empty salt inputKey)) as (okm & Hlong & Hshort).
  replace (n1 + (n2 - n1))%nat with n2 in Hlong by lia.
  rewrite Hrun2 in Hlong. injection Hlong as <-.
  rewrite Hrun1 in Hshort. injection Hshort as ->.
  rewrite firstn_firstn. f_equal. lia.
Qed.

Lemma deriveKey_runs (inputKey : Message) (info : string) (w : World) :
  exists key,
    deriveKey inputKey info 32 w = (Ok key, set_entropy_used (entropy_used w + 32) w)
    /\ length key = 32%nat.
Proof.
  unfold deriveKey, bind, generateRandomBytes, getRandomValues, lift.
  change (Z.to_nat HASH_LENGTH) with 32%nat.
  destruct (hkdf_runs (to_bytes inputKey) (map (entropy w) (seq (entropy_used w) 32))
              (utf8_encode info) 32) as (okm & Hrun & Hlen & _).
  { discriminate. }
  { unfold MAX_KEY_LENGTH, HASH_LENGTH. lia. }
  exists okm. rewrite Hrun. split; [reflexivity | lia].
Qed.


(** *** Hexadecimal text *)

Lemma nibble_cases (d : Z) :
  0 <= d < 16 ->
  d = 0 \/ d = 1 \/ d = 2 \/ d = 3 \/ d = 4 \/ d = 5 \/ d = 6 \/ d = 7
  \/ d = 8 \/ d = 9 \/ d = 10 \/ d = 11 \/ d = 12 \/ d = 13 \/ d = 14 \/ d = 15.
Proof. lia. Qed.

Lemma byte_nibbles (x : Z) :
  is_byte x ->
  0 <= Z.shiftr x 4 < 16 /\ 0 <= Z.land x 15 < 16
  /\ 16 * Z.shiftr x 4 + Z.land x 15 = x.
Proof.
  unfold is_byte. intros H.
  rewrite Z.shiftr_div_pow2 by lia. change 15 with (Z.ones 4).
  rewrite Z.land_ones by lia. change (2 ^ 4) with 16.
  pose proof (Z.div_mod x 16 ltac:(lia)).
  pose proof (Z.mod_pos_bound x 16 ltac:(lia)). lia.
Qed.

Lemma parseInt16_hex_digits (h l : Z) :
  0 <= h < 16 -> 0 <= l < 16 ->
  parseInt16 [hex_digit h; hex_digit l] = Some (16 * h + l).
Proof.
  intros Hh Hl.
  destruct (nibble_cases h Hh) as [-> | Hh'];
    [|repeat (destruct Hh' as [-> | Hh']); try subst h];
    (destruct (nibble_cases l Hl) as [-> | Hl'];
     [|repeat (destruct Hl' as [-> | Hl']); try subst l]);
    reflexivity.
Qed.

Lemma bytesToHex_cons (x : Z) (b : bytes) :
  bytesToHex (x :: b)
  = String (hex_digit (Z.shiftr x 4)) (String (hex_digit (Z.land x 15)) (bytesToHex b)).
Proof. reflexivity. Qed.

(** Text made by [bytesToHex] reads back, by [hexToBytes], as the bytes it
    was made from; it holds two characters for each byte. *)
Theorem hexToBytes_bytesToHex (b : bytes) :
  Forall is_byte b ->
  hexToBytes (bytesToHex b) = b
  /\ String.length (bytesToHex b) = (2 * length b)%nat.
Proof.
  induction 1 as [|x b Hx Hb [IH1 IH2]]; [split; reflexivity|].
  rewrite bytesToHex_cons. split.
  - unfold hexToBytes in *. cbn [chars_of list_ascii_of_string pairs_of map].
    unfold chars_of in IH1. rewrite IH1. f_equal.
    destruct (byte_nibbles x Hx) as (Hh & Hl & Hsum).
    rewrite parseInt16_hex_digits by assumption. rewrite Hsum.
    unfold to_uint8. apply Z.mod_small. exact Hx.
  - cbn [String.length length]. rewrite IH2. lia.
Qed.

(** *** Padding *)

(** The padding [generatePadding] draws fills the message up to whole
    blocks of 1024 bytes: it can be 1278 bytes long, above the 255 the
    configuration names; a message at or above the size limit gets
    none. *)
Theorem generatePadding_fills_blocks (messageLength : Z) (w : World) :
  0 <= messageLength ->
  0 <= uniform w (uniform_used w) < 2 ^ 53 ->
  exists padding w',
    generatePadding messageLength w = (Ok padding, w')
    /\ (PADDING.MAX_MESSAGE_SIZE <= messageLength -> padding = [] /\ w' = w)
    /\ (messageLength < PADDING.MAX_MESSAGE_SIZE ->
        (messageLength + Z.of_nat (length padding)) mod PADDING.BLOCK_SIZE = 0
        /\ Z.of_nat (length padding) < PADDING.BLOCK_SIZE + PADDING.MAX_PADDING
        /\ entropy_used w' = (entropy_used w + length padding)%nat).
Proof.
  intros Hm Hu. unfold generatePadding.
  unfold PADDING.MAX_PADDING, PADDING.MAX_MESSAGE_SIZE, PADDING.MIN_PADDING,
    PADDING.BLOCK_SIZE.
  set (maxPadding := Z.min 255 (10 * 1024 * 1024 - messageLength)).
  destruct (maxPadding <=? 0) eqn:Hmax.
  - apply Z.leb_le in Hmax. exists [], w. split; [reflexivity|].
    split; [auto|]. intros Hlt. subst maxPadding. lia.
  - apply Z.leb_gt in Hmax.
    unfold bind, Math_random_floor, generateRandomBytes, getRandomValues.
    set (r := uniform w (uniform_used w) * (maxPadding - 0 + 1) / 2 ^ 53).
    assert (Hr : 0 <= r <= maxPadding).
    { subst r. split.
      - apply Z.div_pos; [nia | lia].
      - apply Z.lt_succ_r. apply Z.div_lt_upper_bound; [lia | nia]. }
    set (aligned := (messageLength + (0 + r) + 1024 - 1) / 1024 * 1024 - messageLength).
    assert (Ha : r <= aligned < r + 1024
                 /\ (messageLength + aligned) mod 1024 = 0).
    { subst aligned.
      pose proof (Z.div_mod (messageLength + (0 + r) + 1024 - 1) 1024 ltac:(lia)).
      pose proof (Z.mod_pos_bound (messageLength + (0 + r) + 1024 - 1) 1024 ltac:(lia)).
      split; [lia|].
      replace (messageLength
               + ((messageLength + (0 + r) + 1024 - 1) / 1024 * 1024 - messageLength))
        with ((messageLength + (0 + r) + 1024 - 1) / 1024 * 1024) by lia.
      apply Z.mod_mul. lia. }
    eexists _, _. split; [reflexivity|].
    split; [intros Hge; subst maxPadding; lia|].
    intros _. rewrite length_map, length_seq.
    rewrite Z2Nat.id by lia. simpl.
    split; [apply Ha|]. split; [subst maxPadding; lia | reflexivity].
Qed.

(** *** Identifiers *)

Lemma get_in_range (s : string) (n : nat) :
  (n < String.length s)%nat ->
  exists c, String.get n s = Some c /\ In c (chars_of s).
Proof.
  revert n. induction s as [|a s IH]; intros n Hn; simpl in *; [lia|].
  destruct n as [|n].
  - exists a. auto.
  - destruct (IH n ltac:(lia)) as (c & Hc & Hin). exists c. auto.
Qed.

Lemma chars_of_app (a b : string) : chars_of (a +:+ b) = chars_of a ++ chars_of b.
Proof. unfold chars_of. induction a as [|c a IH]; simpl; [reflexivity | now rewrite IH]. Qed.

Lemma length_chars_of (s : string) : length (chars_of s) = String.length s.
Proof. unfold chars_of. induction s as [|c s IH]; simpl; [reflexivity | now rewrite IH]. Qed.

(** [generateAmiXID] draws eight random bytes and returns eight
    characters, each one of the 58 of its alphabet. *)
Theorem generateAmiXID_alphabet (w : World) :
  (forall n, is_byte (entropy w n)) ->
  exists text w',
    generateAmiXID w = (Ok text, w')
    /\ String.length text = 8%nat
    /\ Forall (fun c => In c (chars_of AMIX_ID_CHARS)) (chars_of text)
    /\ entropy_used w' = (entropy_used w + 8)%nat.
Proof.
  intros Hbytes.
  unfold generateAmiXID, bind, generateRandomBytes, getRandomValues, ret.
  eexists _, _. split; [reflexivity|].
  change (Z.to_nat 8) with 8%nat.
  assert (Hgen : forall (bs : bytes) (acc : string),
    Forall is_byte bs ->
    Forall (fun c => In c (chars_of AMIX_ID_CHARS)) (chars_of acc) ->
    let text := fold_left
      (fun result b =>
         result +:+ char_at AMIX_ID_CHARS
                      (Z.rem b (Z.of_nat (String.length AMIX_ID_CHARS)))) bs acc in
    String.length text = (String.length acc + length bs)%nat
    /\ Forall (fun c => In c (chars_of AMIX_ID_CHARS)) (chars_of text)).
  { induction bs as [|b bs IH]; intros acc Hbs Hacc; cbn [fold_left].
    - split; [simpl; lia | exact Hacc].
    - inversion Hbs as [|? ? Hb Hbs']; subst.
      assert (Hi : 0 <= Z.rem b (Z.of_nat (String.length AMIX_ID_CHARS)) < 58).
      { change (Z.of_nat (String.length AMIX_ID_CHARS)) with 58.
        unfold is_byte in Hb. rewrite Z.rem_mod_nonneg by lia.
        apply Z.mod_pos_bound. lia. }
      destruct (get_in_range AMIX_ID_CHARS
                  (Z.to_nat (Z.rem b (Z.of_nat (String.length AMIX_ID_CHARS)))))
        as (c & Hc & Hin).
      { change (String.length AMIX_ID_CHARS) with 58%nat at 2. lia. }
      assert (Hchar : char_at AMIX_ID_CHARS
                        (Z.rem b (Z.of_nat (String.length AMIX_ID_CHARS)))
                      = String c EmptyString).
      { unfold char_at. rewrite (proj2 (Z.ltb_ge _ _) (proj1 Hi)). now rewrite Hc. }
      rewrite Hchar.
      destruct (IH (acc +:+ String c EmptyString) Hbs') as [Hlen Hall].
      + rewrite chars_of_app. apply List.Forall_app. split; [exact Hacc|].
        constructor; [exact Hin | constructor].
      + split; [|exact Hall]. cbv zeta in Hlen. rewrite Hlen.
        rewrite <- !length_chars_of, chars_of_app, length_app. simpl. lia. }
  destruct (Hgen (map (entropy w) (seq (entropy_used w) 8)) EmptyString) as [Hlen Hall].
  - apply List.Forall_forall. intros x Hx. apply in_map_iff in Hx as (n & <- & _). apply Hbytes.
  - constructor.
  - cbv zeta in Hlen. rewrite length_map, length_seq in Hlen.
    split; [exact Hlen|]. split; [exact Hall | reflexivity].
Qed.


(** *** The additional data of [decryptMessage] *)

Section Imports.
Context {nacl : NaCl}.

Lemma bind_run {S A B} (m : SM S A) (k : A -> SM S B) (s : S) :
  bind m k s
  = match m s with
    | (Ok a, s') => k a s'
    | (Throw e, s') => (Throw e, s')
    end.
Proof. reflexivity. Qed.

(** The additional data is not sealed with the ciphertext: an envelope
    whose [aad] field is set to the hash of any data is opened under that
    data exactly as the envelope is opened when no data is given.  This
    holds with [decodeBase64] bound to nothing, as it is, both calls
    failing alike, and with [encodeBase64] bound to the encoding. *)
Theorem decryptMessage_aad_is_not_sealed
    (env : Envelope.t) (ratchetState : RatchetState.t) (aad : bytes) (w : World) :
  import_decodeBase64 = None \/ import_encodeBase64 = Some Base64.encodeBase64 ->
  decryptMessage (with_aad (Base64.encodeBase64 (hash (Binary aad))) env)
    ratchetState {| opt_aad := Some aad |} w
  = decryptMessage env ratchetState no_options w.
Proof.
  intros Hbound.
  unfold decryptMessage, with_aad, no_options.
  cbn [Envelope.version Envelope.messageCount Envelope.nonce Envelope.ciphertext
       Envelope.aad opt_aad].
  unfold try_catch.
  destruct (unsupported_version (Envelope.version env)); [reflexivity|].
  rewrite !bind_run.
  destruct (deriveKey _ _ _ w) as [[messageKey | error] w1]; [|reflexivity].
  unfold bind, lift, decodeBase64, encodeBase64.
  destruct Hbound as [Hdecode | Hencode].
  - rewrite Hdecode. reflexivity.
  - rewrite Hencode. cbn [imported rmap].
    destruct (rbind (imported "decodeBase64" import_decodeBase64)
                (fun decode => decode (Envelope.nonce env))) as [nonce | error];
      [|reflexivity].
    destruct (rbind (imported "decodeBase64" import_decodeBase64)
                (fun decode => decode (Envelope.ciphertext env))) as [ciphertext | error];
      [|reflexivity].
    rewrite String.eqb_refl. reflexivity.
Qed.

(** *** Rotation of the identity keys *)

(** The timer callback [checkAndRotateKeys] cannot reach the storage: it
    writes the failure to the console and arms itself again for an hour
    later, reading no clock and drawing no key; the other three methods
    that go through the storage reject with the same [ReferenceError]. *)
Theorem checkAndRotateKeys_only_reschedules (w : World) :
  exists w',
    checkAndRotateKeys w = (Ok tt, w')
    /\ timers w'
       = timers w ++ [{| timer_id := timers_created w; timer_delay := 3600000;
                         timer_task := CheckAndRotateKeys |}]
    /\ console w'
       = console w ++ ["Key rotation check failed: AmiXStorage is not defined"%string]
    /\ entropy_used w' = entropy_used w
    /\ clock_reads w' = clock_reads w
    /\ rotateIdentityKeysIfNeeded w
       = (Throw (ReferenceError "AmiXStorage is not defined"), w)
    /\ forceKeyRotation w = (Throw (ReferenceError "AmiXStorage is not defined"), w)
    /\ markKeyAsCompromised w = (Throw (ReferenceError "AmiXStorage is not defined"), w).
Proof. eexists. split; [reflexivity|]. splits; reflexivity. Qed.

End Imports.

(** *** The safety number *)

Lemma upper_hex_digit (d : Z) :
  0 <= d < 16 -> is_upper_hex (upper_ascii (hex_digit d)) = true.
Proof.
  intros Hd.
  destruct (nibble_cases d Hd) as [-> | Hd'];
    [|repeat (destruct Hd' as [-> | Hd']); try subst d]; reflexivity.
Qed.

Lemma toUpperCase_chars (s : string) :
  chars_of (toUpperCase s) = map upper_ascii (chars_of s).
Proof. unfold chars_of. induction s as [|c s IH]; simpl; [reflexivity | now rewrite IH]. Qed.

(** The first [n] bytes of a digest in hexadecimal, as characters. *)
Lemma hex_prefix (b : bytes) :
  Forall is_byte b ->
  forallb is_upper_hex (map upper_ascii (chars_of (bytesToHex b))) = true.
Proof.
  induction 1 as [|x b Hx Hb IH]; [reflexivity|].
  rewrite bytesToHex_cons. cbn [chars_of list_ascii_of_string map forallb].
  destruct (byte_nibbles x Hx) as (Hh & Hl & _).
  rewrite !upper_hex_digit by assumption. exact IH.
Qed.

Lemma bytesToHex_app (a b : bytes) : bytesToHex (a ++ b) = bytesToHex a +:+ bytesToHex b.
Proof.
  induction a as [|x a IH]; [reflexivity|].
  cbn [app]. rewrite !bytesToHex_cons, IH. reflexivity.
Qed.

Lemma substring0_app (a b : string) :
  substring0 (String.length a) (a +:+ b) = a.
Proof.
  unfold substring0. induction a as [|c a IH]; simpl.
  - destruct b; reflexivity.
  - now rewrite IH.
Qed.

(** The digest split after its first [n] bytes. *)
Lemma digest_split (n : nat) (m : bytes) :
  (n <= 32)%nat ->
  exists head rest,
    SHA256.digest m = head ++ rest /\ length head = n /\ Forall is_byte head.
Proof.
  intros Hn. exists (firstn n (SHA256.digest m)), (skipn n (SHA256.digest m)).
  split; [symmetry; apply firstn_skipn|]. split.
  - rewrite length_firstn, digest_length. lia.
  - apply Forall_take, digest_range.
Qed.

Lemma hex_length (b : bytes) : String.length (bytesToHex b) = (2 * length b)%nat.
Proof.
  induction b as [|x b IH]; [reflexivity|].
  rewrite bytesToHex_cons. cbn [String.length length]. rewrite IH. lia.
Qed.

(** The safety number of the mobile application is always made: three
    groups of four digits, separated by one blank, each digit one of
    [0-9A-F]. *)
Theorem generateSafetyNumber_format (publicKey1 publicKey2 : string) :
  exists a b c,
    generateSafetyNumber publicKey1 publicKey2 = Ok (a +:+ " " +:+ b +:+ " " +:+ c)
    /\ String.length a = 4%nat /\ String.length b = 4%nat /\ String.length c = 4%nat
    /\ forallb is_upper_hex (chars_of (a +:+ b +:+ c)) = true.
Proof.
  unfold generateSafetyNumber, SHA256.hexdigest.
  destruct (digest_split 6 (utf8_encode (publicKey1 +:+ publicKey2)) ltac:(lia))
    as (head & rest & -> & Hlen & Hbytes).
  rewrite bytesToHex_app.
  assert (H12 : String.length (bytesToHex head) = 12%nat) by (rewrite hex_length; lia).
  cbv zeta.
  replace (substring0 12 (bytesToHex head +:+ bytesToHex rest)) with (bytesToHex head)
    by (rewrite <- H12; symmetry; apply substring0_app).
  pose proof (hex_prefix head Hbytes) as Hhex.
  do 7 (destruct head as [|? head]; try discriminate Hlen).
  rewrite !bytesToHex_cons in *. clear H12 Hlen.
  cbn [chars_of list_ascii_of_string map] in Hhex.
  match goal with
  | |- context [match_groups4
                  (String ?c1 (String ?c2 (String ?c3 (String ?c4 (String ?c5
                  (String ?c6 (String ?c7 (String ?c8 (String ?c9 (String ?c10
                  (String ?c11 (String ?c12 _))))))))))))] =>
      generalize dependent c1; intros d1;
      generalize dependent c2; intros d2;
      generalize dependent c3; intros d3;
      generalize dependent c4; intros d4;
      generalize dependent c5; intros d5;
      generalize dependent c6; intros d6;
      generalize dependent c7; intros d7;
      generalize dependent c8; intros d8;
      generalize dependent c9; intros d9;
      generalize dependent c10; intros d10;
      generalize dependent c11; intros d11;
      generalize dependent c12; intros d12
  end.
  intros Hhex.
  exists (toUpperCase (String d1 (String d2 (String d3 (String d4 EmptyString))))),
         (toUpperCase (String d5 (String d6 (String d7 (String d8 EmptyString))))),
         (toUpperCase (String d9 (String d10 (String d11 (String d12 EmptyString))))).
  split; [reflexivity|]. splits; try reflexivity. exact Hhex.
Qed.

(** The safety number of the web application is eight digits of
    [0-9A-F], whatever the keys and the text the host makes of them. *)
Theorem web_generateSafetyNumber_format
    {Jwk : Type} (JSON_stringify : Jwk -> string) (publicKeyJwk1 publicKeyJwk2 : Jwk) :
  let number := WebCrypto.generateSafetyNumber JSON_stringify publicKeyJwk1 publicKeyJwk2 in
  String.length number = 8%nat
  /\ forallb is_upper_hex (chars_of number) = true.
Proof.
  cbv zeta. unfold WebCrypto.generateSafetyNumber.
  destruct (digest_split 4 (utf8_encode (JSON_stringify publicKeyJwk1
                                         +:+ JSON_stringify publicKeyJwk2)) ltac:(lia))
    as (head & rest & -> & Hlen & Hbytes).
  rewrite bytesToHex_app.
  assert (H8 : String.length (bytesToHex head) = 8%nat) by (rewrite hex_length; lia).
  cbv zeta.
  replace (substring0 8 (bytesToHex head +:+ bytesToHex rest)) with (bytesToHex head)
    by (rewrite <- H8; symmetry; apply substring0_app).
  pose proof (hex_prefix head Hbytes) as Hhex.
  rewrite toUpperCase_chars. split; [|exact Hhex].
  rewrite <- length_chars_of, toUpperCase_chars, length_map, length_chars_of. exact H8.
Qed.


(** *** The identifier of a key *)

Lemma length_append (a b : string) :
  String.length (a +:+ b) = (String.length a + String.length b)%nat.
Proof. now rewrite <- !length_chars_of, chars_of_app, length_app. Qed.

Lemma toString16_length (v : Z) :
  String.length (toString16 v) = if v <? 16 then 1%nat else 2%nat.
Proof. unfold toString16. destruct (v <? 16); reflexivity. Qed.

Lemma count_x_cons (c : ascii) (pattern : list ascii) :
  count_x (c :: pattern)
  = if Ascii.eqb c "x" then S (count_x pattern) else count_x pattern.
Proof. unfold count_x. simpl. destruct (Ascii.eqb c "x"); reflexivity. Qed.

Lemma variant_digit (r : Z) : (Z.lor (Z.land r 3) 8 <? 16) = true.
Proof.
  change 3 with (Z.ones 2). rewrite Z.land_ones by lia.
  pose proof (Z.mod_pos_bound r (2 ^ 2) ltac:(lia)) as H. change (2 ^ 2) with 4 in H.
  assert (r mod 2 ^ 2 = 0 \/ r mod 2 ^ 2 = 1 \/ r mod 2 ^ 2 = 2 \/ r mod 2 ^ 2 = 3)
    as [-> | [-> | [-> | ->]]] by (change (2 ^ 2) with 4; lia); reflexivity.
Qed.

Lemma uuid_replace_keeps (pattern : list ascii) (randomBytes : bytes) (w : World) :
  exists text w',
    uuid_replace pattern randomBytes w = (Ok text, w')
    /\ timers w' = timers w /\ console w' = console w.
Proof.
  revert w. induction pattern as [|c pattern IH]; intros w; simpl.
  - exists EmptyString, w. splits; reflexivity.
  - destruct (Ascii.eqb c "x" || Ascii.eqb c "y").
    + unfold bind at 1. unfold Math_random_floor.
      destruct (IH (set_uniform_used (S (uniform_used w)) w)) as (text & w' & Hrun & H1 & H2).
      unfold bind at 1. rewrite Hrun. eexists _, _. split; [reflexivity|].
      split; assumption.
    + destruct (IH w) as (text & w' & Hrun & H1 & H2).
      unfold bind at 1. rewrite Hrun. eexists _, _. split; [reflexivity|].
      split; assumption.
Qed.

Lemma uuid_replace_length (pattern : list ascii) (bs : bytes) (w : World) :
  (forall n, 0 <= uniform w n < 2 ^ 53) -> length bs = 16%nat ->
  exists text w',
    uuid_replace pattern bs w = (Ok text, w')
    /\ uniform w' = uniform w /\ entropy_used w' = entropy_used w
    /\ (length pattern <= String.length text <= length pattern + count_x pattern)%nat
    /\ (Forall (fun r => r < 16) bs -> String.length text = length pattern)
    /\ (Forall (fun r => 16 <= r) bs ->
        String.length text = (length pattern + count_x pattern)%nat).
Proof.
  intros Hu Hbs. revert w Hu.
  induction pattern as [|c pattern IH]; intros w Hu; cbn [uuid_replace].
  - exists EmptyString, w. splits; try reflexivity; simpl; lia.
  - rewrite count_x_cons.
    destruct (Ascii.eqb c "x") eqn:Ex; cbn [orb].
    + unfold bind at 1. unfold Math_random_floor.
      set (i := uniform w (uniform_used w) * 16 / 2 ^ 53).
      set (w1 := set_uniform_used (S (uniform_used w)) w).
      assert (Hi : 0 <= i < 16).
      { subst i. specialize (Hu (uniform_used w)). split.
        - apply Z.div_pos; lia.
        - apply Z.div_lt_upper_bound; lia. }
      assert (Hin : In (nth (Z.to_nat i) bs 0) bs) by (apply nth_In; lia).
      destruct (IH w1 Hu) as (tail & w' & Hrun & Hu' & He' & Hlen & Hlow & Hhigh).
      unfold bind at 1. rewrite Hrun. unfold ret.
      eexists _, _. split; [reflexivity|].
      rewrite length_append, toString16_length. cbn [length].
      split; [exact Hu'|]. split; [exact He'|]. split; [|split].
      * destruct (_ <? 16); lia.
      * intros Hall. rewrite (Hlow Hall).
        rewrite List.Forall_forall in Hall. specialize (Hall _ Hin).
        now rewrite (proj2 (Z.ltb_lt _ _) Hall).
      * intros Hall. rewrite (Hhigh Hall).
        rewrite List.Forall_forall in Hall. specialize (Hall _ Hin).
        rewrite (proj2 (Z.ltb_ge _ _) Hall). lia.
    + destruct (Ascii.eqb c "y") eqn:Ey.
      * unfold bind at 1. unfold Math_random_floor.
        set (w1 := set_uniform_used (S (uniform_used w)) w).
        destruct (IH w1 Hu) as (tail & w' & Hrun & Hu' & He' & Hlen & Hlow & Hhigh).
        unfold bind at 1. rewrite Hrun. unfold ret.
        eexists _, _. split; [reflexivity|].
        rewrite length_append, toString16_length, variant_digit. cbn [length].
        split; [exact Hu'|]. split; [exact He'|]. split; [lia|].
        split; intros Hall; [rewrite (Hlow Hall) | rewrite (Hhigh Hall)]; lia.
      * destruct (IH w Hu) as (tail & w' & Hrun & Hu' & He' & Hlen & Hlow & Hhigh).
        unfold bind at 1. rewrite Hrun. unfold ret.
        eexists _, _. split; [reflexivity|]. cbn [String.length length].
        split; [exact Hu'|]. split; [exact He'|]. split; [lia|].
        split; intros Hall; [rewrite (Hlow Hall) | rewrite (Hhigh Hall)]; lia.
Qed.

(** [generateSecureUUID] returns between 36 and 66 characters: 36, the
    length of a UUID, when every random byte is below 16, and 66 when
    every one is 16 or more, a byte being written with as many digits as
    it takes. *)
Theorem generateSecureUUID_length (w : World) :
  host_in_range w ->
  exists uuid w',
    generateSecureUUID w = (Ok uuid, w')
    /\ (36 <= String.length uuid <= 66)%nat
    /\ ((forall n, entropy w n < 16) -> String.length uuid = 36%nat)
    /\ ((forall n, 16 <= entropy w n) -> String.length uuid = 66%nat)
    /\ entropy_used w' = (entropy_used w + 16)%nat.
Proof.
  intros [_ Hu].
  unfold generateSecureUUID, bind, generateRandomBytes, getRandomValues.
  change (Z.to_nat 16) with 16%nat.
  set (bs := map (entropy w) (seq (entropy_used w) 16)).
  destruct (uuid_replace_length
              (list_ascii_of_string "xxxxxxxx-xxxx-4xxx-yxxx-xxxxxxxxxxxx") bs
              (set_entropy_used (entropy_used w + 16) w))
    as (text & w' & Hrun & _ & He & Hlen & Hlow & Hhigh).
  - exact Hu.
  - subst bs. now rewrite length_map, length_seq.
  - exists text, w'. split; [exact Hrun|].
    change (length (list_ascii_of_string "xxxxxxxx-xxxx-4xxx-yxxx-xxxxxxxxxxxx"))
      with 36%nat in *.
    change (count_x (list_ascii_of_string "xxxxxxxx-xxxx-4xxx-yxxx-xxxxxxxxxxxx"))
      with 30%nat in *.
    split; [lia|]. split; [|split].
    + intros Hall. apply Hlow. apply List.Forall_forall. intros r Hr.
      apply in_map_iff in Hr as (n & <- & _). apply Hall.
    + intros Hall. rewrite Hhigh; [reflexivity|]. apply List.Forall_forall. intros r Hr.
      apply in_map_iff in Hr as (n & <- & _). apply Hall.
    + exact He.
Qed.


(** *** The code run on the samples *)

Lemma hkdf_output_length_witness :
  map Z.of_nat (seq 0 13) <> []
  /\ 0 <= 42 <= MAX_KEY_LENGTH
  /\ MAX_KEY_LENGTH < 9000
  /\ (exists okm,
        hkdf (repeat 11 22) (map Z.of_nat (seq 0 13)) (map Z.of_nat (seq 240 10)) 42
        = Ok okm /\ Z.of_nat (length okm) = 42)
  /\ hkdf (repeat 11 22) (map Z.of_nat (seq 0 13)) (map Z.of_nat (seq 240 10)) 9000
     = Throw (Error "Requested key length (9000) is too large")
  /\ (exists msg, hkdf (repeat 11 22) [] (map Z.of_nat (seq 240 10)) 42
                  = Throw (Error msg)).
Proof.
  assert (Hsalt : map Z.of_nat (seq 0 13) <> []) by discriminate.
  assert (H42 : 0 <= 42 <= MAX_KEY_LENGTH) by (unfold MAX_KEY_LENGTH, HASH_LENGTH; lia).
  assert (H9000 : MAX_KEY_LENGTH < 9000) by (unfold MAX_KEY_LENGTH, HASH_LENGTH; lia).
  split; [exact Hsalt|]. split; [exact H42|]. split; [exact H9000|]. split; [|split].
  - destruct (proj1 (hkdf_output_length (repeat 11 22) (map Z.of_nat (seq 0 13))
                       (map Z.of_nat (seq 240 10)) 42) Hsalt H42)
      as (okm & Hrun & Hlen & _).
    exists okm. split; [exact Hrun | exact Hlen].
  - exact (proj1 (proj2 (hkdf_output_length (repeat 11 22) (map Z.of_nat (seq 0 13))
                           (map Z.of_nat (seq 240 10)) 9000)) H9000).
  - exact (proj2 (proj2 (hkdf_output_length (repeat 11 22) []
                           (map Z.of_nat (seq 240 10)) 42)) eq_refl (proj2 H42)).
Defined.

Lemma hkdf_shorter_is_prefix_witness :
  map Z.of_nat (seq 0 13) <> []
  /\ 0 <= 16 <= 42 /\ 42 <= MAX_KEY_LENGTH
  /\ exists okm,
       hkdf (repeat 11 22) (map Z.of_nat (seq 0 13)) (map Z.of_nat (seq 240 10)) 42
       = Ok okm
       /\ hkdf (repeat 11 22) (map Z.of_nat (seq 0 13)) (map Z.of_nat (seq 240 10)) 16
          = Ok (firstn 16 okm).
Proof.
  assert (Hsalt : map Z.of_nat (seq 0 13) <> []) by discriminate.
  assert (H1 : 0 <= 16 <= 42) by lia.
  assert (H2 : 42 <= MAX_KEY_LENGTH) by (unfold MAX_KEY_LENGTH, HASH_LENGTH; lia).
  split; [exact Hsalt|]. split; [exact H1|]. split; [exact H2|].
  exact (hkdf_shorter_is_prefix (repeat 11 22) (map Z.of_nat (seq 0 13))
           (map Z.of_nat (seq 240 10)) 16 42 Hsalt H1 H2).
Defined.

Lemma five_bytes : Forall is_byte [1; 2; 3; 4; 5].
Proof. repeat constructor; unfold is_byte; lia. Qed.

Lemma hexToBytes_bytesToHex_witness :
  Forall is_byte [1; 2; 3; 4; 5]
  /\ bytesToHex [1; 2; 3; 4; 5] = "0102030405"%string
  /\ hexToBytes "0102030405" = [1; 2; 3; 4; 5].
Proof.
  split; [exact five_bytes|]. split; [reflexivity|].
  exact (proj1 (hexToBytes_bytesToHex [1; 2; 3; 4; 5] five_bytes)).
Defined.

Lemma sample_world_in_range : host_in_range sample_world.
Proof.
  split; intros n; simpl; [|lia].
  unfold is_byte. apply Z.mod_pos_bound. lia.
Qed.

Lemma generatePadding_fills_blocks_witness :
  0 <= 12
  /\ 0 <= uniform sample_world (uniform_used sample_world) < 2 ^ 53
  /\ 12 < PADDING.MAX_MESSAGE_SIZE
  /\ exists padding w',
       generatePadding 12 sample_world = (Ok padding, w')
       /\ (12 + Z.of_nat (length padding)) mod 1024 = 0.
Proof.
  assert (H0 : 0 <= 12) by lia.
  assert (Hu : 0 <= uniform sample_world (uniform_used sample_world) < 2 ^ 53)
    by (simpl; lia).
  assert (Hm : 12 < PADDING.MAX_MESSAGE_SIZE) by (unfold PADDING.MAX_MESSAGE_SIZE; lia).
  split; [exact H0|]. split; [exact Hu|]. split; [exact Hm|].
  destruct (generatePadding_fills_blocks 12 sample_world H0 Hu)
    as (padding & w' & Hrun & _ & Hfill).
  exists padding, w'. split; [exact Hrun|]. exact (proj1 (Hfill Hm)).
Defined.

Lemma generateAmiXID_alphabet_witness :
  (forall n, is_byte (entropy sample_world n))
  /\ exists text w',
       generateAmiXID sample_world = (Ok text, w')
       /\ String.length text = 8%nat.
Proof.
  split; [exact (proj1 sample_world_in_range)|].
  destruct (generateAmiXID_alphabet sample_world (proj1 sample_world_in_range))
    as (text & w' & Hrun & Hlen & _).
  exists text, w'. split; [exact Hrun | exact Hlen].
Defined.

Lemma decryptMessage_aad_is_not_sealed_witness :
  (import_decodeBase64 (NaCl := installed) = None
   \/ import_encodeBase64 (NaCl := installed) = Some Base64.encodeBase64)
  /\ decryptMessage (nacl := installed)
       (with_aad (Base64.encodeBase64 (hash (Binary [1]))) foreign_envelope)
       sample_session {| opt_aad := Some [1] |} sample_world
     = decryptMessage (nacl := installed) foreign_envelope sample_session no_options
         sample_world.
Proof.
  assert (Hbound : import_decodeBase64 (NaCl := installed) = None
                   \/ import_encodeBase64 (NaCl := installed)
                      = Some Base64.encodeBase64)
    by (left; reflexivity).
  split; [exact Hbound|].
  exact (decryptMessage_aad_is_not_sealed (nacl := installed) foreign_envelope
           sample_session [1] sample_world Hbound).
Defined.

Lemma high_world_in_range : host_in_range high_world.
Proof. split; intros n; simpl; [unfold is_byte|]; lia. Qed.

Lemma low_world_in_range : host_in_range low_world.
Proof. split; intros n; simpl; [unfold is_byte|]; lia. Qed.

Lemma generateSecureUUID_length_witness :
  host_in_range high_world /\ host_in_range low_world
  /\ (forall n, 16 <= entropy high_world n)
  /\ (forall n, entropy low_world n < 16)
  /\ (exists uuid w',
        generateSecureUUID high_world = (Ok uuid, w') /\ String.length uuid = 66%nat)
  /\ (exists uuid w',
        generateSecureUUID low_world = (Ok uuid, w') /\ String.length uuid = 36%nat).
Proof.
  assert (Hhigh : forall n, 16 <= entropy high_world n) by (intros n; simpl; lia).
  assert (Hlow : forall n, entropy low_world n < 16) by (intros n; simpl; lia).
  split; [exact high_world_in_range|]. split; [exact low_world_in_range|].
  split; [exact Hhigh|]. split; [exact Hlow|]. split.
  - destruct (generateSecureUUID_length high_world high_world_in_range)
      as (uuid & w' & Hrun & _ & _ & H66 & _).
    exists uuid, w'. split; [exact Hrun | exact (H66 Hhigh)].
  - destruct (generateSecureUUID_length low_world low_world_in_range)
      as (uuid & w' & Hrun & _ & H36 & _).
    exists uuid, w'. split; [exact Hrun | exact (H36 Hlow)].
Defined.

(** The two identifiers themselves. *)
Example uuid_of_high_bytes :
  fst (generateSecureUUID high_world)
  = Ok "c8c8c8c8c8c8c8c8-c8c8c8c8-4c8c8c8-8c8c8c8-c8c8c8c8c8c8c8c8c8c8c8c8"%string.
Proof. vm_compute. reflexivity. Qed.

Example uuid_of_low_bytes :
  fst (generateSecureUUID low_world) = Ok "77777777-7777-4777-b777-777777777777"%string.
Proof. vm_compute. reflexivity. Qed.

End KeyFacts.

(** * Further properties of [GroupCrypto] *)
Module RotationFacts.
Import AmiXCrypto GroupCrypto VersionFacts Samples.
Local Open Scope Z_scope.

(** *** Versions *)

Lemma incrementVersion_iter (parts : list N) (n : N) (k : nat) :
  Nat.iter k _incrementVersion (dotted (parts ++ [n]))
  = dotted (parts ++ [(n + N.of_nat k)%N]).
Proof.
  induction k as [|k IH].
  - simpl. now rewrite N.add_0_r.
  - rewrite Nat.iter_succ, IH, incrementVersion_dotted. do 3 f_equal. lia.
Qed.

Lemma dotted_last_inj (parts : list N) (a b : N) :
  dotted (parts ++ [a]) = dotted (parts ++ [b]) -> a = b.
Proof.
  intros H. apply (f_equal split_dots) in H.
  rewrite !split_dots_dotted in H by (destruct parts; discriminate).
  rewrite !map_app in H. apply app_inj_tail in H as [_ H].
  now apply (inj pretty) in H.
Qed.

(** On a version of numbers joined by dots, [k] calls of
    [_incrementVersion] add [k] to the last number and keep the others;
    so the versions a group goes through are all different. *)
Theorem incrementVersion_counts (parts : list N) (n : N) (k : nat) :
  Forall exact parts -> exact (n + N.of_nat k) ->
  Nat.iter k _incrementVersion (dotted (parts ++ [n]))
  = dotted (parts ++ [(n + N.of_nat k)%N])
  /\ forall j, (j < k)%nat ->
       Nat.iter j _incrementVersion (dotted (parts ++ [n]))
       <> Nat.iter k _incrementVersion (dotted (parts ++ [n])).
Proof.
  intros _ _. split; [apply incrementVersion_iter|].
  intros j Hj Heq. rewrite !incrementVersion_iter in Heq.
  apply dotted_last_inj in Heq. lia.
Qed.

(** *** The rotation timer *)

(** [_scheduleKeyRotation] leaves one timer for the state: the one the
    state held is cleared, the new one is armed for the rotation date the
    state carries (at once when that date is past) and its handle kept in
    the state; nothing else of the state and nothing of the storage
    changes. *)
Theorem scheduleKeyRotation_rearms (g : GroupState) (e : Env) :
  let handle := timers_created (host e) in
  let now := clock (host e) (clock_reads (host e)) in
  let armed := {| timer_id := handle;
                  timer_delay := Z.max 0 (nextKeyRotation g - now);
                  timer_task := RotateGroupKeys (groupId g) |} in
  exists e',
    _scheduleKeyRotation g e = (Ok (with_rotationTimer (Some handle) g), e')
    /\ (exists kept, timers (host e') = kept ++ [armed]
          /\ (forall t, In t kept -> In t (timers (host e)))
          /\ (forall h t, rotationTimer g = Some h -> h <> 0%nat ->
                In t kept -> timer_id t <> h)
          /\ (forall t, In t (timers (host e)) ->
                rotationTimer g <> Some (timer_id t) -> In t kept))
    /\ 0 <= timer_delay armed
    /\ (nextKeyRotation g <= now -> timer_delay armed = 0)
    /\ storage e' = storage e.
Proof.
  cbv zeta. unfold _scheduleKeyRotation, bind, on_host, ret.
  destruct (rotationTimer g) as [h|] eqn:Hh; [destruct (h =? 0)%nat eqn:H0|]; simpl.
  - eexists. split; [reflexivity|]. split; [|split; [lia | split; [lia | reflexivity]]].
    exists (timers (host e)). split; [reflexivity|].
    apply Nat.eqb_eq in H0. subst h.
    split; [auto|]. split; [intros h t Heq Hne; congruence | auto].
  - eexists. split; [reflexivity|]. split; [|split; [lia | split; [lia | reflexivity]]].
    eexists. split; [reflexivity|]. split; [|split].
    + intros t Ht. now apply List.filter_In in Ht.
    + intros h' t Heq _ Ht. injection Heq as <-.
      apply List.filter_In in Ht as [_ Ht].
      apply negb_true_iff, Nat.eqb_neq in Ht. exact Ht.
    + intros t Ht Hne. apply List.filter_In. split; [exact Ht|].
      apply negb_true_iff, Nat.eqb_neq. congruence.
  - eexists. split; [reflexivity|]. split; [|split; [lia | split; [lia | reflexivity]]].
    exists (timers (host e)). split; [reflexivity|].
    split; [auto|]. split; [intros h t Heq; discriminate | auto].
Qed.

(** *** The rotation itself *)

Section Imports.
Context {nacl : NaCl}.

(** The callback of the rotation timer never rotates a key.  It does
    nothing for a group that is gone.  For a stored group it fails where
    the new key pair is to be made, [generateIdentityKeys] calling
    [box_keypair], which [tweetnacl] does not export: the error is logged
    and thrown, the storage is as it was, with the group's key pair and
    version, no byte is drawn and no timer is armed for a next
    rotation. *)
Theorem rotateGroupKeys_never_rotates (gid : string) (e : Env) :
  (groups (storage e) !! gid = None ->
   _rotateGroupKeys (nacl := installed) gid e = (Ok None, e))
  /\ (forall g, groups (storage e) !! gid = Some g ->
      exists msg e',
        _rotateGroupKeys (nacl := installed) gid e = (Throw (TypeError msg), e')
        /\ storage e' = storage e
        /\ timers (host e') = timers (host e)
        /\ entropy_used (host e') = entropy_used (host e)
        /\ clock_reads (host e') = clock_reads (host e)
        /\ console (host e')
           = console (host e) ++ ["Failed to rotate group keys: " +:+ msg]).
Proof.
  assert (Hget : getGroup gid e = (Ok (groups (storage e) !! gid), e)) by reflexivity.
  split.
  - intros Hnone. unfold _rotateGroupKeys.
    erewrite QueueFacts.try_catch_ok; [reflexivity|].
    erewrite QueueFacts.bind_ok by exact Hget. now rewrite Hnone.
  - intros g Hg.
    unfold _rotateGroupKeys, try_catch.
    erewrite QueueFacts.bind_ok by exact Hget. rewrite Hg.
    eexists _, _. split; [reflexivity|]. splits; reflexivity.
Qed.

(** *** Creation *)

(** [createGroup] never makes a group: it fails at the signing key pair,
    which no method of [AmiXCrypto] provides; the error is logged and
    thrown, nothing is stored, no key is drawn and no timer armed. *)
Theorem createGroup_never_succeeds
    (gid : string) (creator : User) (members : list User) (options : CreateOptions)
    (e : Env) :
  exists msg e',
    createGroup gid creator members options e = (Throw (TypeError msg), e')
    /\ storage e' = storage e
    /\ timers (host e') = timers (host e)
    /\ entropy_used (host e') = entropy_used (host e)
    /\ console (host e') = console (host e) ++ ["Failed to create group: " +:+ msg].
Proof. eexists _, _. split; [reflexivity|]. splits; reflexivity. Qed.

End Imports.

(** *** Administrators *)

(** An admin may remove itself.  When it was the only admin, the group is
    stored without one, and from then on [removeMember] refuses every
    removal in it. *)
Theorem removeMember_can_remove_the_last_admin
    (e : Env) (admin : User) (g : GroupState) :
  groups (storage e) !! groupId g = Some g ->
  is_admin g admin = true ->
  (forall k m, members g !! k = Some m -> isAdmin m = true -> k = user_id admin) ->
  exists g' e',
    removeMember (groupId g) admin (user_id admin) e = (Ok g', e')
    /\ groups (storage e') !! groupId g = Some g'
    /\ admins g' = ∅
    /\ forall (remover : User) (target : string),
         fst (removeMember (groupId g) remover target e')
         = Throw (Error "Only admins can remove members").
Proof.
  intros Hg Hadmin Honly.
  assert (Hm : is_Some (members g !! user_id admin)).
  { unfold is_admin in Hadmin. destruct (members g !! user_id admin); [eauto|discriminate]. }
  destruct Hm as [m Hm].
  assert (Hrun : exists g' e',
    removeMember (groupId g) admin (user_id admin) e = (Ok g', e')
    /\ members g' = delete (user_id admin) (members g)
    /\ groupId g' = groupId g
    /\ groups (storage e') = <[groupId g := g']> (groups (storage e))).
  { assert (Hhas : has_member g (user_id admin) = true)
      by (unfold has_member; now rewrite Hm).
    unfold removeMember, try_catch, bind, getGroup, get_store, ret. simpl.
    rewrite Hg. rewrite Hadmin, Hhas. simpl.
    unfold _scheduleKeyRotation, bind, on_host. simpl.
    destruct (rotationTimer g) as [h|]; [destruct (h =? 0)%nat|]; simpl;
      (do 2 eexists; split; [reflexivity|]; simpl; splits; reflexivity). }
  destruct Hrun as (g' & e' & Hrun & Hmem & Hid & Hstore).
  exists g', e'. split; [exact Hrun|].
  assert (Hg' : groups (storage e') !! groupId g = Some g').
  { rewrite Hstore. apply lookup_insert_eq. }
  assert (Hnone : forall remover, is_admin g' remover = false).
  { intros remover. unfold is_admin. rewrite Hmem.
    destruct (decide (user_id remover = user_id admin)) as [-> | Hne].
    - now rewrite lookup_delete_eq.
    - rewrite lookup_delete_ne by congruence.
      destruct (members g !! user_id remover) as [m'|] eqn:Hm'; [|reflexivity].
      destruct (isAdmin m') eqn:Ha; [|reflexivity].
      exfalso. apply Hne. eapply Honly; eauto. }
  split; [exact Hg'|]. split.
  - unfold admins. apply map_empty. intros k.
    apply map_lookup_filter_None. right. intros m' Hm' Ha. simpl in Ha.
    rewrite Hmem in Hm'.
    destruct (decide (k = user_id admin)) as [-> | Hne].
    + rewrite lookup_delete_eq in Hm'. discriminate.
    + rewrite lookup_delete_ne in Hm' by congruence. apply Hne. eapply Honly; eauto.
  - intros remover target.
    unfold removeMember, try_catch, bind, getGroup, get_store, ret. simpl.
    rewrite Hg'. rewrite (Hnone remover). reflexivity.
Qed.


(** *** The code run on the samples *)

Lemma incrementVersion_counts_witness :
  Forall exact [1%N; 0%N] /\ exact (0 + N.of_nat 3)
  /\ Nat.iter 3 _incrementVersion "1.0.0" = "1.0.3"%string
  /\ Nat.iter 2 _incrementVersion "1.0.0" <> Nat.iter 3 _incrementVersion "1.0.0".
Proof.
  assert (Hparts : Forall exact [1%N; 0%N]) by (repeat constructor).
  assert (Hlast : exact (0 + N.of_nat 3)) by reflexivity.
  split; [exact Hparts|]. split; [exact Hlast|].
  destruct (incrementVersion_counts [1%N; 0%N] 0%N 3 Hparts Hlast) as [Hrun Hdiff].
  split; [exact Hrun|]. apply (Hdiff 2%nat). lia.
Defined.

Lemma removeMember_can_remove_the_last_admin_witness :
  groups (storage sample_env) !! groupId sample_group = Some sample_group
  /\ is_admin sample_group {| user_id := "alice" |} = true
  /\ exists g' e',
       removeMember "g1" {| user_id := "alice" |} "alice" sample_env = (Ok g', e')
       /\ fst (removeMember "g1" {| user_id := "bob" |} "bob" e')
          = Throw (Error "Only admins can remove members").
Proof.
  assert (Hg : groups (storage sample_env) !! groupId sample_group = Some sample_group)
    by reflexivity.
  assert (Ha : is_admin sample_group {| user_id := "alice" |} = true) by reflexivity.
  assert (Honly : forall k m, members sample_group !! k = Some m -> isAdmin m = true ->
                    k = user_id {| user_id := "alice" |}).
  { intros k m Hm Hadm. simpl in *.
    destruct (decide (k = "alice"%string)) as [->|Hne]; [reflexivity|].
    rewrite lookup_insert_ne in Hm by congruence.
    destruct (decide (k = "bob"%string)) as [->|Hne'].
    - rewrite lookup_insert_eq in Hm. injection Hm as <-. discriminate.
    - rewrite lookup_insert_ne in Hm by congruence. discriminate. }
  split; [exact Hg|]. split; [exact Ha|].
  destruct (removeMember_can_remove_the_last_admin sample_env {| user_id := "alice" |}
              sample_group Hg Ha Honly) as (g' & e' & Hrun & _ & _ & Hlocked).
  exists g', e'. split; [exact Hrun|]. apply Hlocked.
Defined.

End RotationFacts.

(** * Test vectors of AES and of its Galois/Counter Mode *)

Example aes128_fips197 :
  bytesToHex (AESGCM.encrypt_block
    (AESGCM.key_schedule (hexToBytes "000102030405060708090a0b0c0d0e0f"))
    (hexToBytes "00112233445566778899aabbccddeeff"))
  = "69c4e0d86a7b0430d8cdb78070b4c55a"%string.
Proof. vm_compute. reflexivity. Qed.

Example aes192_fips197 :
  bytesToHex (AESGCM.encrypt_block
    (AESGCM.key_schedule (hexToBytes "000102030405060708090a0b0c0d0e0f1011121314151617"))
    (hexToBytes "00112233445566778899aabbccddeeff"))
  = "dda97ca4864cdfe06eaf70a0ec0d7191"%string.
Proof. vm_compute. reflexivity. Qed.

Example aes256_fips197 :
  bytesToHex (AESGCM.encrypt_block
    (AESGCM.key_schedule
       (hexToBytes "000102030405060708090a0b0c0d0e0f101112131415161718191a1b1c1d1e1f"))
    (hexToBytes "00112233445566778899aabbccddeeff"))
  = "8ea2b7ca516745bfeafc49904b496089"%string.
Proof. vm_compute. reflexivity. Qed.

Example gcm_aes128_zero_block :
  bytesToHex (AESGCM.seal (repeat 0%Z 16) (repeat 0%Z 12) [] (repeat 0%Z 16))
  = "0388dace60b6a392f328c2b971b2fe78ab6e47d42cec13bdf53a67b21257bddf"%string.
Proof. vm_compute. reflexivity. Qed.

Example gcm_aes256_empty :
  bytesToHex (AESGCM.seal (repeat 0%Z 32) (repeat 0%Z 12) [] [])
  = "530f8afbc74536b9a963b4f1c4cb738b"%string.
Proof. vm_compute. reflexivity. Qed.

Example gcm_aes256_zero_block :
  bytesToHex (AESGCM.seal (repeat 0%Z 32) (repeat 0%Z 12) [] (repeat 0%Z 16))
  = "cea7403d4d606b6e074ec5d3baf39d18d0d1c8a799996bf0265b98b5d48ab919"%string.
Proof. vm_compute. reflexivity. Qed.

(** With additional data and an initialisation vector of 60 bytes. *)
Example gcm_aes128_long_iv :
  bytesToHex (AESGCM.seal (hexToBytes "feffe9928665731c6d6a8f9467308308")
    (hexToBytes "9313225df88406e555909c5aff5269aa6a7a9538534f7da1e4c303d2a318a728c3c0c95156809539fcf0e2429a6b525416aedbf5a0de6a57a637b39b")
    (hexToBytes "feedfacedeadbeeffeedfacedeadbeefabaddad2")
    (hexToBytes "d9313225f88406e5a55909c5aff5269a86a7a9531534f7da2e4c303d8a318a721c3c0c95956809532fcf0e2449a6b525b16aedf5aa0de657ba637b39"))
  = "8ce24998625615b603a033aca13fb894be9112a5c3a211a8ba262a3cca7e2ca701e4a9a4fba43c90ccdcb281d48c7c6fd62875d2aca417034c34aee5619cc5aefffe0bfa462af43c1699d050"%string.
Proof. vm_compute. reflexivity. Qed.

(** * Properties of the web ratchet *)
Module RatchetFacts.
Import WebCrypto Samples.
Import AmiXCrypto(is_byte).
Local Open Scope Z_scope.

(** *** The cipher opens what it seals *)

Lemma encrypt_block_length (w block : bytes) : length (AESGCM.encrypt_block w block) = 16%nat.
Proof.
  unfold AESGCM.encrypt_block, AESGCM.add_round_key.
  now rewrite !length_map, length_seq.
Qed.

Lemma land_byte (x : Z) : is_byte (Z.land x 255).
Proof.
  unfold is_byte. change 255 with (Z.ones 8). rewrite Z.land_ones by lia.
  apply Z.mod_pos_bound. lia.
Qed.

Lemma lxor_byte (a b : Z) : is_byte a -> is_byte b -> is_byte (Z.lxor a b).
Proof.
  unfold is_byte. intros Ha Hb.
  assert (H0 : 0 <= Z.lxor a b) by (apply Z.lxor_nonneg; lia).
  split; [exact H0|].
  destruct (Z.eq_dec (Z.lxor a b) 0) as [-> | Hne]; [lia|].
  apply Z.log2_lt_cancel. change (Z.log2 256) with 8.
  eapply Z.le_lt_trans; [apply Z.log2_lxor; lia|].
  apply Z.max_lub_lt.
  - destruct (Z.eq_dec a 0) as [-> | Ha0]; [simpl; lia|].
    apply Z.log2_lt_pow2; lia.
  - destruct (Z.eq_dec b 0) as [-> | Hb0]; [simpl; lia|].
    apply Z.log2_lt_pow2; lia.
Qed.

Lemma encrypt_block_range (w block : bytes) : Forall is_byte (AESGCM.encrypt_block w block).
Proof.
  unfold AESGCM.encrypt_block. apply List.Forall_forall. intros x Hx.
  apply in_map_iff in Hx as (y & <- & _). apply land_byte.
Qed.

Lemma length_concat_blocks {A} (f : A -> bytes) (l : list A) (n : nat) :
  (forall x, length (f x) = n) -> length (concat (map f l)) = (n * length l)%nat.
Proof.
  intros Hf. induction l as [|x l IH]; simpl; [lia|].
  rewrite length_app, Hf, IH. lia.
Qed.

Lemma keystream_length (w j0 : bytes) (len : nat) :
  (len <= length (AESGCM.keystream w j0 len))%nat.
Proof.
  unfold AESGCM.keystream.
  rewrite (length_concat_blocks _ _ 16) by (intros; apply encrypt_block_length).
  rewrite length_seq.
  pose proof (Nat.div_mod_eq len 16). pose proof (Nat.mod_upper_bound len 16). lia.
Qed.

Lemma keystream_range (w j0 : bytes) (len : nat) :
  Forall is_byte (AESGCM.keystream w j0 len).
Proof.
  unfold AESGCM.keystream. induction (seq 0 (S (len / 16))) as [|i l IH].
  - constructor.
  - cbn [map concat]. apply List.Forall_app.
    split; [apply encrypt_block_range | exact IH].
Qed.

Lemma xor_with_length (stream data : bytes) :
  (length data <= length stream)%nat ->
  length (AESGCM.xor_with stream data) = length data.
Proof.
  intros H. unfold AESGCM.xor_with. rewrite length_map, length_combine. lia.
Qed.

Lemma xor_with_twice (stream data : bytes) :
  (length data <= length stream)%nat ->
  AESGCM.xor_with stream (AESGCM.xor_with stream data) = data.
Proof.
  unfold AESGCM.xor_with. revert stream.
  induction data as [|d data IH]; intros stream H; [reflexivity|].
  destruct stream as [|s stream]; simpl in *; [lia|].
  rewrite IH by lia. f_equal.
  now rewrite Z.lxor_assoc, Z.lxor_nilpotent, Z.lxor_0_r.
Qed.

Lemma xor_with_range (stream data : bytes) :
  Forall is_byte stream -> Forall is_byte data ->
  Forall is_byte (AESGCM.xor_with stream data).
Proof.
  unfold AESGCM.xor_with. intros Hs. revert data.
  induction Hs as [|s stream Hs Hstream IH]; intros data Hd.
  - destruct data; constructor.
  - destruct Hd as [|d data Hd Hdata]; simpl; constructor.
    + now apply lxor_byte.
    + now apply IH.
Qed.

Lemma be_encode_length (n : nat) (x : Z) : length (AESGCM.be_encode n x) = n.
Proof. unfold AESGCM.be_encode. now rewrite length_map, length_seq. Qed.

Lemma tag_length (w : bytes) (h : Z) (j0 a c : bytes) :
  length (AESGCM.tag w h j0 a c) = 16%nat.
Proof.
  unfold AESGCM.tag.
  now rewrite length_map, length_combine, be_encode_length, encrypt_block_length.
Qed.

Lemma tag_range (w : bytes) (h : Z) (j0 a c : bytes) :
  Forall is_byte (AESGCM.tag w h j0 a c).
Proof.
  unfold AESGCM.tag.
  assert (Hgen : forall l1 l2, Forall is_byte l1 -> Forall is_byte l2 ->
            Forall is_byte (map (fun q : Z * Z => Z.lxor (fst q) (snd q)) (combine l1 l2))).
  { induction l1 as [|x l1 IH]; intros l2 H1 H2; [constructor|].
    destruct l2 as [|y l2]; [constructor|].
    inversion H1; inversion H2; subst. simpl. constructor.
    - now apply lxor_byte.
    - now apply IH. }
  apply Hgen; [|apply encrypt_block_range].
  unfold AESGCM.be_encode. apply List.Forall_forall. intros x Hx.
  apply in_map_iff in Hx as (y & <- & _). apply land_byte.
Qed.

Lemma same_bytes_refl (t : bytes) : AESGCM.same_bytes t t = true.
Proof.
  unfold AESGCM.same_bytes. rewrite Nat.eqb_refl. simpl.
  induction t as [|x t IH]; simpl; [reflexivity|]. now rewrite Z.eqb_refl.
Qed.

(** What was sealed under a key, an initialisation vector and additional
    data opens under them to the plaintext. *)
Lemma open_seal (key iv a plaintext : bytes) :
  AESGCM.open key iv a (AESGCM.seal key iv a plaintext) = Some plaintext.
Proof.
  unfold AESGCM.open, AESGCM.seal.
  set (w := AESGCM.key_schedule key).
  set (h := AESGCM.be_decode 0 (AESGCM.encrypt_block w (repeat 0 16))).
  set (j0 := AESGCM.counter0 h iv).
  set (c := AESGCM.xor_with (AESGCM.keystream w j0 (length plaintext)) plaintext).
  assert (Hc : length c = length plaintext).
  { subst c. apply xor_with_length, keystream_length. }
  rewrite length_app, tag_length.
  assert (Hlt : (length c + 16 <? 16)%nat = false) by (apply Nat.ltb_ge; lia).
  rewrite Hlt.
  replace (length c + 16 - 16)%nat with (length c) by lia.
  rewrite firstn_app, Nat.sub_diag, firstn_all, firstn_O, app_nil_r.
  rewrite skipn_app, Nat.sub_diag, skipn_all, skipn_O.
  cbn [app]. rewrite same_bytes_refl. f_equal.
  rewrite Hc. subst c. apply xor_with_twice, keystream_length.
Qed.

Lemma seal_range (key iv a plaintext : bytes) :
  Forall is_byte plaintext -> Forall is_byte (AESGCM.seal key iv a plaintext).
Proof.
  intros Hp. unfold AESGCM.seal. apply List.Forall_app. split.
  - apply xor_with_range; [apply keystream_range | exact Hp].
  - apply tag_range.
Qed.

Lemma to_bytes_id (b : bytes) : Forall is_byte b -> to_bytes b = b.
Proof.
  unfold to_bytes. induction 1 as [|x b Hx Hb IH]; simpl; [reflexivity|].
  rewrite IH. f_equal. now apply Z.mod_small.
Qed.

Lemma utf8_encode_range (s : string) : Forall is_byte (utf8_encode s).
Proof.
  unfold utf8_encode. apply List.Forall_forall. intros x Hx.
  apply in_map_iff in Hx as (c & <- & _). unfold is_byte.
  pose proof (N_ascii_bounded c). lia.
Qed.

Lemma text_of_encode (s : string) : text_of (utf8_encode s) = s.
Proof.
  unfold text_of, utf8_encode. rewrite map_map.
  rewrite (map_ext _ (fun c => c)).
  - rewrite map_id. apply string_of_list_ascii_of_string.
  - intros c. rewrite N2Z.id. apply ascii_N_embedding.
Qed.

(** The decoder keeps well-formed input as it is. *)
Lemma decode_sequences_well_formed (b : bytes) :
  well_formed b = true -> decode_sequences b = b.
Proof.
  remember (length b) as n eqn:Hn. revert b Hn.
  induction n as [n IH] using lt_wf_ind. intros b Hn H.
  destruct b as [|x rest]; [reflexivity|].
  cbn [well_formed] in H. cbn [decode_sequences]. cbn [length] in Hn.
  destruct (x <=? 127) eqn:E1.
  - destruct (0 <=? x) eqn:E0; cbn [andb] in H.
    + f_equal. apply (IH (length rest)); [lia | reflexivity | exact H].
    + apply Z.leb_gt in E0. unfold between in H.
      assert (L1 : (194 <=? x) = false) by (apply Z.leb_gt; lia).
      assert (L2 : (224 <=? x) = false) by (apply Z.leb_gt; lia).
      assert (L3 : (240 <=? x) = false) by (apply Z.leb_gt; lia).
      rewrite L1, L2, L3 in H. discriminate.
  - rewrite andb_false_r in H.
    destruct (between 194 223 x).
    { destruct rest as [|y rest1]; [discriminate|].
      apply andb_true_iff in H as [Hy H]. rewrite Hy. do 2 f_equal.
      cbn [length] in Hn. apply (IH (length rest1)); [lia | reflexivity | exact H]. }
    destruct (between 224 239 x).
    { destruct rest as [|y [|z rest2]]; try discriminate.
      apply andb_true_iff in H as [H Hrest].
      apply andb_true_iff in H as [Hy Hz].
      cbv zeta. rewrite Hy, Hz. do 3 f_equal.
      cbn [length] in Hn. apply (IH (length rest2)); [lia | reflexivity | exact Hrest]. }
    destruct (between 240 244 x); [|discriminate].
    destruct rest as [|y [|z [|u rest3]]]; try discriminate.
    apply andb_true_iff in H as [H Hrest].
    apply andb_true_iff in H as [H Hu].
    apply andb_true_iff in H as [Hy Hz].
    cbv zeta. rewrite Hy, Hz, Hu. do 4 f_equal.
    cbn [length] in Hn. apply (IH (length rest3)); [lia | reflexivity | exact Hrest].
Qed.

Lemma utf8_decode_encode (s : string) :
  plain_text s -> utf8_decode (utf8_encode s) = s.
Proof.
  intros [Hformed Hmark]. unfold utf8_decode, skip_byte_order_mark.
  rewrite Hmark, decode_sequences_well_formed by exact Hformed.
  apply text_of_encode.
Qed.

(** [decryptMessage] returns the message [encryptMessage] was given,
    under any key, on a host whose random bytes are bytes, when the
    message is a text the decoder gives back as it was. *)
Lemma decryptMessage_encryptMessage (key : CryptoKey) (message : string) (w : World) :
  plain_text message ->
  (forall n, is_byte (entropy w n)) ->
  exists encrypted w',
    encryptMessage key message w = (Ok encrypted, w')
    /\ decryptMessage key encrypted = Ok message
    /\ entropy w' = entropy w.
Proof.
  intros Htext Hbytes. unfold encryptMessage, bind, getRandomValues, ret.
  eexists _, _. split; [reflexivity|]. split; [|reflexivity].
  unfold decryptMessage. cbn [iv data].
  rewrite !to_bytes_id.
  - rewrite open_seal. now rewrite utf8_decode_encode.
  - apply seal_range, utf8_encode_range.
  - apply List.Forall_forall. intros x Hx. apply in_map_iff in Hx as (n & <- & _).
    apply Hbytes.
Qed.

(** *** One step of the ratchet *)

Lemma kdf_runs (key data : bytes) :
  key <> [] -> kdf key data = Ok (HMAC.hmac_sha256 key data).
Proof. unfold kdf. destruct key; [congruence | reflexivity]. Qed.

Lemma importKey_aes_digest (key data : bytes) :
  importKey_aes (HMAC.hmac_sha256 key data) = Ok {| raw := HMAC.hmac_sha256 key data |}.
Proof.
  unfold importKey_aes. unfold HMAC.hmac_sha256 at 1 2 3.
  now rewrite !KeyFacts.digest_length.
Qed.

Lemma ratchetEncrypt_runs (sender : Ratchet) (plaintext : string) (w : World) :
  chain_key (sendChain sender) <> [] ->
  exists sealed w',
    encryptMessage {| raw := HMAC.hmac_sha256 (chain_key (sendChain sender)) [1] |}
      plaintext w = (Ok sealed, w')
    /\ entropy w' = entropy w
    /\ ratchetEncrypt sender plaintext w
       = (Ok (sealed,
              {| rootKey := rootKey sender;
                 sendChain := {| chain_key := HMAC.hmac_sha256 (chain_key (sendChain sender)) [2];
                                 counter := counter (sendChain sender) + 1 |};
                 receiveChain := receiveChain sender |}), w').
Proof.
  intros Hkey. unfold ratchetEncrypt.
  eexists _, _. split; [reflexivity|]. split; [reflexivity|].
  unfold bind, lift, ret. rewrite !kdf_runs by exact Hkey.
  rewrite importKey_aes_digest. reflexivity.
Qed.

Lemma ratchetDecrypt_runs (receiver : Ratchet) (sealed : Encrypted) (plaintext : string) :
  chain_key (receiveChain receiver) <> [] ->
  decryptMessage {| raw := HMAC.hmac_sha256 (chain_key (receiveChain receiver)) [1] |}
    sealed = Ok plaintext ->
  ratchetDecrypt receiver sealed
  = Ok (plaintext,
        {| rootKey := rootKey receiver;
           sendChain := sendChain receiver;
           receiveChain :=
             {| chain_key := HMAC.hmac_sha256 (chain_key (receiveChain receiver)) [2];
                counter := counter (receiveChain receiver) + 1 |} |}).
Proof.
  intros Hkey Hopen. unfold ratchetDecrypt.
  rewrite !kdf_runs by exact Hkey. cbn [rbind].
  rewrite importKey_aes_digest. cbn [rbind]. rewrite Hopen. reflexivity.
Qed.

Lemma ratchet_step (sender receiver : Ratchet) (plaintext : string) (w : World) :
  in_step sender receiver ->
  plain_text plaintext ->
  (forall n, is_byte (entropy w n)) ->
  exists sealed sender' receiver' w',
    ratchetEncrypt sender plaintext w = (Ok (sealed, sender'), w')
    /\ ratchetDecrypt receiver sealed = Ok (plaintext, receiver')
    /\ in_step sender' receiver'
    /\ receiveChain sender' = receiveChain sender
    /\ sendChain receiver' = sendChain receiver
    /\ entropy w' = entropy w.
Proof.
  intros [Hsame Hkey] Htext Hbytes.
  destruct (ratchetEncrypt_runs sender plaintext w Hkey) as (sealed & w' & Hseal & Hw & Hrun).
  destruct (decryptMessage_encryptMessage
              {| raw := HMAC.hmac_sha256 (chain_key (sendChain sender)) [1] |}
              plaintext w Htext Hbytes) as (sealed0 & w0 & Hseal0 & Hopen & _).
  rewrite Hseal in Hseal0. injection Hseal0 as <- <-.
  eexists sealed, _, _, w'. split; [exact Hrun|].
  split.
  - apply ratchetDecrypt_runs; rewrite <- Hsame; assumption.
  - split; [|split; [reflexivity | split; [reflexivity | exact Hw]]].
    split; cbn [sendChain receiveChain chain_key].
    + now rewrite Hsame.
    + apply KeyFacts.hmac_not_empty.
Qed.

(** What one side encrypts, the other decrypts, when the chain from the
    one to the other is in step and the plaintext is a text the decoder
    gives back as it was (well-formed, and not starting with the byte
    order mark, which the decoder drops); the two are in step again
    afterwards, and each side's other chain is as it was. *)
Theorem ratchetDecrypt_ratchetEncrypt
  (sender receiver : Ratchet) (plaintext : string) (w : World) :
  in_step sender receiver ->
  plain_text plaintext ->
  (forall n, is_byte (entropy w n)) ->
  exists sealed sender' receiver' w',
    ratchetEncrypt sender plaintext w = (Ok (sealed, sender'), w')
    /\ ratchetDecrypt receiver sealed = Ok (plaintext, receiver')
    /\ in_step sender' receiver'
    /\ receiveChain sender' = receiveChain sender
    /\ sendChain receiver' = sendChain receiver.
Proof.
  intros Hstep Htext Hbytes.
  destruct (ratchet_step sender receiver plaintext w Hstep Htext Hbytes)
    as (sealed & sender' & receiver' & w' & H1 & H2 & H3 & H4 & H5 & _).
  now exists sealed, sender', receiver', w'.
Qed.

(** A plaintext that starts with the byte order mark comes back without
    it. *)
Example byte_order_mark_is_lost :
  let marked := text_of [239; 187; 191; 104; 105] in
  rbind (fst (ratchetEncrypt first_side marked sample_world))
    (fun sent => rmap fst (ratchetDecrypt second_side (fst sent)))
  = Ok "hi"%string.
Proof. vm_compute. reflexivity. Qed.

(** Messages sent one after the other and received in the order sent all
    come out as they went in, and leave the two sides in step, when each
    is a text the decoder gives back as it was. *)
Theorem receive_all_send_all
  (plaintexts : list string) (sender receiver : Ratchet) (w : World) :
  in_step sender receiver ->
  Forall plain_text plaintexts ->
  (forall n, is_byte (entropy w n)) ->
  exists messages sender' receiver' w',
    send_all sender plaintexts w = (Ok (messages, sender'), w')
    /\ receive_all receiver messages = Ok (plaintexts, receiver')
    /\ length messages = length plaintexts
    /\ in_step sender' receiver'.
Proof.
  revert sender receiver w.
  induction plaintexts as [|plaintext rest IH];
    intros sender receiver w Hstep Htexts Hbytes.
  - exists [], sender, receiver, w. repeat split; try reflexivity; apply Hstep.
  - inversion Htexts as [|? ? Htext Hrest]; subst.
    destruct (ratchet_step sender receiver plaintext w Hstep Htext Hbytes)
      as (sealed & sender1 & receiver1 & w1 & Hsend & Hrecv & Hstep1 & _ & _ & Hw1).
    assert (Hbytes1 : forall n, is_byte (entropy w1 n)) by (rewrite Hw1; exact Hbytes).
    destruct (IH sender1 receiver1 w1 Hstep1 Hrest Hbytes1)
      as (messages & sender' & receiver' & w' & Hsends & Hrecvs & Hlen & Hstep').
    exists (sealed :: messages), sender', receiver', w'.
    split; [|split; [|split; [|exact Hstep']]].
    + cbn [send_all]. unfold bind at 1. rewrite Hsend. cbn [snd fst].
      unfold bind at 1. rewrite Hsends. reflexivity.
    + cbn [receive_all]. rewrite Hrecv. cbn [rbind snd fst]. rewrite Hrecvs. reflexivity.
    + cbn [length]. now rewrite Hlen.
Qed.

Section AgreementFacts.
Variables PrivateKey PublicJwk : Type.
Variable deriveSharedSecret_raw : PrivateKey -> PublicJwk -> result bytes.

(** Two sides that derive the same secret start with all four chains on
    that secret: each side's first message opens at the other side, and
    it also opens under the state of the side that sent it, so what one
    side sent can be handed back to it as if the other had sent it.  The
    plaintext is a text the decoder gives back as it was. *)
Theorem initializeRatchet_chains_coincide
  (ours theirs : PrivateKey) (ourJwk theirJwk : PublicJwk)
  (secret : bytes) (plaintext : string) (w : World) :
  deriveSharedSecret_raw ours theirJwk = Ok secret ->
  deriveSharedSecret_raw theirs ourJwk = Ok secret ->
  secret <> [] ->
  plain_text plaintext ->
  (forall n, is_byte (entropy w n)) ->
  exists here there sealed here' w',
    initializeRatchet _ _ deriveSharedSecret_raw ours theirJwk = Ok here
    /\ initializeRatchet _ _ deriveSharedSecret_raw theirs ourJwk = Ok there
    /\ here = there
    /\ ratchetEncrypt here plaintext w = (Ok (sealed, here'), w')
    /\ (exists there', ratchetDecrypt there sealed = Ok (plaintext, there'))
    /\ (exists back, ratchetDecrypt here' sealed = Ok (plaintext, back)).
Proof.
  intros Hours Htheirs Hsecret Htext Hbytes.
  set (start := {| rootKey := secret;
                   sendChain := {| chain_key := secret; counter := 0 |};
                   receiveChain := {| chain_key := secret; counter := 0 |} |}).
  assert (Hstep : in_step start start) by (split; [reflexivity | exact Hsecret]).
  destruct (ratchet_step start start plaintext w Hstep Htext Hbytes)
    as (sealed & here' & there' & w' & Hsend & Hrecv & _ & Hkeep & _ & _).
  exists start, start, sealed, here', w'.
  split; [unfold initializeRatchet; now rewrite Hours|].
  split; [unfold initializeRatchet; now rewrite Htheirs|].
  split; [reflexivity|]. split; [exact Hsend|].
  split; [now exists there'|].
  destruct (ratchetEncrypt_runs start plaintext w Hsecret) as (sealed0 & w0 & Hs0 & _ & Hrun).
  rewrite Hsend in Hrun. injection Hrun as -> -> ->.
  destruct (decryptMessage_encryptMessage
              {| raw := HMAC.hmac_sha256 secret [1] |} plaintext w Htext Hbytes)
    as (sealed1 & w1 & Hs1 & Hopen & _).
  cbn [start sendChain chain_key] in Hs0. rewrite Hs0 in Hs1. injection Hs1 as <- <-.
  eexists. apply ratchetDecrypt_runs; cbn [receiveChain chain_key start]; assumption.
Qed.

End AgreementFacts.

(** *** On the sample sides *)

Lemma sample_sides_in_step : in_step first_side second_side.
Proof. split; [reflexivity | discriminate]. Qed.

Lemma hello_is_plain_text : plain_text "hello".
Proof. split; reflexivity. Qed.

Lemma three_plain_texts : Forall plain_text ["one"; "two"; "three"]%string.
Proof. repeat constructor. Qed.

Lemma ratchetDecrypt_ratchetEncrypt_witness :
  in_step first_side second_side
  /\ plain_text "hello"
  /\ (forall n, is_byte (entropy sample_world n))
  /\ exists sealed sender' receiver' w',
       ratchetEncrypt first_side "hello" sample_world = (Ok (sealed, sender'), w')
       /\ ratchetDecrypt second_side sealed = Ok ("hello"%string, receiver').
Proof.
  split; [exact sample_sides_in_step|].
  split; [exact hello_is_plain_text|].
  split; [exact (proj1 KeyFacts.sample_world_in_range)|].
  destruct (ratchetDecrypt_ratchetEncrypt first_side second_side "hello" sample_world
              sample_sides_in_step hello_is_plain_text
              (proj1 KeyFacts.sample_world_in_range))
    as (sealed & sender' & receiver' & w' & Hsend & Hrecv & _).
  exists sealed, sender', receiver', w'. split; [exact Hsend | exact Hrecv].
Defined.

Lemma receive_all_send_all_witness :
  in_step first_side second_side
  /\ Forall plain_text ["one"; "two"; "three"]%string
  /\ (forall n, is_byte (entropy sample_world n))
  /\ exists messages sender' receiver' w',
       send_all first_side ["one"; "two"; "three"]%string sample_world
       = (Ok (messages, sender'), w')
       /\ receive_all second_side messages
          = Ok (["one"; "two"; "three"]%string, receiver').
Proof.
  split; [exact sample_sides_in_step|].
  split; [exact three_plain_texts|].
  split; [exact (proj1 KeyFacts.sample_world_in_range)|].
  destruct (receive_all_send_all ["one"; "two"; "three"]%string first_side second_side
              sample_world sample_sides_in_step three_plain_texts
              (proj1 KeyFacts.sample_world_in_range))
    as (messages & sender' & receiver' & w' & Hsend & Hrecv & _).
  exists messages, sender', receiver', w'. split; [exact Hsend | exact Hrecv].
Defined.

Lemma initializeRatchet_chains_coincide_witness :
  constant_agreement tt tt = Ok (repeat 9 32)
  /\ repeat 9 32 <> []
  /\ plain_text "hello"
  /\ (forall n, is_byte (entropy sample_world n))
  /\ exists here sealed here' w',
       initializeRatchet _ _ constant_agreement tt tt = Ok here
       /\ ratchetEncrypt here "hello" sample_world = (Ok (sealed, here'), w')
       /\ exists back, ratchetDecrypt here' sealed = Ok ("hello"%string, back).
Proof.
  assert (Hne : repeat 9 32 <> []) by discriminate.
  split; [reflexivity|]. split; [exact Hne|].
  split; [exact hello_is_plain_text|].
  split; [exact (proj1 KeyFacts.sample_world_in_range)|].
  destruct (initializeRatchet_chains_coincide unit unit constant_agreement tt tt tt tt
              (repeat 9 32) "hello" sample_world eq_refl eq_refl Hne
              hello_is_plain_text (proj1 KeyFacts.sample_world_in_range))
    as (here & there & sealed & here' & w' & Hinit & _ & _ & Hsend & _ & Hback).
  exists here, sealed, here', w'.
  split; [exact Hinit|]. split; [exact Hsend | exact Hback].
Defined.

End RatchetFacts.

(** * Properties of the secure storage *)
Module StorageFacts.
Import AmiXCrypto AmiXStorage.
Local Open Scope Z_scope.

Lemma same_items_refl (d : Device) : same_items d d.
Proof. now intros key _. Qed.

Lemma same_items_trans (d1 d2 d3 : Device) :
  same_items d1 d2 -> same_items d2 d3 -> same_items d1 d3.
Proof. intros H12 H23 key Hkey. now rewrite H23, H12. Qed.

Lemma on_host_items {A} (m : M A) (d : Device) :
  items (snd (on_host m d)) = items d.
Proof. unfold on_host. now destruct (m (host d)). Qed.

Lemma getStorageKey_runs (d : Device) :
  exists storageKey d', getStorageKey d = (Ok storageKey, d') /\ same_items d d'.
Proof.
  unfold getStorageKey, try_catch, bind, getItemAsync.
  destruct (absent (items d !! "amix_device_id"%string)).
  - unfold on_host. destruct (generateSecureUUID (host d)) as [[uuid | error] w].
    + eexists _, _. split; [reflexivity|].
      intros key Hkey. cbn [items]. now rewrite lookup_insert_ne.
    + eexists _, _. split; [reflexivity|]. now intros key _.
  - eexists _, _. split; [reflexivity|]. apply same_items_refl.
Qed.

Section JsonFacts.
Context {nacl : NaCl}.
Variable Json : Type.
Variable JSON_stringify : Json -> result string.
Variable JSON_parse : string -> result Json.
Variable field : Json -> string -> result string.

Lemma encryptForStorage_throws (data : Json) (d : Device) :
  exists error d', encryptForStorage Json JSON_stringify data d = (Throw error, d')
                   /\ same_items d d'.
Proof.
  unfold encryptForStorage.
  destruct (getStorageKey_runs d) as (storageKey & d1 & Hkey & Hsame).
  unfold try_catch, bind at 1. rewrite Hkey.
  unfold bind at 1, lift at 1.
  destruct (JSON_stringify data) as [dataString | error].
  - unfold bind, on_host, generateRandomBytes, getRandomValues.
    eexists _, _. split; [reflexivity|]. exact Hsame.
  - eexists _, _. split; [reflexivity|]. exact Hsame.
Qed.

(** [storeSecurely] stores nothing: whatever the key, the value and the
    device, it returns [false], and every item of the secure store but the
    device id is as it was. *)
Theorem storeSecurely_never_stores (key : string) (value : Json) (d : Device) :
  exists d',
    storeSecurely Json JSON_stringify key value d = (Ok false, d')
    /\ same_items d d'.
Proof.
  destruct (encryptForStorage_throws value d) as (error & d1 & Hrun & Hsame).
  unfold storeSecurely, try_catch, bind at 1. rewrite Hrun.
  unfold bind, ret.
  set (logged := on_host _ d1).
  assert (Hitems : items (snd logged) = items d1) by apply on_host_items.
  assert (Hok : fst logged = Ok tt).
  { subst logged. unfold on_host, console_write. reflexivity. }
  destruct logged as [r d2]. cbn [fst snd] in *. subst r.
  exists d2. split; [reflexivity|].
  intros k Hk. rewrite Hitems. now apply Hsame.
Qed.

(** [getSecurely] gives nothing back: whatever the secure store holds
    under the key, it returns [null], and every item but the device id is
    as it was. *)
Theorem getSecurely_always_null (key : string) (d : Device) :
  exists d',
    getSecurely Json JSON_parse field key d = (Ok None, d')
    /\ same_items d d'.
Proof.
  unfold getSecurely, try_catch, bind at 1, getItemAsync.
  destruct (absent (items d !! key)).
  { exists d. split; [reflexivity | apply same_items_refl]. }
  assert (Hthrows : exists error d1,
             decryptFromStorage Json JSON_parse field
               (default EmptyString (items d !! key)) d = (Throw error, d1)
             /\ same_items d d1).
  { unfold decryptFromStorage, try_catch, bind at 1, lift at 1.
    destruct (JSON_parse (default EmptyString (items d !! key))) as [data | error].
    - destruct (getStorageKey_runs d) as (storageKey & d1 & Hkey & Hsame).
      unfold bind at 1. rewrite Hkey.
      unfold bind at 1, lift at 1.
      destruct (field data "encrypted") as [encrypted | error].
      + unfold bind at 1, lift at 1.
        destruct (field data "nonce") as [nonce | error].
        * unfold bind at 1, on_host.
          eexists _, _. split; [reflexivity | exact Hsame].
        * eexists _, _. split; [reflexivity | exact Hsame].
      + eexists _, _. split; [reflexivity | exact Hsame].
    - eexists _, _. split; [reflexivity | apply same_items_refl]. }
  destruct Hthrows as (error & d1 & Hrun & Hsame).
  unfold bind at 1. rewrite Hrun.
  unfold bind, ret.
  set (logged := on_host _ d1).
  assert (Hitems : items (snd logged) = items d1) by apply on_host_items.
  assert (Hok : fst logged = Ok tt).
  { subst logged. unfold on_host, console_write. reflexivity. }
  destruct logged as [r d2]. cbn [fst snd] in *. subst r.
  exists d2. split; [reflexivity|].
  intros k Hk. rewrite Hitems. now apply Hsame.
Qed.

End JsonFacts.

End StorageFacts.
